(** * Vocabulary flashcards: ingestion, quiz scoring and the persisted stores

    A shallow embedding of the application logic of the flashcard/quiz
    application (the helpers [normalizeAnswer], [validateCard], [cleanText],
    the ingestion function [parseJSONL], and the handlers [handleMemoChange],
    [handleSubmit], [saveWrongCard], [handleNext], [handleAddFile],
    [processAndUpload] and the two load effects), followed by the properties
    the specification states about them.

    Conventions of the embedding.
    - A JavaScript string is the list of its UTF-16 code units ([jsstring]);
      [length] is therefore the [.length] of the source.
    - A decoded JSON value is a [json]; a JSON number is modelled by an
      integer (the ids and counters of this program are integers; fractions,
      exponents, [-0] and the rounding of doubles are outside the model).
    - An object is the list of its own properties in the order in which
      the engine enumerates them: the array-index names in ascending order,
      then the other names in the order of their creation; [setProp] keeps
      that order.
    - The runtime built-ins with a large semantics of their own,
      [JSON.parse], [JSON.stringify] and [String.prototype.toLowerCase], are
      the fields of the class [Runtime]: every general theorem holds for any
      such functions.  Reference implementations ([json_decode],
      [json_encode], [ascii_toLowerCase]) are given for evaluating concrete
      inputs.
    - [Date.now()] is a clock [now : nat -> Z]: the reading taken while the
      line of that index is processed.
    - An exception is a [Throw] completion; [try]/[catch] is a match on the
      completion. *)

From Stdlib Require Import List String Ascii ZArith NArith Arith Bool Lia.
From Stdlib Require Import DecimalString.
From Stdlib Require Import DecimalNat Permutation Sorted.
Import ListNotations.

Set Warnings "-register-all".

(** ** Strings as sequences of UTF-16 code units *)

Module JsString.

Definition char := N.
Definition jsstring := list char.

Definition eqb (a b : jsstring) : bool :=
  if list_eq_dec N.eq_dec a b then true else false.

(** Literals.  A Rocq string literal is a sequence of UTF-8 bytes; [js]
    decodes it into the code units the same literal has in the source
    (a surrogate pair for a code point above U+FFFF). *)
Fixpoint utf16_of_utf8 (bs : list N) : jsstring :=
  match bs with
  | [] => []
  | b0 :: r0 =>
      if (b0 <? 128)%N then b0 :: utf16_of_utf8 r0
      else if (b0 <? 224)%N then
        match r0 with
        | b1 :: r1 => ((b0 mod 32) * 64 + b1 mod 64)%N :: utf16_of_utf8 r1
        | _ => []
        end
      else if (b0 <? 240)%N then
        match r0 with
        | b1 :: b2 :: r2 =>
            ((b0 mod 16) * 4096 + (b1 mod 64) * 64 + b2 mod 64)%N
              :: utf16_of_utf8 r2
        | _ => []
        end
      else
        match r0 with
        | b1 :: b2 :: b3 :: r3 =>
            let cp := ((b0 mod 8) * 262144 + (b1 mod 64) * 4096
                       + (b2 mod 64) * 64 + b3 mod 64 - 65536)%N in
            (55296 + cp / 1024)%N :: (56320 + cp mod 1024)%N
              :: utf16_of_utf8 r3
        | _ => []
        end
  end.

Definition js (s : string) : jsstring :=
  utf16_of_utf8 (map N_of_ascii (list_ascii_of_string s)).

(** Named code units. *)
Definition LF : char := 10%N.
Definition SPACE : char := 32%N.
Definition DQUOTE : char := 34%N.
Definition QUOTE : char := 39%N.
Definition UNDERSCORE : char := 95%N.

(** JSON source text written with ['] standing for the double quote. *)
Definition jsq (s : string) : jsstring :=
  map (fun c => if (c =? QUOTE)%N then DQUOTE else c) (js s).

(** [WhiteSpace] and [LineTerminator] of ECMAScript: what [trim] strips and
    what [\s] matches. *)
Definition isWhiteSpace (c : char) : bool :=
  ((9 <=? c) && (c <=? 13) || (c =? 32) || (c =? 160) || (c =? 5760)
   || (8192 <=? c) && (c <=? 8202) || (c =? 8232) || (c =? 8233)
   || (c =? 8239) || (c =? 8287) || (c =? 12288) || (c =? 65279))%N.

(** [\d]: the ASCII digits. *)
Definition isDigit (c : char) : bool := ((48 <=? c) && (c <=? 57))%N.

Fixpoint trimStart (s : jsstring) : jsstring :=
  match s with
  | c :: r => if isWhiteSpace c then trimStart r else s
  | [] => []
  end.

Definition trimEnd (s : jsstring) : jsstring := rev (trimStart (rev s)).

Definition trim (s : jsstring) : jsstring := trimEnd (trimStart s).

(** [s.split(sep)] for a one-unit separator: never the empty list. *)
Fixpoint split (sep : char) (s : jsstring) : list jsstring :=
  match s with
  | [] => [[]]
  | c :: r =>
      if (c =? sep)%N then [] :: split sep r
      else match split sep r with
           | l :: ls => (c :: l) :: ls
           | [] => [[c]]
           end
  end.

(** [s.replace(/\s+/g, ' ')]: every maximal run of white space becomes one
    space.  [inRun] tells that the previous unit belonged to a run. *)
Fixpoint replaceWhiteSpaceRuns (inRun : bool) (s : jsstring) : jsstring :=
  match s with
  | [] => []
  | c :: r =>
      if isWhiteSpace c
      then (if inRun then replaceWhiteSpaceRuns true r
            else SPACE :: replaceWhiteSpaceRuns true r)
      else c :: replaceWhiteSpaceRuns false r
  end.

(** [s.replace(/_\d+$/, '')]: the match is tried at each position from the
    left; it succeeds where an underscore is followed by one or more digits
    that reach the end of the string. *)
Definition isDigits1 (s : jsstring) : bool :=
  negb (Nat.eqb (List.length s) 0) && forallb isDigit s.

Fixpoint replaceIdSuffix (s : jsstring) : jsstring :=
  match s with
  | [] => []
  | c :: r =>
      if (c =? UNDERSCORE)%N && isDigits1 r then []
      else c :: replaceIdSuffix r
  end.

(** [String(n)] for an integer. *)
Definition ofNat (n : nat) : jsstring :=
  js (NilEmpty.string_of_uint (Nat.to_uint n)).

Definition ofZ (z : Z) : jsstring :=
  match z with
  | Z0 => js "0"
  | Zpos p => ofNat (Pos.to_nat p)
  | Zneg p => js "-" ++ ofNat (Pos.to_nat p)
  end.

End JsString.
Import JsString.

(** ** JSON values, property access and completions *)

Inductive json : Type :=
| JNull
| JBool (b : bool)
| JNum (z : Z)
| JStr (s : jsstring)
| JArr (items : list json)
| JObj (props : list (jsstring * json)).

(** The result of reading a property or an element: [None] is [undefined]. *)
Definition value := option json.

(** ToBoolean. *)
Definition truthy (v : value) : bool :=
  match v with
  | None | Some JNull => false
  | Some (JBool b) => b
  | Some (JNum z) => negb (z =? 0)%Z
  | Some (JStr s) => negb (Nat.eqb (List.length s) 0)
  | Some (JArr _) | Some (JObj _) => true
  end.

(** [a || b] between two readings, and [a || d] ending in a literal. *)
Definition logicalOr (a b : value) : value := if truthy a then a else b.

Definition orDefault (a : value) (d : json) : json :=
  match a with
  | Some v => if truthy a then v else d
  | None => d
  end.

Fixpoint lookup (k : jsstring) (props : list (jsstring * json)) : value :=
  match props with
  | [] => None
  | (k', v) :: r => if JsString.eqb k' k then Some v else lookup k r
  end.

(** [obj.k] for the property names this program reads (none of them is
    defined on arrays or on [Object.prototype]). *)
Definition get (obj : json) (k : jsstring) : value :=
  match obj with
  | JObj props => lookup k props
  | _ => None
  end.

(** The array index a property name stands for: a name is an array index
    when it is the decimal form of an integer from 0 to 2^32 - 2. *)
Definition indexValue (ds : jsstring) : N :=
  fold_left (fun acc c => (acc * 10 + (c - 48))%N) ds 0%N.

Definition arrayIndex (k : jsstring) : option N :=
  if forallb isDigit k then
    let n := indexValue k in
    if (n <=? 4294967294)%N
       && JsString.eqb (js (NilEmpty.string_of_uint (N.to_uint n))) k
    then Some n else None
  else None.

(** The property list of an object is kept in the order in which the engine
    enumerates the own properties (and [JSON.stringify] writes them, and
    the spread copies them): the array-index names first, in ascending
    order of their values, then the other names in the order of their
    creation. *)
Fixpoint replaceProp (k : jsstring) (v : json)
  (props : list (jsstring * json)) : list (jsstring * json) :=
  match props with
  | [] => []
  | (k', v') :: r =>
      if JsString.eqb k' k then (k, v) :: r else (k', v') :: replaceProp k v r
  end.

Fixpoint insertIndex (n : N) (k : jsstring) (v : json)
  (props : list (jsstring * json)) : list (jsstring * json) :=
  match props with
  | [] => [(k, v)]
  | (k', v') :: r =>
      match arrayIndex k' with
      | Some m => if (m <? n)%N then (k', v') :: insertIndex n k v r
                  else (k, v) :: props
      | None => (k, v) :: props
      end
  end.

(** [obj[k] = v] on a property list: the value is replaced in place when
    the name exists; a new array-index name is created at its place among
    the array-index names, any other new name at the end. *)
Definition setProp (k : jsstring) (v : json) (props : list (jsstring * json))
  : list (jsstring * json) :=
  match lookup k props with
  | Some _ => replaceProp k v props
  | None =>
      match arrayIndex k with
      | Some n => insertIndex n k v props
      | None => props ++ [(k, v)]
      end
  end.

Inductive JsError : Type := SyntaxError | TypeError.

Inductive completion (A : Type) : Type :=
| Normal (a : A)
| Throw (e : JsError).
Arguments Normal {A} a.
Arguments Throw {A} e.

Definition bind {A B} (c : completion A) (k : A -> completion B)
  : completion B :=
  match c with
  | Normal a => k a
  | Throw e => Throw e
  end.

Declare Scope js_scope.
Delimit Scope js_scope with js.
Notation "x <- c ;; k" := (bind c (fun x => k))
  (at level 61, c at next level, right associativity) : js_scope.
Open Scope js_scope.

(** [xs.map(f)] where [f] may throw: the first exception aborts the map. *)
Fixpoint mapM {A B} (f : A -> completion B) (xs : list A)
  : completion (list B) :=
  match xs with
  | [] => Normal []
  | x :: r => y <- f x ;; ys <- mapM f r ;; Normal (y :: ys)
  end.

(** ** The data model *)

(** [Card].  The interface types [gender], [level], [topic], [language] and
    [prompt_ko] as strings, but ingestion stores whatever the decoded record
    holds, so they are JSON values here. *)
Record Card : Type := mkCard {
  id : Z;
  lemma : jsstring;
  gender : json;
  full_form : jsstring;
  translations_ko : list json;
  prompt_ko : json;
  accepted_answers_de : list jsstring;
  level : json;
  topic : json;
  language : json
}.

Record LoadedFile : Type := mkLoadedFile {
  file_id : jsstring;
  file_name : jsstring;
  file_cards : list Card;
  file_timestamp : Z
}.

Definition STORAGE_KEY_WRONG_CARDS : jsstring := js "vokabel_wrong_cards_v2".
Definition STORAGE_KEY_MEMOS : jsstring := js "vokabel_memos_v1".

(** The result object of [parseJSONL]: [{ cards, error? }]. *)
Record ParseResult : Type := mkParseResult {
  cards : list Card;
  error : option jsstring
}.

(** The locals of [parseJSONL] that the loop body updates, and the console. *)
Record Acc : Type := mkAcc {
  acc_cards : list Card;
  acc_seen : list jsstring;
  acc_invalidCount : nat;
  acc_console : list jsstring
}.

(** [xs.forEach((x, index) => ...)] threading the mutated locals. *)
Fixpoint forEach {St A} (f : St -> nat -> A -> St) (index : nat)
  (xs : list A) (s : St) : St :=
  match xs with
  | [] => s
  | x :: r => forEach f (S index) r (f s index x)
  end.

Definition MSG_NO_CARDS : jsstring := js "유효한 카드 데이터가 없습니다.".

Definition MSG_MOSTLY_INVALID (invalidCount : nat) : jsstring :=
  js "파일의 상당수(" ++ ofNat invalidCount
    ++ js "줄)가 올바르지 않은 형식입니다.".

(** The built-ins of the runtime the program calls. *)
Class Runtime : Type := {
  JSON_parse : jsstring -> completion json;
  JSON_stringify : json -> jsstring;
  toLowerCase : jsstring -> jsstring
}.

(** ** Ingestion *)

Section Ingestion.

Context {rt : Runtime}.

Definition normalizeAnswer (input : jsstring) : jsstring :=
  replaceWhiteSpaceRuns false (toLowerCase (trim input)).

Definition validateCard (obj : json) : bool :=
  match obj with
  | JObj _ =>
      match get obj (js "lemma"), get obj (js "translations_ko") with
      | Some (JStr _), Some (JArr _) => true
      | _, _ => false
      end
  | _ => false
  end.

(** [cleanText]: a falsy argument gives the empty string; a truthy one that
    is not a string has no [replace] method, and the call throws. *)
Definition cleanText (text : value) : completion jsstring :=
  if negb (truthy text) then Normal []
  else match text with
       | Some (JStr s) => Normal (replaceIdSuffix s)
       | _ => Throw TypeError
       end.

(** The elements of [obj.translations_ko] ([validateCard] made it an array). *)
Definition arrayItems (v : value) : list json :=
  match v with
  | Some (JArr items) => items
  | _ => []
  end.

(** The card literal of the loop body, for a record that passed
    [validateCard]. *)
Definition makeCard (now : nat -> Z) (index : nat) (obj : json)
  : completion Card :=
  displayLemma <- cleanText (get obj (js "lemma")) ;;
  displayFullForm <-
    (if truthy (get obj (js "full_form"))
     then cleanText (get obj (js "full_form"))
     else Normal displayLemma) ;;
  accepted <-
    match get obj (js "accepted_answers_de") with
    | Some (JArr answers) =>
        mapM (fun ans => s <- cleanText (Some ans) ;; Normal (toLowerCase s))
             answers
    | _ => Normal [toLowerCase displayLemma]
    end ;;
  Normal {|
    id := match get obj (js "id") with
          | Some (JNum n) => n
          | _ => (now index + Z.of_nat index)%Z
          end;
    lemma := displayLemma;
    gender := orDefault (get obj (js "gender")) JNull;
    full_form := displayFullForm;
    translations_ko := arrayItems (get obj (js "translations_ko"));
    prompt_ko :=
      orDefault (logicalOr (get obj (js "prompt_ko"))
                           (nth_error (arrayItems
                                         (get obj (js "translations_ko"))) 0))
                (JStr (js "???"));
    accepted_answers_de := accepted;
    level := orDefault (get obj (js "level")) (JStr (js "Unknown"));
    topic := orDefault (get obj (js "topic")) (JStr (js "General"));
    language := orDefault (get obj (js "language")) (JStr (js "German"))
  |}.

(** The deduplication signature of a card. *)
Definition signature (card : Card) : jsstring :=
  JSON_stringify
    (JObj [ (js "lang", language card);
            (js "lemma", JStr (lemma card));
            (js "gender", gender card);
            (js "trans", JArr (translations_ko card));
            (js "level", level card);
            (js "topic", topic card) ]).

Definition has (seen : list jsstring) (sig : jsstring) : bool :=
  existsb (JsString.eqb sig) seen.

Definition warn (msg : jsstring) (acc : Acc) : Acc :=
  {| acc_cards := acc_cards acc;
     acc_seen := acc_seen acc;
     acc_invalidCount := acc_invalidCount acc;
     acc_console := acc_console acc ++ [msg] |}.

Definition incrInvalid (acc : Acc) : Acc :=
  {| acc_cards := acc_cards acc;
     acc_seen := acc_seen acc;
     acc_invalidCount := S (acc_invalidCount acc);
     acc_console := acc_console acc |}.

(** The [try] block of the loop body. *)
Definition tryLine (now : nat -> Z) (acc : Acc) (index : nat)
  (line : jsstring) : completion Acc :=
  obj <- JSON_parse line ;;
  if validateCard obj then
    card <- makeCard now index obj ;;
    if negb (has (acc_seen acc) (signature card)) then
      Normal {| acc_cards := acc_cards acc ++ [card];
                acc_seen := acc_seen acc ++ [signature card];
                acc_invalidCount := acc_invalidCount acc;
                acc_console := acc_console acc |}
    else Normal acc
  else
    Normal (incrInvalid
              (warn (js "Invalid card structure at line "
                       ++ ofNat (index + 1)) acc)).

(** The loop body: blank lines return at once; [catch] counts the line. *)
Definition processLine (now : nat -> Z) (acc : Acc) (index : nat)
  (line : jsstring) : Acc :=
  if Nat.eqb (List.length (trim line)) 0 then acc
  else match tryLine now acc index line with
       | Normal acc' => acc'
       | Throw _ =>
           incrInvalid
             (warn (js "JSON parse error at line " ++ ofNat (index + 1)) acc)
       end.

Definition emptyAcc : Acc :=
  {| acc_cards := []; acc_seen := []; acc_invalidCount := 0;
     acc_console := [] |}.

Definition linesOf (text : jsstring) : list jsstring := split LF (trim text).

Definition scanLines (now : nat -> Z) (text : jsstring) : Acc :=
  forEach (processLine now) 0 (linesOf text) emptyAcc.

(** [cards.length < lines.length * 0.5], on integers. *)
Definition parseJSONL (now : nat -> Z) (text : jsstring) : ParseResult :=
  let lines := linesOf text in
  let acc := forEach (processLine now) 0 lines emptyAcc in
  if Nat.eqb (List.length (acc_cards acc)) 0 then
    {| cards := []; error := Some MSG_NO_CARDS |}
  else if Nat.ltb 0 (acc_invalidCount acc)
          && Nat.ltb (2 * List.length (acc_cards acc)) (List.length lines)
  then {| cards := acc_cards acc;
          error := Some (MSG_MOSTLY_INVALID (acc_invalidCount acc)) |}
  else {| cards := acc_cards acc; error := None |}.

End Ingestion.

(** ** The application state and its handlers *)

Inductive Feedback : Type := Idle | Correct | Incorrect.

Record Stats : Type := mkStats { total : nat; correct : nat }.

(** The state of [QuizView]. *)
Record QuizState : Type := mkQuizState {
  currentIndex : nat;
  input : jsstring;
  feedback : Feedback;
  stats : Stats;
  isFinished : bool;
  sessionWrongCards : list Card
}.

(** [localStorage]: a string store read and written by key. *)
Definition Storage := list (jsstring * jsstring).

Fixpoint getItem (key : jsstring) (st : Storage) : option jsstring :=
  match st with
  | [] => None
  | (k, v) :: r => if JsString.eqb k key then Some v else getItem key r
  end.

Fixpoint setItem (key value : jsstring) (st : Storage) : Storage :=
  match st with
  | [] => [(key, value)]
  | (k, v) :: r =>
      if JsString.eqb k key then (k, value) :: r
      else (k, v) :: setItem key value r
  end.

(** The state the handlers read and write: the component states, the
    persistent store and the console. *)
Record World : Type := mkWorld {
  quiz : QuizState;
  memos : json;
  savedWrongCards : json;
  loadedFiles : list LoadedFile;
  errorMsg : option jsstring;
  localStorage : Storage;
  console : list jsstring
}.

(** A handler: it ends normally or by an exception, and in both cases leaves
    the state its effects produced so far. *)
Definition Eff (A : Type) : Type := World -> completion A * World.

Definition ret {A} (a : A) : Eff A := fun w => (Normal a, w).

Definition throw {A} (e : JsError) : Eff A := fun w => (Throw e, w).

Definition lift {A} (c : completion A) : Eff A := fun w => (c, w).

Definition bindE {A B} (c : Eff A) (k : A -> Eff B) : Eff B :=
  fun w =>
    match c w with
    | (Normal a, w') => k a w'
    | (Throw e, w') => (Throw e, w')
    end.

Definition tryCatch {A} (c : Eff A) (handler : JsError -> Eff A) : Eff A :=
  fun w =>
    match c w with
    | (Normal a, w') => (Normal a, w')
    | (Throw e, w') => handler e w'
    end.

Definition modify (f : World -> World) : Eff unit := fun w => (Normal tt, f w).

Definition reads {A} (f : World -> A) : Eff A := fun w => (Normal (f w), w).

Declare Scope eff_scope.
Delimit Scope eff_scope with eff.
Notation "x <- c ;; k" := (bindE c (fun x => k))
  (at level 61, c at next level, right associativity) : eff_scope.
Notation "c ;; k" := (bindE c (fun _ => k))
  (at level 61, right associativity) : eff_scope.

Definition withQuiz (f : QuizState -> QuizState) (w : World) : World :=
  {| quiz := f (quiz w); memos := memos w;
     savedWrongCards := savedWrongCards w; loadedFiles := loadedFiles w;
     errorMsg := errorMsg w; localStorage := localStorage w; console := console w |}.

Definition withStorage (f : Storage -> Storage) (w : World) : World :=
  {| quiz := quiz w; memos := memos w;
     savedWrongCards := savedWrongCards w; loadedFiles := loadedFiles w;
     errorMsg := errorMsg w; localStorage := f (localStorage w); console := console w |}.

(** The state setters of the components. *)
Definition setCurrentIndex (f : nat -> nat) : Eff unit :=
  modify (withQuiz (fun q =>
    {| currentIndex := f (currentIndex q); input := input q;
       feedback := feedback q; stats := stats q; isFinished := isFinished q;
       sessionWrongCards := sessionWrongCards q |})).

Definition setInput (v : jsstring) : Eff unit :=
  modify (withQuiz (fun q =>
    {| currentIndex := currentIndex q; input := v;
       feedback := feedback q; stats := stats q; isFinished := isFinished q;
       sessionWrongCards := sessionWrongCards q |})).

Definition setFeedback (v : Feedback) : Eff unit :=
  modify (withQuiz (fun q =>
    {| currentIndex := currentIndex q; input := input q;
       feedback := v; stats := stats q; isFinished := isFinished q;
       sessionWrongCards := sessionWrongCards q |})).

Definition setStats (f : Stats -> Stats) : Eff unit :=
  modify (withQuiz (fun q =>
    {| currentIndex := currentIndex q; input := input q;
       feedback := feedback q; stats := f (stats q);
       isFinished := isFinished q;
       sessionWrongCards := sessionWrongCards q |})).

Definition setIsFinished (v : bool) : Eff unit :=
  modify (withQuiz (fun q =>
    {| currentIndex := currentIndex q; input := input q;
       feedback := feedback q; stats := stats q; isFinished := v;
       sessionWrongCards := sessionWrongCards q |})).

Definition setSessionWrongCards (f : list Card -> list Card) : Eff unit :=
  modify (withQuiz (fun q =>
    {| currentIndex := currentIndex q; input := input q;
       feedback := feedback q; stats := stats q; isFinished := isFinished q;
       sessionWrongCards := f (sessionWrongCards q) |})).

Definition setMemos (v : json) : Eff unit :=
  modify (fun w =>
    {| quiz := quiz w; memos := v;
       savedWrongCards := savedWrongCards w; loadedFiles := loadedFiles w;
       errorMsg := errorMsg w; localStorage := localStorage w; console := console w |}).

Definition setSavedWrongCards (v : json) : Eff unit :=
  modify (fun w =>
    {| quiz := quiz w; memos := memos w;
       savedWrongCards := v; loadedFiles := loadedFiles w;
       errorMsg := errorMsg w; localStorage := localStorage w; console := console w |}).

Definition setLoadedFiles (f : list LoadedFile -> list LoadedFile)
  : Eff unit :=
  modify (fun w =>
    {| quiz := quiz w; memos := memos w;
       savedWrongCards := savedWrongCards w;
       loadedFiles := f (loadedFiles w); errorMsg := errorMsg w;
       localStorage := localStorage w; console := console w |}).

Definition localStorage_getItem (key : jsstring) : Eff (option jsstring) :=
  reads (fun w => getItem key (localStorage w)).

Definition localStorage_setItem (key value : jsstring) : Eff unit :=
  modify (withStorage (setItem key value)).

Definition setErrorMsg (v : option jsstring) : Eff unit :=
  modify (fun w =>
    {| quiz := quiz w; memos := memos w;
       savedWrongCards := savedWrongCards w; loadedFiles := loadedFiles w;
       errorMsg := v; localStorage := localStorage w;
       console := console w |}).

Definition console_error (msg : jsstring) : Eff unit :=
  modify (fun w =>
    {| quiz := quiz w; memos := memos w;
       savedWrongCards := savedWrongCards w; loadedFiles := loadedFiles w;
       errorMsg := errorMsg w; localStorage := localStorage w; console := console w ++ [msg] |}).

(** The console output of a computation that ran inside a handler. *)
Definition console_warnAll (msgs : list jsstring) : Eff unit :=
  modify (fun w =>
    {| quiz := quiz w; memos := memos w;
       savedWrongCards := savedWrongCards w; loadedFiles := loadedFiles w;
       errorMsg := errorMsg w; localStorage := localStorage w;
       console := console w ++ msgs |}).

Definition errorName (e : JsError) : jsstring :=
  match e with
  | SyntaxError => js "SyntaxError"
  | TypeError => js "TypeError"
  end.

(** A card as the object that [JSON.stringify] receives. *)
Definition cardToJson (c : Card) : json :=
  JObj [ (js "id", JNum (id c));
         (js "lemma", JStr (lemma c));
         (js "gender", gender c);
         (js "full_form", JStr (full_form c));
         (js "translations_ko", JArr (translations_ko c));
         (js "prompt_ko", prompt_ko c);
         (js "accepted_answers_de", JArr (map JStr (accepted_answers_de c)));
         (js "level", level c);
         (js "topic", topic c);
         (js "language", language c) ].

(** The own enumerable properties that [{...v}] copies. *)
Definition indexed (xs : list json) : list (jsstring * json) :=
  map (fun p => (ofNat (fst p), snd p)) (combine (seq 0 (List.length xs)) xs).

Definition spread (v : json) : list (jsstring * json) :=
  match v with
  | JObj props => props
  | JArr items => indexed items
  | JStr s => indexed (map (fun c => JStr [c]) s)
  | _ => []
  end.

(** [list.find(c => c.id === card.id)] on the decoded list, reduced to
    whether an element was found: reading [id] of a [null] element throws,
    and a value that is not an array has no [find]. *)
Fixpoint findById (cardId : Z) (items : list json) : completion bool :=
  match items with
  | [] => Normal false
  | JNull :: _ => Throw TypeError
  | c :: r =>
      match get c (js "id") with
      | Some (JNum n) => if (n =? cardId)%Z then Normal true
                         else findById cardId r
      | _ => findById cardId r
      end
  end.

Definition initialQuizState : QuizState :=
  {| currentIndex := 0; input := []; feedback := Idle;
     stats := {| total := 0; correct := 0 |}; isFinished := false;
     sessionWrongCards := [] |}.

Definition initialWorld : World :=
  {| quiz := initialQuizState; memos := JObj []; savedWrongCards := JArr [];
     loadedFiles := []; errorMsg := None; localStorage := [];
     console := [] |}.

Section Handlers.

Context {rt : Runtime}.

Local Open Scope eff_scope.

(** [LearningView]: the effect that loads the memos on mount. *)
Definition loadMemos : Eff unit :=
  savedMemos <- localStorage_getItem STORAGE_KEY_MEMOS ;;
  match savedMemos with
  | Some payload =>
      if Nat.eqb (List.length payload) 0 then ret tt
      else tryCatch
             (parsed <- lift (JSON_parse payload) ;; setMemos parsed)
             (fun e => console_error (js "Failed to load memos "
                                        ++ errorName e))
  | None => ret tt
  end.

Definition handleMemoChange (cardId : Z) (text : jsstring) : Eff unit :=
  if Nat.ltb 30 (List.length text) then ret tt
  else
    current <- reads memos ;;
    let newMemos := JObj (setProp (ofZ cardId) (JStr text) (spread current)) in
    setMemos newMemos ;;
    localStorage_setItem STORAGE_KEY_MEMOS (JSON_stringify newMemos).

(** [QuizView]. *)
Definition saveWrongCard (card : Card) : Eff unit :=
  stored <- localStorage_getItem STORAGE_KEY_WRONG_CARDS ;;
  list <- match stored with
          | Some payload =>
              if Nat.eqb (List.length payload) 0 then ret (JArr [])
              else lift (JSON_parse payload)
          | None => ret (JArr [])
          end ;;
  match list with
  | JArr items =>
      found <- lift (findById (id card) items) ;;
      if negb found then
        localStorage_setItem STORAGE_KEY_WRONG_CARDS
          (JSON_stringify (JArr (items ++ [cardToJson card])))
      else ret tt
  | _ => throw TypeError
  end.

(** In a handler the component state is the one of the last render
    ([view]); the setters act on the state being built. *)
Definition handleNext (cards : list Card) (view : QuizState) : Eff unit :=
  setFeedback Idle ;;
  setInput [] ;;
  if Nat.leb (List.length cards) (currentIndex view + 1)
  then setIsFinished true
  else setCurrentIndex (fun prev => prev + 1).

Definition includes (xs : list jsstring) (x : jsstring) : bool :=
  existsb (JsString.eqb x) xs.

Definition handleSubmit (cards : list Card) (view : QuizState) : Eff unit :=
  if isFinished view then ret tt
  else match feedback view with
  | Correct | Incorrect => handleNext cards view
  | Idle =>
      if Nat.eqb (List.length (trim (input view))) 0 then ret tt
      else
        let normalizedInput := normalizeAnswer (input view) in
        match nth_error cards (currentIndex view) with
        | None => throw TypeError
        | Some currentCard =>
            let isCorrect :=
              includes (accepted_answers_de currentCard) normalizedInput in
            setStats (fun prev =>
              {| total := total prev + 1;
                 correct := if isCorrect then correct prev + 1
                            else correct prev |}) ;;
            setFeedback (if isCorrect then Correct else Incorrect) ;;
            if negb isCorrect then
              saveWrongCard currentCard ;;
              setSessionWrongCards (fun prev => prev ++ [currentCard])
            else ret tt
        end
  end.

(** The form's submit event: the handler of the current render runs. *)
Definition submit (cards : list Card) : Eff unit :=
  fun w => handleSubmit cards (quiz w) w.

(** [App]: the effect that loads the wrong-card list on mount. *)
Definition loadWrongCards : Eff unit :=
  saved <- localStorage_getItem STORAGE_KEY_WRONG_CARDS ;;
  match saved with
  | Some payload =>
      if Nat.eqb (List.length payload) 0 then ret tt
      else tryCatch
             (parsed <- lift (JSON_parse payload) ;; setSavedWrongCards parsed)
             (fun e => console_error (errorName e))
  | None => ret tt
  end.

Definition handleAddFile (newFile : LoadedFile) : Eff unit :=
  setLoadedFiles (fun prev => prev ++ [newFile]).

Definition handleRemoveFile (fileId : jsstring) : Eff unit :=
  setLoadedFiles
    (filter (fun f => negb (JsString.eqb (file_id f) fileId))).

Definition allCards (w : World) : list Card :=
  flat_map file_cards (loadedFiles w).

(** [processAndUpload], from the text the reader delivered: the file is
    added when ingestion returned at least one card, and the error is shown
    otherwise. *)
Definition processAndUpload (now : nat -> Z) (fileId name : jsstring)
  (timestamp : Z) (text : jsstring) : Eff unit :=
  setErrorMsg None ;;
  let r := parseJSONL now text in
  console_warnAll (acc_console (scanLines now text)) ;;
  if Nat.ltb 0 (List.length (cards r)) then
    handleAddFile {| file_id := fileId; file_name := name;
                     file_cards := cards r; file_timestamp := timestamp |}
  else
    setErrorMsg
      (Some (match error r with
             | Some e => if Nat.eqb (List.length e) 0
                         then js "파일을 읽을 수 없습니다." else e
             | None => js "파일을 읽을 수 없습니다."
             end)).

End Handlers.

(** ** Reference implementations of the runtime built-ins

    The theorems below hold for every [Runtime]; these implementations
    serve to run the program on concrete inputs.  [json_decode] follows the
    JSON grammar for texts whose numbers are integer literals (it rejects a
    number with a fraction or an exponent, which the model cannot
    represent); [json_encode] is [JSON.stringify] on such values;
    [ascii_toLowerCase] is [toLowerCase] on strings of ASCII code units. *)

Module Reference.

Definition isJsonSpace (c : char) : bool :=
  ((c =? 32) || (c =? 9) || (c =? 10) || (c =? 13))%N.

Fixpoint skipSpace (s : jsstring) : jsstring :=
  match s with
  | c :: r => if isJsonSpace c then skipSpace r else s
  | [] => []
  end.

Definition hexDigit (c : char) : option N :=
  if isDigit c then Some (c - 48)%N
  else if ((97 <=? c) && (c <=? 102))%N then Some (c - 87)%N
  else if ((65 <=? c) && (c <=? 70))%N then Some (c - 55)%N
  else None.

Definition hex4 (a b c d : char) : option char :=
  match hexDigit a, hexDigit b, hexDigit c, hexDigit d with
  | Some x, Some y, Some z, Some t => Some (((x * 16 + y) * 16 + z) * 16 + t)%N
  | _, _, _, _ => None
  end.

(** The character an escape letter stands for. *)
Definition unescape (e : char) : option char :=
  if (e =? 34)%N then Some 34%N            (* quote *)
  else if (e =? 92)%N then Some 92%N       (* backslash *)
  else if (e =? 47)%N then Some 47%N       (* slash *)
  else if (e =? 98)%N then Some 8%N        (* b: backspace *)
  else if (e =? 102)%N then Some 12%N      (* f: form feed *)
  else if (e =? 110)%N then Some 10%N      (* n: line feed *)
  else if (e =? 114)%N then Some 13%N      (* r: carriage return *)
  else if (e =? 116)%N then Some 9%N       (* t: tab *)
  else None.

Definition consFst (c : char) (r : option (jsstring * jsstring))
  : option (jsstring * jsstring) :=
  match r with
  | Some (s, rest) => Some (c :: s, rest)
  | None => None
  end.

(** The characters of a string literal, after its opening quote. *)
Fixpoint decodeString (s : jsstring) : option (jsstring * jsstring) :=
  match s with
  | [] => None
  | c :: r =>
      if (c =? DQUOTE)%N then Some ([], r)
      else if (c =? 92)%N then
        match r with
        | e :: r1 =>
            if (e =? 117)%N then
              match r1 with
              | h1 :: h2 :: h3 :: h4 :: r2 =>
                  match hex4 h1 h2 h3 h4 with
                  | Some u => consFst u (decodeString r2)
                  | None => None
                  end
              | _ => None
              end
            else match unescape e with
                 | Some u => consFst u (decodeString r1)
                 | None => None
                 end
        | [] => None
        end
      else if (c <? 32)%N then None
      else consFst c (decodeString r)
  end.

Fixpoint spanDigits (s : jsstring) : jsstring * jsstring :=
  match s with
  | c :: r => if isDigit c
              then let (ds, rest) := spanDigits r in (c :: ds, rest)
              else ([], s)
  | [] => ([], [])
  end.

Definition digitsValue (ds : jsstring) : Z :=
  fold_left (fun acc c => (acc * 10 + Z.of_N (c - 48))%Z) ds 0%Z.

(** An integer literal: [0] or a digit sequence without leading zero, not
    followed by a fraction or an exponent. *)
Definition decodeNat (s : jsstring) : option (Z * jsstring) :=
  match spanDigits s with
  | ([], _) => None
  | (d :: ds, rest) =>
      if (d =? 48)%N && negb (Nat.eqb (List.length ds) 0) then None
      else match rest with
           | c :: _ =>
               if ((c =? 46) || (c =? 101) || (c =? 69))%N then None
               else Some (digitsValue (d :: ds), rest)
           | [] => Some (digitsValue (d :: ds), rest)
           end
  end.

Fixpoint startsWith (prefix s : jsstring) : option jsstring :=
  match prefix, s with
  | [], _ => Some s
  | p :: ps, c :: r => if (p =? c)%N then startsWith ps r else None
  | _ :: _, [] => None
  end.

(** Recursive descent.  Every call uses one unit of [fuel] and at least
    every second call consumes a character, so twice the length of the text
    (plus two) is enough fuel. *)
Fixpoint decodeValue (fuel : nat) (s : jsstring) : option (json * jsstring) :=
  match fuel with
  | O => None
  | S fuel' =>
      match skipSpace s with
      | [] => None
      | c :: r =>
          if (c =? 123)%N then                       (* { *)
            match skipSpace r with
            | c' :: r' => if (c' =? 125)%N then Some (JObj [], r')
                          else decodeMembers fuel' [] (c' :: r')
            | [] => None
            end
          else if (c =? 91)%N then                   (* [ *)
            match skipSpace r with
            | c' :: r' => if (c' =? 93)%N then Some (JArr [], r')
                          else decodeElements fuel' [] (c' :: r')
            | [] => None
            end
          else if (c =? DQUOTE)%N then
            match decodeString r with
            | Some (str, rest) => Some (JStr str, rest)
            | None => None
            end
          else if (c =? 45)%N then                   (* - *)
            match decodeNat r with
            | Some (n, rest) => Some (JNum (- n), rest)
            | None => None
            end
          else if isDigit c then
            match decodeNat (c :: r) with
            | Some (n, rest) => Some (JNum n, rest)
            | None => None
            end
          else match startsWith (js "true") (c :: r) with
          | Some rest => Some (JBool true, rest)
          | None =>
          match startsWith (js "false") (c :: r) with
          | Some rest => Some (JBool false, rest)
          | None =>
          match startsWith (js "null") (c :: r) with
          | Some rest => Some (JNull, rest)
          | None => None
          end end end
      end
  end

with decodeElements (fuel : nat) (done : list json) (s : jsstring)
  : option (json * jsstring) :=
  match fuel with
  | O => None
  | S fuel' =>
      match decodeValue fuel' s with
      | Some (v, rest) =>
          match skipSpace rest with
          | c :: r =>
              if (c =? 44)%N then decodeElements fuel' (done ++ [v]) r
              else if (c =? 93)%N then Some (JArr (done ++ [v]), r)
              else None
          | [] => None
          end
      | None => None
      end
  end

with decodeMembers (fuel : nat) (done : list (jsstring * json))
  (s : jsstring) : option (json * jsstring) :=
  match fuel with
  | O => None
  | S fuel' =>
      match skipSpace s with
      | q :: r =>
          if (q =? DQUOTE)%N then
            match decodeString r with
            | Some (key, rest) =>
                match skipSpace rest with
                | colon :: r1 =>
                    if (colon =? 58)%N then
                      match decodeValue fuel' r1 with
                      | Some (v, rest1) =>
                          match skipSpace rest1 with
                          | c :: r2 =>
                              if (c =? 44)%N
                              then decodeMembers fuel' (setProp key v done) r2
                              else if (c =? 125)%N
                              then Some (JObj (setProp key v done), r2)
                              else None
                          | [] => None
                          end
                      | None => None
                      end
                    else None
                | [] => None
                end
            | None => None
            end
          else None
      | [] => None
      end
  end.

Definition json_decode (text : jsstring) : completion json :=
  match decodeValue (2 * List.length text + 2) text with
  | Some (v, rest) =>
      match skipSpace rest with
      | [] => Normal v
      | _ :: _ => Throw SyntaxError
      end
  | None => Throw SyntaxError
  end.

Definition hexChar (n : N) : char :=
  if (n <? 10)%N then (48 + n)%N else (87 + n)%N.

(** [\uXXXX] with lower-case hexadecimal digits. *)
Definition escapeU (c : char) : jsstring :=
  [92; 117; hexChar (c / 4096); hexChar ((c / 256) mod 16);
   hexChar ((c / 16) mod 16); hexChar (c mod 16)]%N.

Definition escapeChar (c : char) : jsstring :=
  if (c =? 34)%N then [92; 34]%N
  else if (c =? 92)%N then [92; 92]%N
  else if (c =? 8)%N then [92; 98]%N
  else if (c =? 12)%N then [92; 102]%N
  else if (c =? 10)%N then [92; 110]%N
  else if (c =? 13)%N then [92; 114]%N
  else if (c =? 9)%N then [92; 116]%N
  else if (c <? 32)%N then escapeU c
  else [c].

Definition isHighSurrogate (c : char) : bool :=
  ((55296 <=? c) && (c <=? 56319))%N.

Definition isLowSurrogate (c : char) : bool :=
  ((56320 <=? c) && (c <=? 57343))%N.

(** The body of a quoted string; a surrogate outside a pair is escaped. *)
Fixpoint quoteChars (s : jsstring) : jsstring :=
  match s with
  | [] => []
  | c :: r =>
      if isHighSurrogate c then
        match r with
        | d :: r' => if isLowSurrogate d then c :: d :: quoteChars r'
                     else escapeU c ++ quoteChars r
        | [] => escapeU c
        end
      else if isLowSurrogate c then escapeU c ++ quoteChars r
      else escapeChar c ++ quoteChars r
  end.

Definition quote (s : jsstring) : jsstring :=
  DQUOTE :: quoteChars s ++ [DQUOTE].

Fixpoint json_encode (v : json) : jsstring :=
  match v with
  | JNull => js "null"
  | JBool true => js "true"
  | JBool false => js "false"
  | JNum z => ofZ z
  | JStr s => quote s
  | JArr items =>
      let fix encodeItems (xs : list json) : jsstring :=
        match xs with
        | [] => []
        | [x] => json_encode x
        | x :: r => json_encode x ++ js "," ++ encodeItems r
        end in
      js "[" ++ encodeItems items ++ js "]"
  | JObj props =>
      let fix encodeProps (ps : list (jsstring * json)) : jsstring :=
        match ps with
        | [] => []
        | [(k, x)] => quote k ++ js ":" ++ json_encode x
        | (k, x) :: r =>
            quote k ++ js ":" ++ json_encode x ++ js "," ++ encodeProps r
        end in
      js "{" ++ encodeProps props ++ js "}"
  end.

Definition ascii_toLowerCase (s : jsstring) : jsstring :=
  map (fun c => if ((65 <=? c) && (c <=? 90))%N then (c + 32)%N else c) s.

Definition runtime : Runtime :=
  {| JSON_parse := json_decode;
     JSON_stringify := json_encode;
     toLowerCase := ascii_toLowerCase |}.

End Reference.

(** ** Vocabulary of the properties *)

(** What the loop body makes of one line, apart from the accumulated
    state: skipped as blank, counted as invalid, or decoded to a card. *)
Inductive LineOutcome : Type :=
| Blank
| Invalid
| Valid (card : Card).

Definition lineOutcome {rt : Runtime} (now : nat -> Z) (index : nat)
  (line : jsstring) : LineOutcome :=
  if Nat.eqb (List.length (trim line)) 0 then Blank
  else match JSON_parse line with
       | Throw _ => Invalid
       | Normal obj =>
           if validateCard obj then
             match makeCard now index obj with
             | Normal card => Valid card
             | Throw _ => Invalid
             end
           else Invalid
       end.

(** The invariant of the loop on the seen set: it holds exactly the
    signatures of the cards, without repetition. *)
Definition seenInvariant {rt : Runtime} (acc : Acc) : Prop :=
  acc_seen acc = map signature (acc_cards acc) /\ NoDup (acc_seen acc).

(** The fields the deduplication signature is built from. *)
Definition contentTuple (c : Card)
  : json * jsstring * json * list json * json * json :=
  (language c, lemma c, gender c, translations_ko c, level c, topic c).

Definition withId (n : Z) (c : Card) : Card :=
  {| id := n; lemma := lemma c; gender := gender c;
     full_form := full_form c; translations_ko := translations_ko c;
     prompt_ko := prompt_ko c; accepted_answers_de := accepted_answers_de c;
     level := level c; topic := topic c; language := language c |}.

(** A card with its id blanked: what two cards that differ at most in
    their id have in common. *)
Definition eraseId (c : Card) : Card := withId 0 c.

(** Two loop states that differ at most in the ids of their cards. *)
Definition sameUpToIds (a b : Acc) : Prop :=
  map eraseId (acc_cards a) = map eraseId (acc_cards b)
  /\ acc_seen a = acc_seen b
  /\ acc_invalidCount a = acc_invalidCount b
  /\ acc_console a = acc_console b.

(** How ingestion derives an accepted answer [a] from the entry [ans] of
    the record: the id suffix is stripped and the result lowercased (a falsy
    entry gives the lowercased empty string). *)
Definition cleanedAnswer {rt : Runtime} (ans : json) (a : jsstring) : Prop :=
  (truthy (Some ans) = false /\ a = toLowerCase [])
  \/ (exists raw, ans = JStr raw /\ a = toLowerCase (replaceIdSuffix raw)).

(** The user typed [text] into the answer field. *)
Definition typing (text : jsstring) (w : World) : World :=
  withQuiz (fun q =>
    {| currentIndex := currentIndex q; input := text;
       feedback := feedback q; stats := stats q; isFinished := isFinished q;
       sessionWrongCards := sessionWrongCards q |}) w.


(** Concrete inputs. *)
Module Samples.

Definition apfel_line : jsstring :=
  jsq "{'lemma':'Apfel','gender':'m','translations_ko':['사과'],'level':'A1','topic':'Food'}".

Definition apfel_obj : json :=
  JObj [ (js "lemma", JStr (js "Apfel"));
         (js "gender", JStr (js "m"));
         (js "translations_ko", JArr [JStr (js "사과")]);
         (js "level", JStr (js "A1"));
         (js "topic", JStr (js "Food")) ].

Definition clock (t : Z) : nat -> Z := fun _ => t.

(** The text made of the given lines. *)
Fixpoint unlines (ls : list jsstring) : jsstring :=
  match ls with
  | [] => []
  | [l] => l
  | l :: r => l ++ LF :: unlines r
  end.

Definition birne_line : jsstring :=
  jsq "{'id':7,'lemma':'Birne','gender':'f','translations_ko':['배']}".

Definition haus_line : jsstring :=
  jsq "{'id':8,'lemma':'Haus_12','translations_ko':['집'],'level':'A1'}".

Definition fern_line : jsstring :=
  jsq "{'id':9,'lemma':'fern_198','gender':null,'translations_ko':['먼']}".

(** A lemma with surrounding spaces, and a supplied answer with a doubled
    and a trailing space. *)
Definition padded_lemma_line : jsstring :=
  jsq "{'lemma':' Apfel ','translations_ko':['사과']}".

Definition spaced_answer_line : jsstring :=
  jsq "{'lemma':'Apfel','translations_ko':['사과'],'accepted_answers_de':['Der  Apfel ']}".

Definition unnormalized_answers : jsstring :=
  unlines [padded_lemma_line; spaced_answer_line].

(** The record of [apfel_line] again, with another [full_form]. *)
Definition apfel_again_line : jsstring :=
  jsq "{'lemma':'Apfel','gender':'m','full_form':'der Apfel','translations_ko':['사과'],'level':'A1','topic':'Food'}".

Definition apfel_again_card : Card :=
  {| id := 1001; lemma := js "Apfel"; gender := JStr (js "m");
     full_form := js "der Apfel"; translations_ko := [JStr (js "사과")];
     prompt_ko := JStr (js "사과"); accepted_answers_de := [js "apfel"];
     level := JStr (js "A1"); topic := JStr (js "Food");
     language := JStr (js "German") |}.

Definition apfel_card : Card :=
  {| id := 1000; lemma := js "Apfel"; gender := JStr (js "m");
     full_form := js "Apfel"; translations_ko := [JStr (js "사과")];
     prompt_ko := JStr (js "사과"); accepted_answers_de := [js "apfel"];
     level := JStr (js "A1"); topic := JStr (js "Food");
     language := JStr (js "German") |}.

Definition apfel_twice : jsstring := unlines [apfel_line; apfel_again_line].

Definition spaced_answer_card : Card :=
  {| id := 1001; lemma := js "Apfel"; gender := JNull;
     full_form := js "Apfel"; translations_ko := [JStr (js "사과")];
     prompt_ko := JStr (js "사과");
     accepted_answers_de := [js "der  apfel "];
     level := JStr (js "Unknown"); topic := JStr (js "General");
     language := JStr (js "German") |}.

(** Three blank lines: spaces, a tab, nothing. *)
Definition blank_lines : jsstring := unlines [js "  "; js "	"; js ""].

(** Memo texts of 30 and of 31 code units. *)
Definition memo30 : jsstring := js "123456789012345678901234567890".
Definition memo31 : jsstring := js "1234567890123456789012345678901".

(** A state in which card 1000 already has a memo. *)
Definition world_with_memo : World :=
  {| quiz := initialQuizState;
     memos := JObj [(js "1000", JStr (js "der Apfel"))];
     savedWrongCards := JArr []; loadedFiles := []; errorMsg := None;
     localStorage := [(STORAGE_KEY_MEMOS, jsq "{'1000':'der Apfel'}")];
     console := [] |}.

(** A record whose [level] is the empty string, and the same record
    without [level]. *)
Definition empty_level_props : list (jsstring * json) :=
  [ (js "lemma", JStr (js "Apfel"));
    (js "level", JStr []);
    (js "translations_ko", JArr [JStr (js "사과")]) ].

Definition no_level_props : list (jsstring * json) :=
  [ (js "lemma", JStr (js "Apfel"));
    (js "translations_ko", JArr [JStr (js "사과")]) ].

(** A lemma written with two spaces between its words. *)
Definition double_space_line : jsstring :=
  jsq "{'lemma':'guten  Tag','translations_ko':['좋은 하루']}".

Definition guten_tag_card : Card :=
  {| id := 1000; lemma := js "guten  Tag"; gender := JNull;
     full_form := js "guten  Tag";
     translations_ko := [JStr (js "좋은 하루")];
     prompt_ko := JStr (js "좋은 하루");
     accepted_answers_de := [js "guten  tag"];
     level := JStr (js "Unknown"); topic := JStr (js "General");
     language := JStr (js "German") |}.

(** A state whose stored wrong-card list is not JSON. *)
Definition world_corrupt_wrong_cards : World :=
  {| quiz := initialQuizState; memos := JObj [];
     savedWrongCards := JArr []; loadedFiles := []; errorMsg := None;
     localStorage := [(STORAGE_KEY_WRONG_CARDS, js "{oops")];
     console := [] |}.

(** A state whose stored memo map is not JSON. *)
Definition world_corrupt_memos : World :=
  {| quiz := initialQuizState; memos := JObj [];
     savedWrongCards := JArr []; loadedFiles := []; errorMsg := None;
     localStorage := [(STORAGE_KEY_MEMOS, js "{oops")];
     console := [] |}.


(** Six malformed lines and four records. *)
Definition six_bad_four_good : jsstring :=
  unlines [js "x"; apfel_line; js "{"; birne_line; js "[1,2"; haus_line;
           jsq "{'lemma':1}"; fern_line; js "oops"; jsq "{'lemma':'a'}"].

(** Records that all carry a numeric id. *)
Definition all_with_ids : jsstring :=
  unlines [birne_line; haus_line; fern_line; birne_line].

(** One malformed line followed by the same record three times. *)
Definition one_bad_three_equal : jsstring :=
  unlines [js "x"; apfel_line; apfel_line; apfel_line].

End Samples.

(** ** Further vocabulary: the lines of a text, by outcome *)

(** The outcomes of the lines, the first of them having the given index. *)
Fixpoint outcomesFrom {rt : Runtime} (now : nat -> Z) (index : nat)
  (lines : list jsstring) : list LineOutcome :=
  match lines with
  | [] => []
  | l :: r => lineOutcome now index l :: outcomesFrom now (S index) r
  end.

Definition isBlankOutcome (o : LineOutcome) : bool :=
  match o with Blank => true | _ => false end.

Definition isInvalidOutcome (o : LineOutcome) : bool :=
  match o with Invalid => true | _ => false end.

Definition isValidOutcome (o : LineOutcome) : bool :=
  match o with Valid _ => true | _ => false end.

(** A string in which every white-space unit is a space that does not follow
    another white-space unit ([afterSpace] tells that the previous unit was
    one). *)
Fixpoint noWhiteSpaceRuns (afterSpace : bool) (s : jsstring) : bool :=
  match s with
  | [] => true
  | c :: r =>
      if isWhiteSpace c
      then (c =? SPACE)%N && negb afterSpace && noWhiteSpaceRuns true r
      else noWhiteSpaceRuns false r
  end.

(** A JSON value that is a string. *)
Definition isString (v : json) : bool :=
  match v with JStr _ => true | _ => false end.

(** A value on which [cleanText] does not throw. *)
Definition stringOrFalsy (v : json) : bool :=
  negb (truthy (Some v)) || isString v.

(** The two places of the card literal that can throw are harmless: the
    [full_form] of the record and each supplied accepted answer is falsy or
    a string. *)
Definition cardFieldsUsable (obj : json) : bool :=
  match get obj (js "full_form") with
  | Some v => stringOrFalsy v
  | None => true
  end
  && match get obj (js "accepted_answers_de") with
     | Some (JArr answers) => forallb stringOrFalsy answers
     | _ => true
     end.


(** ** The review store: clearing *)

(** [localStorage.removeItem(key)]. *)
Fixpoint removeItem (key : jsstring) (st : Storage) : Storage :=
  match st with
  | [] => []
  | (k, v) :: r =>
      if JsString.eqb k key then removeItem key r
      else (k, v) :: removeItem key r
  end.

(** [handleClearWrongCards]; [confirmed] is the answer the user gives to
    [window.confirm]. *)
Definition handleClearWrongCards (confirmed : bool) : Eff unit :=
  if confirmed then
    bindE (modify (withStorage (removeItem STORAGE_KEY_WRONG_CARDS)))
          (fun _ => setSavedWrongCards (JArr []))
  else ret tt.

(** The list [saveWrongCard] works on: the decoded stored payload, or the
    empty list when nothing (or the empty string) is stored. *)
Definition holdsWrongCards {rt : Runtime} (w : World) (items : list json)
  : Prop :=
  match getItem STORAGE_KEY_WRONG_CARDS (localStorage w) with
  | None => items = []
  | Some payload =>
      if Nat.eqb (List.length payload) 0 then items = []
      else JSON_parse payload = Normal (JArr items)
  end.

(** ** Selecting cards: the study view and the start of a quiz *)

(** [c.language || 'German']. *)
Definition cardLanguage (c : Card) : json :=
  orDefault (Some (language c)) (JStr (js "German")).

(** [v === s] for a string [s]: only an equal string is strictly equal. *)
Definition strictEqualsString (v : json) (s : jsstring) : bool :=
  match v with
  | JStr t => JsString.eqb t s
  | _ => false
  end.

(** [allCards.filter(c => (c.language || 'German') === selectedLanguage)];
    the selected language is a string, as the state is declared and
    initialised. *)
Definition languageCards (allCards : list Card) (selectedLanguage : jsstring)
  : list Card :=
  filter (fun c => strictEqualsString (cardLanguage c) selectedLanguage)
         allCards.

(** [cards.filter(c => c.level === level)]. *)
Definition levelCards (cards : list Card) (lvl : jsstring) : list Card :=
  filter (fun c => strictEqualsString (level c) lvl) cards.

Module LearningView.

Inductive Mode : Type := SELECT | STUDY.

(** The state of the study view, and the messages shown by [alert]. *)
Record State : Type := mkState {
  mode : Mode;
  targetLevel : jsstring;
  isShuffle : bool;
  studyCards : list Card;
  currentIndex : nat;
  alerts : list jsstring
}.

Definition initialState : State :=
  {| mode := SELECT; targetLevel := js "A1"; isShuffle := false;
     studyCards := []; currentIndex := 0; alerts := [] |}.

Definition setMode (m : Mode) (st : State) : State :=
  {| mode := m; targetLevel := targetLevel st; isShuffle := isShuffle st;
     studyCards := studyCards st; currentIndex := currentIndex st;
     alerts := alerts st |}.

Definition setTargetLevel (lvl : jsstring) (st : State) : State :=
  {| mode := mode st; targetLevel := lvl; isShuffle := isShuffle st;
     studyCards := studyCards st; currentIndex := currentIndex st;
     alerts := alerts st |}.

Definition setIsShuffle (b : bool) (st : State) : State :=
  {| mode := mode st; targetLevel := targetLevel st; isShuffle := b;
     studyCards := studyCards st; currentIndex := currentIndex st;
     alerts := alerts st |}.

Definition setStudyCards (cs : list Card) (st : State) : State :=
  {| mode := mode st; targetLevel := targetLevel st;
     isShuffle := isShuffle st; studyCards := cs;
     currentIndex := currentIndex st; alerts := alerts st |}.

Definition setCurrentIndex (f : nat -> nat) (st : State) : State :=
  {| mode := mode st; targetLevel := targetLevel st;
     isShuffle := isShuffle st; studyCards := studyCards st;
     currentIndex := f (currentIndex st); alerts := alerts st |}.

Definition alert (msg : jsstring) (st : State) : State :=
  {| mode := mode st; targetLevel := targetLevel st;
     isShuffle := isShuffle st; studyCards := studyCards st;
     currentIndex := currentIndex st; alerts := alerts st ++ [msg] |}.

(** [startLearning].  [sortRandom] is what the engine makes of
    [[...filtered].sort(() => Math.random() - 0.5)]: some rearrangement of
    the list. *)
Definition startLearning (sortRandom : list Card -> list Card)
  (allCards : list Card) (selectedLanguage : jsstring) (st : State)
  : State :=
  let filtered :=
    if negb (JsString.eqb (targetLevel st) (js "ALL"))
    then levelCards (languageCards allCards selectedLanguage)
                    (targetLevel st)
    else languageCards allCards selectedLanguage in
  if Nat.eqb (List.length filtered) 0
  then alert (js "해당 난이도의 단어가 없습니다.") st
  else
    let filtered := if isShuffle st then sortRandom filtered else filtered in
    setMode STUDY (setCurrentIndex (fun _ => 0) (setStudyCards filtered st)).

Inductive Key : Type :=
| ArrowRight | Space | Enter | ArrowLeft | Escape | OtherKey.

(** The [keydown] listener, registered while the mode is STUDY;
    [inputFocused] tells that the focused element is the memo field. *)
Definition handleKeyDown (inputFocused : bool) (key : Key) (st : State)
  : State :=
  match mode st with
  | SELECT => st
  | STUDY =>
      if inputFocused then st
      else match key with
           | ArrowRight | Space | Enter =>
               if Nat.ltb (currentIndex st) (List.length (studyCards st) - 1)
               then setCurrentIndex (fun p => p + 1) st else st
           | ArrowLeft =>
               if Nat.ltb 0 (currentIndex st)
               then setCurrentIndex (fun p => p - 1) st else st
           | Escape => setMode SELECT st
           | OtherKey => st
           end
  end.

(** The two navigation buttons of the study mode. *)
Definition clickPrevious (st : State) : State :=
  if Nat.ltb 0 (currentIndex st)
  then setCurrentIndex (fun p => p - 1) st else st.

Definition clickNext (st : State) : State :=
  if Nat.ltb (currentIndex st) (List.length (studyCards st) - 1)
  then setCurrentIndex (fun p => p + 1) st else st.

(** What the user can do in the view.  Each event is handled on the state
    of the last render: between two events React renders again and the
    effect registers the listener anew. *)
Inductive Event : Type :=
| SelectLevel (lvl : jsstring)
| ToggleShuffle
| StartLearning
| KeyDown (inputFocused : bool) (key : Key)
| ClickPrevious
| ClickNext
| ClickBack.

Definition step (sortRandom : list Card -> list Card)
  (allCards : list Card) (selectedLanguage : jsstring) (st : State)
  (ev : Event) : State :=
  match ev with
  | SelectLevel lvl => setTargetLevel lvl st
  | ToggleShuffle => setIsShuffle (negb (isShuffle st)) st
  | StartLearning => startLearning sortRandom allCards selectedLanguage st
  | KeyDown inputFocused key => handleKeyDown inputFocused key st
  | ClickPrevious => clickPrevious st
  | ClickNext => clickNext st
  | ClickBack => setMode SELECT st
  end.

Definition run (sortRandom : list Card -> list Card)
  (allCards : list Card) (selectedLanguage : jsstring)
  (evs : list Event) (st : State) : State :=
  fold_left (step sortRandom allCards selectedLanguage) evs st.

End LearningView.

Module App.

Inductive AppState : Type := HOME | QUIZ | RESULT | DATA_MANAGER | LEARNING.

(** The part of the state of [App] that starting a quiz reads and writes,
    and the messages shown by [alert]. *)
Record State : Type := mkState {
  appState : AppState;
  quizCards : list Card;
  isReviewMode : bool;
  selectedLanguage : jsstring;
  alerts : list jsstring
}.

Definition initialState : State :=
  {| appState := HOME; quizCards := []; isReviewMode := false;
     selectedLanguage := js "German"; alerts := [] |}.

(** [handleStartQuiz]; [level] is [None] for [null].  [sortRandom] is the
    engine's result for the sort with the random comparator. *)
Definition handleStartQuiz (sortRandom : list Card -> list Card)
  (allCards : list Card) (level : option jsstring) (st : State) : State :=
  let filtered := languageCards allCards (selectedLanguage st) in
  let filtered :=
    match level with
    | Some lvl => if Nat.eqb (List.length lvl) 0 then filtered
                  else levelCards filtered lvl
    | None => filtered
    end in
  if Nat.eqb (List.length filtered) 0 then
    {| appState := appState st; quizCards := quizCards st;
       isReviewMode := isReviewMode st;
       selectedLanguage := selectedLanguage st;
       alerts := alerts st ++ [js "선택한 조건에 맞는 카드가 없습니다."] |}
  else
    let shuffled := sortRandom filtered in
    let selected := firstn 20 shuffled in
    {| appState := QUIZ; quizCards := selected; isReviewMode := false;
       selectedLanguage := selectedLanguage st; alerts := alerts st |}.

(** The start button of the configuration view:
    [onStart(selectedLevel === 'ALL' ? null : selectedLevel)]. *)
Definition clickStart (sortRandom : list Card -> list Card)
  (allCards : list Card) (selectedLevel : jsstring) (st : State) : State :=
  handleStartQuiz sortRandom allCards
    (if JsString.eqb selectedLevel (js "ALL") then None
     else Some selectedLevel) st.

Definition handleRetrySession (wrongCards : list Card) (st : State) : State :=
  {| appState := appState st; quizCards := wrongCards; isReviewMode := true;
     selectedLanguage := selectedLanguage st; alerts := alerts st |}.

Definition goHome (st : State) : State :=
  {| appState := HOME; quizCards := quizCards st; isReviewMode := false;
     selectedLanguage := selectedLanguage st; alerts := alerts st |}.

End App.

(** ** The languages and levels offered for selection *)

(** SameValueZero, the equality of [Set]: primitives are compared by value;
    an array or an object is only equal to itself, and the values of
    different cards are different objects, so no two entries of that kind
    are merged. *)
Definition sameValueZero (a b : json) : bool :=
  match a, b with
  | JNull, JNull => true
  | JBool x, JBool y => Bool.eqb x y
  | JNum x, JNum y => (x =? y)%Z
  | JStr x, JStr y => JsString.eqb x y
  | _, _ => false
  end.

(** [set.add(x)], and [Array.from(new Set(xs))]: the values in the order of
    their first occurrence. *)
Definition setAdd (s : list json) (x : json) : list json :=
  if existsb (sameValueZero x) s then s else s ++ [x].

Definition arrayFromSet (xs : list json) : list json :=
  fold_left setAdd xs [].

(** [xs.join(sep)]. *)
Fixpoint join (sep : jsstring) (xs : list jsstring) : jsstring :=
  match xs with
  | [] => []
  | [x] => x
  | x :: r => x ++ sep ++ join sep r
  end.

(** ToString of a decoded value, by which the default sort compares. *)
Fixpoint toStringJS (v : json) : jsstring :=
  match v with
  | JNull => js "null"
  | JBool true => js "true"
  | JBool false => js "false"
  | JNum z => ofZ z
  | JStr s => s
  | JArr items =>
      join (js ",")
        (map (fun x => match x with
                       | JNull => []
                       | _ => toStringJS x
                       end) items)
  | JObj _ => js "[object Object]"
  end.

(** [a < b] on strings: the order of the code units. *)
Fixpoint ltString (a b : jsstring) : bool :=
  match a, b with
  | _, [] => false
  | [], _ :: _ => true
  | x :: a', y :: b' =>
      if (x <? y)%N then true
      else if (y <? x)%N then false
      else ltString a' b'
  end.

(** [xs.sort()] with the default comparator: the stable rearrangement in
    ascending order of the string forms.  Each value is inserted behind
    the values that are not greater. *)
Fixpoint insertSorted (x : json) (sorted : list json) : list json :=
  match sorted with
  | [] => [x]
  | y :: r =>
      if ltString (toStringJS x) (toStringJS y) then x :: y :: r
      else y :: insertSorted x r
  end.

Definition sortDefault (xs : list json) : list json :=
  fold_left (fun sorted x => insertSorted x sorted) xs [].

(** [availableLanguages] of [App]. *)
Definition availableLanguages (allCards : list Card) : list json :=
  sortDefault (arrayFromSet (map cardLanguage allCards)).

(** [levels] of the configuration view and of the study view. *)
Definition levels (allCards : list Card) (selectedLanguage : jsstring)
  : list json :=
  JStr (js "ALL")
    :: sortDefault
         (arrayFromSet (map level (languageCards allCards selectedLanguage))).

(** [a] does not come after [b] in the order of the default sort. *)
Definition notAfter (a b : json) : Prop :=
  ltString (toStringJS b) (toStringJS a) = false.

(** The cards a study session starts from, and the cards a quiz is drawn
    from. *)
Definition studyPool (allCards : list Card) (selectedLanguage : jsstring)
  (targetLevel : jsstring) : list Card :=
  if JsString.eqb targetLevel (js "ALL")
  then languageCards allCards selectedLanguage
  else levelCards (languageCards allCards selectedLanguage) targetLevel.

Definition quizPool (allCards : list Card) (selectedLanguage : jsstring)
  (level : option jsstring) : list Card :=
  match level with
  | Some lvl => if Nat.eqb (List.length lvl) 0
                then languageCards allCards selectedLanguage
                else levelCards (languageCards allCards selectedLanguage) lvl
  | None => languageCards allCards selectedLanguage
  end.

(** In study mode the current index points into the study cards, which are
    cards of the selected language. *)
Definition studyInvariant (allCards : list Card) (selectedLanguage : jsstring)
  (st : LearningView.State) : Prop :=
  Forall (fun c => In c (languageCards allCards selectedLanguage))
         (LearningView.studyCards st)
  /\ (LearningView.mode st = LearningView.STUDY ->
      LearningView.currentIndex st
      < List.length (LearningView.studyCards st)).

(** ** A quiz session as a sequence of form events *)

(** The events of the answer form: typing into the field (which is
    read-only while feedback is shown) and submitting the form. *)
Inductive QuizEvent : Type :=
| TypeInput (text : jsstring)
| SubmitForm.

Definition quizStep {rt : Runtime} (cards : list Card) (w : World)
  (ev : QuizEvent) : World :=
  match ev with
  | TypeInput text =>
      match feedback (quiz w) with
      | Idle => snd (setInput text w)
      | _ => w
      end
  | SubmitForm => snd (submit cards w)
  end.

Definition quizRun {rt : Runtime} (cards : list Card)
  (evs : list QuizEvent) (w : World) : World :=
  fold_left (quizStep cards) evs w.

(** What holds of the quiz state throughout a session. *)
Definition quizInvariant (cards : list Card) (q : QuizState) : Prop :=
  currentIndex q < List.length cards
  /\ correct (stats q) <= total (stats q)
  /\ total (stats q)
     = currentIndex q
       + (if isFinished q then 1
          else match feedback q with Idle => 0 | _ => 1 end)
  /\ List.length (sessionWrongCards q) + correct (stats q) <= total (stats q)
  /\ Forall (fun c => In c cards) (sessionWrongCards q)
  /\ (isFinished q = true -> S (currentIndex q) = List.length cards).

(** ** The order of the properties of an object *)

(** The name [a] may come directly before the name [b] in the enumeration
    of an object: array indices ascend, and no array index follows another
    name. *)
Definition keyBefore (a b : jsstring) : Prop :=
  match arrayIndex a, arrayIndex b with
  | Some m, Some n => (m < n)%N
  | Some _, None => True
  | None, None => True
  | None, Some _ => False
  end.

(** A property list as an object of the engine has it: every name once,
    in the order of enumeration. *)
Definition enumerationOrder (props : list (jsstring * json)) : Prop :=
  NoDup (map fst props) /\ Sorted keyBefore (map fst props).

(** ** Removing files *)

(** [kept] is [files] without the files whose id is [fileId], the other
    files in their order. *)
Inductive withoutFile (fileId : jsstring)
  : list LoadedFile -> list LoadedFile -> Prop :=
| withoutFile_nil : withoutFile fileId [] []
| withoutFile_drop f files kept :
    file_id f = fileId -> withoutFile fileId files kept ->
    withoutFile fileId (f :: files) kept
| withoutFile_keep f files kept :
    file_id f <> fileId -> withoutFile fileId files kept ->
    withoutFile fileId (f :: files) (f :: kept).

(** ** Vocabulary for the reference encoder *)

(** The two local functions of [Reference.json_encode], by name. *)
Fixpoint encodeItems (xs : list json) : jsstring :=
  match xs with
  | [] => []
  | [x] => Reference.json_encode x
  | x :: r => Reference.json_encode x ++ js "," ++ encodeItems r
  end.

Fixpoint encodeProps (ps : list (jsstring * json)) : jsstring :=
  match ps with
  | [] => []
  | [(k, x)] => Reference.quote k ++ js ":" ++ Reference.json_encode x
  | (k, x) :: r =>
      Reference.quote k ++ js ":" ++ Reference.json_encode x ++ js ","
        ++ encodeProps r
  end.

(** What follows an element that is not the last. *)
Definition itemsTail (xs : list json) : jsstring :=
  match xs with
  | [] => []
  | _ :: _ => js "," ++ encodeItems xs
  end.

Definition propsTail (ps : list (jsstring * json)) : jsstring :=
  match ps with
  | [] => []
  | _ :: _ => js "," ++ encodeProps ps
  end.

(** The kind of a value, and the kind its first character announces. *)
Definition kind (v : json) : N :=
  match v with
  | JNull => 0
  | JBool _ => 1
  | JNum _ => 2
  | JStr _ => 3
  | JArr _ => 4
  | JObj _ => 5
  end.

Definition kindOfChar (c : char) : N :=
  if (c =? 110)%N then 0
  else if ((c =? 116) || (c =? 102))%N then 1
  else if (c =? 45)%N || isDigit c then 2
  else if (c =? 34)%N then 3
  else if (c =? 91)%N then 4
  else if (c =? 123)%N then 5
  else 6.

(** A text that cannot continue a number: empty, or not starting with a
    digit. *)
Definition delimited (r : jsstring) : Prop :=
  match r with
  | [] => True
  | c :: _ => isDigit c = false
  end.

Fixpoint jsize (v : json) : nat :=
  match v with
  | JArr items => S (list_sum (map jsize items))
  | JObj props => S (list_sum (map (fun p => jsize (snd p)) props))
  | _ => 1
  end.

(** More concrete inputs. *)
Module MoreSamples.

Definition apfel_again_obj : json :=
  JObj [ (js "lemma", JStr (js "Apfel"));
         (js "gender", JStr (js "m"));
         (js "full_form", JStr (js "der Apfel"));
         (js "translations_ko", JArr [JStr (js "사과")]);
         (js "level", JStr (js "A1"));
         (js "topic", JStr (js "Food")) ].

(** A record whose [full_form] is a number. *)
Definition numeric_full_form_line : jsstring :=
  jsq "{'lemma':'Apfel','translations_ko':['사과'],'full_form':5}".

Definition numeric_full_form_obj : json :=
  JObj [ (js "lemma", JStr (js "Apfel"));
         (js "translations_ko", JArr [JStr (js "사과")]);
         (js "full_form", JNum 5) ].

(** A state whose store holds the card Birne (id 7) as its wrong-card
    list, and a memo for card 1000. *)
Definition birne_card : Card :=
  {| id := 7; lemma := js "Birne"; gender := JStr (js "f");
     full_form := js "Birne"; translations_ko := [JStr (js "배")];
     prompt_ko := JStr (js "배"); accepted_answers_de := [js "birne"];
     level := JStr (js "Unknown"); topic := JStr (js "General");
     language := JStr (js "German") |}.

Definition world_with_wrong_card : World :=
  {| quiz := initialQuizState;
     memos := JObj [(js "1000", JStr (js "der Apfel"))];
     savedWrongCards := JArr []; loadedFiles := []; errorMsg := None;
     localStorage :=
       [ (STORAGE_KEY_MEMOS, jsq "{'1000':'der Apfel'}");
         (STORAGE_KEY_WRONG_CARDS,
          Reference.json_encode (JArr [cardToJson birne_card])) ];
     console := [] |}.

(** The wrong-card entry of the store holds an object, not a list. *)
Definition world_with_object_store : World :=
  {| quiz := initialQuizState; memos := JObj [];
     savedWrongCards := JArr []; loadedFiles := []; errorMsg := None;
     localStorage := [(STORAGE_KEY_WRONG_CARDS, jsq "{}")];
     console := [] |}.

(** The card of [Samples.haus_line], whose lemma carries an id suffix. *)
Definition haus_card : Card :=
  {| id := 8; lemma := js "Haus"; gender := JNull;
     full_form := js "Haus"; translations_ko := [JStr (js "집")];
     prompt_ko := JStr (js "집"); accepted_answers_de := [js "haus"];
     level := JStr (js "A1"); topic := JStr (js "General");
     language := JStr (js "German") |}.

(** A memo for card 7. *)
Definition birne_memo : jsstring := js "die Birne".

(** A library of three cards, two of them German. *)
Definition constitution_card : Card :=
  {| id := 1; lemma := js "constitution"; gender := JNull;
     full_form := js "constitution"; translations_ko := [JStr (js "헌법")];
     prompt_ko := JStr (js "헌법");
     accepted_answers_de := [js "constitution"];
     level := JStr (js "B2"); topic := JStr (js "Politics");
     language := JStr (js "English") |}.

Definition three_cards : list Card :=
  [Samples.apfel_card; constitution_card; birne_card].

(** A file that holds the three cards, under the given id. *)
Definition named_file (fileId : jsstring) : LoadedFile :=
  {| file_id := fileId; file_name := js "words.jsonl";
     file_cards := three_cards; file_timestamp := 1000 |}.

Definition sample_file : LoadedFile :=
  {| file_id := js "sample-id"; file_name := js "Sample_Multi_Lang.jsonl";
     file_cards := three_cards; file_timestamp := 1000 |}.

End MoreSamples.

(** * Properties *)

(** ** Strings *)

Lemma jsstring_eqb_eq (a b : jsstring) : JsString.eqb a b = true <-> a = b.
Proof.
  unfold JsString.eqb. destruct (list_eq_dec N.eq_dec a b); split; congruence.
Qed.

Lemma jsstring_eqb_refl (a : jsstring) : JsString.eqb a a = true.
Proof. apply jsstring_eqb_eq. reflexivity. Qed.

Lemma jsstring_eqb_neq (a b : jsstring) : JsString.eqb a b = false <-> a <> b.
Proof.
  unfold JsString.eqb. destruct (list_eq_dec N.eq_dec a b); split; congruence.
Qed.

Example js_hangul : js "사과" = [49324%N; 44284%N].
Proof. reflexivity. Qed.

Example trim_ex : trim (js "  a b 	") = js "a b".
Proof. reflexivity. Qed.

Example split_ex : split LF (js "") = [[]] /\ split LF (js "a

b") = [js "a"; []; js "b"].
Proof. split; reflexivity. Qed.

Example replaceIdSuffix_ex :
  replaceIdSuffix (js "fern_198") = js "fern"
  /\ replaceIdSuffix (js "a_1_2") = js "a_1"
  /\ replaceIdSuffix (js "a_") = js "a_"
  /\ replaceIdSuffix (js "a_1b") = js "a_1b".
Proof. repeat split. Qed.

Example ofZ_ex : ofZ 1204 = js "1204" /\ ofZ (-7) = js "-7" /\ ofNat 0 = js "0".
Proof. repeat split. Qed.

Example json_decode_apfel :
  Reference.json_decode Samples.apfel_line = Normal Samples.apfel_obj
  /\ Reference.json_encode Samples.apfel_obj = Samples.apfel_line
  /\ Reference.json_decode (js "x") = Throw SyntaxError
  /\ Reference.json_decode (jsq " [1, -20, true, null, {'a': 'b\u0041'}] ")
     = Normal (JArr [JNum 1; JNum (-20); JBool true; JNull;
                     JObj [(js "a", JStr (js "bA"))]]).
Proof. vm_compute. repeat split. Qed.

(** ** The loop of [parseJSONL] *)

Section IngestionFacts.

Context {rt : Runtime}.
Variable now : nat -> Z.

(** The loop body, by the outcome of the line. *)
Lemma processLine_blank acc index line :
  lineOutcome now index line = Blank ->
  processLine now acc index line = acc.
Proof.
  unfold lineOutcome, processLine.
  destruct (Nat.eqb (List.length (trim line)) 0); [reflexivity|].
  destruct (JSON_parse line) as [obj|e]; [|discriminate].
  destruct (validateCard obj); [|discriminate].
  destruct (makeCard now index obj); discriminate.
Qed.

Lemma processLine_invalid acc index line :
  lineOutcome now index line = Invalid ->
  exists msg, processLine now acc index line = incrInvalid (warn msg acc).
Proof.
  unfold lineOutcome, processLine, tryLine.
  destruct (Nat.eqb (List.length (trim line)) 0); [discriminate|].
  destruct (JSON_parse line) as [obj|e]; simpl; [|eauto].
  destruct (validateCard obj); [|eauto].
  destruct (makeCard now index obj); simpl; [discriminate|eauto].
Qed.

Lemma processLine_valid acc index line card :
  lineOutcome now index line = Valid card ->
  processLine now acc index line =
    if has (acc_seen acc) (signature card) then acc
    else {| acc_cards := acc_cards acc ++ [card];
            acc_seen := acc_seen acc ++ [signature card];
            acc_invalidCount := acc_invalidCount acc;
            acc_console := acc_console acc |}.
Proof.
  unfold lineOutcome, processLine, tryLine.
  destruct (Nat.eqb (List.length (trim line)) 0); [discriminate|].
  destruct (JSON_parse line) as [obj|e]; simpl; [|discriminate].
  destruct (validateCard obj); [|discriminate].
  destruct (makeCard now index obj) as [c|e]; simpl; [|discriminate].
  intros H. injection H as ->.
  destruct (has (acc_seen acc) (signature card)); reflexivity.
Qed.

Lemma has_In seen sig : has seen sig = true <-> In sig seen.
Proof.
  unfold has. rewrite existsb_exists. split.
  - intros [x [Hin Heq]]. apply jsstring_eqb_eq in Heq. now subst.
  - intros Hin. exists sig. split; [assumption|apply jsstring_eqb_refl].
Qed.

Lemma forEach_app {St A} (f : St -> nat -> A -> St) xs ys index s :
  forEach f index (xs ++ ys) s
  = forEach f (index + List.length xs) ys (forEach f index xs s).
Proof.
  revert index s. induction xs as [|x xs IH]; intros index s; simpl.
  - now rewrite Nat.add_0_r.
  - rewrite IH. f_equal. lia.
Qed.

(** Cards are only ever appended. *)
Lemma processLine_cards_grow acc index line :
  exists rest,
    acc_cards (processLine now acc index line) = acc_cards acc ++ rest.
Proof.
  destruct (lineOutcome now index line) as [| |card] eqn:Hout.
  - rewrite (processLine_blank acc _ _ Hout). exists []. now rewrite app_nil_r.
  - destruct (processLine_invalid acc _ _ Hout) as [msg ->].
    exists []. simpl. now rewrite app_nil_r.
  - rewrite (processLine_valid acc _ _ _ Hout).
    destruct (has (acc_seen acc) (signature card)).
    + exists []. now rewrite app_nil_r.
    + exists [card]. reflexivity.
Qed.

Lemma forEach_cards_grow lines index acc :
  exists rest,
    acc_cards (forEach (processLine now) index lines acc)
    = acc_cards acc ++ rest.
Proof.
  revert index acc. induction lines as [|l ls IH]; intros index acc; simpl.
  - exists []. now rewrite app_nil_r.
  - destruct (IH (S index) (processLine now acc index l)) as [r1 ->].
    destruct (processLine_cards_grow acc index l) as [r2 ->].
    exists (r2 ++ r1). now rewrite app_assoc.
Qed.

(** Every processed line adds at most one to the cards or to the counter. *)
Lemma processLine_count acc index line :
  List.length (acc_cards (processLine now acc index line))
  + acc_invalidCount (processLine now acc index line)
  <= List.length (acc_cards acc) + acc_invalidCount acc + 1.
Proof.
  destruct (lineOutcome now index line) as [| |card] eqn:Hout.
  - rewrite (processLine_blank acc _ _ Hout). lia.
  - destruct (processLine_invalid acc _ _ Hout) as [msg ->]. simpl. lia.
  - rewrite (processLine_valid acc _ _ _ Hout).
    destruct (has (acc_seen acc) (signature card)); simpl.
    + lia.
    + rewrite length_app. simpl. lia.
Qed.

Lemma forEach_count lines index acc :
  List.length (acc_cards (forEach (processLine now) index lines acc))
  + acc_invalidCount (forEach (processLine now) index lines acc)
  <= List.length (acc_cards acc) + acc_invalidCount acc + List.length lines.
Proof.
  revert index acc. induction lines as [|l ls IH]; intros index acc; simpl.
  - lia.
  - specialize (IH (S index) (processLine now acc index l)).
    pose proof (processLine_count acc index l). lia.
Qed.

Lemma processLine_seen acc index line :
  seenInvariant acc -> seenInvariant (processLine now acc index line).
Proof.
  intros [Hmap Hnd].
  destruct (lineOutcome now index line) as [| |card] eqn:Hout.
  - now rewrite (processLine_blank acc _ _ Hout).
  - destruct (processLine_invalid acc _ _ Hout) as [msg ->]. now split.
  - rewrite (processLine_valid acc _ _ _ Hout).
    destruct (has (acc_seen acc) (signature card)) eqn:Hhas; [now split|].
    split; simpl.
    + rewrite map_app, Hmap. reflexivity.
    + apply NoDup_app; [assumption|repeat constructor; intros []| ].
      intros x Hin [<-|[]].
      apply has_In in Hin. congruence.
Qed.

Lemma forEach_seen lines index acc :
  seenInvariant acc ->
  seenInvariant (forEach (processLine now) index lines acc).
Proof.
  revert index acc. induction lines as [|l ls IH]; intros index acc H; simpl.
  - assumption.
  - apply IH. now apply processLine_seen.
Qed.

Lemma emptyAcc_seen : seenInvariant emptyAcc.
Proof. split; [reflexivity|constructor]. Qed.

(** Signatures are never removed from the seen set. *)
Lemma processLine_seen_grow acc index line sig :
  In sig (acc_seen acc) -> In sig (acc_seen (processLine now acc index line)).
Proof.
  intros Hin.
  destruct (lineOutcome now index line) as [| |card] eqn:Hout.
  - now rewrite (processLine_blank acc _ _ Hout).
  - now destruct (processLine_invalid acc _ _ Hout) as [msg ->].
  - rewrite (processLine_valid acc _ _ _ Hout).
    destruct (has (acc_seen acc) (signature card)); [assumption|].
    simpl. apply in_or_app. now left.
Qed.

Lemma forEach_seen_grow lines index acc sig :
  In sig (acc_seen acc) ->
  In sig (acc_seen (forEach (processLine now) index lines acc)).
Proof.
  revert index acc. induction lines as [|l ls IH]; intros index acc H; simpl.
  - assumption.
  - apply IH. now apply processLine_seen_grow.
Qed.

(** After a line that decodes to a card, its signature is in the seen set. *)
Lemma processLine_valid_seen acc index line card :
  lineOutcome now index line = Valid card ->
  In (signature card) (acc_seen (processLine now acc index line)).
Proof.
  intros Hout. rewrite (processLine_valid acc _ _ _ Hout).
  destruct (has (acc_seen acc) (signature card)) eqn:Hhas.
  - now apply has_In.
  - simpl. apply in_or_app. right. now left.
Qed.

Lemma forEach_valid_seen lines index acc k line card :
  nth_error lines k = Some line ->
  lineOutcome now (index + k) line = Valid card ->
  In (signature card) (acc_seen (forEach (processLine now) index lines acc)).
Proof.
  revert index acc k.
  induction lines as [|l ls IH]; intros index acc k Hnth Hout.
  - destruct k; discriminate.
  - destruct k as [|k]; simpl in *.
    + injection Hnth as ->. rewrite Nat.add_0_r in Hout.
      apply forEach_seen_grow. now apply processLine_valid_seen.
    + apply (IH (S index) _ k); [assumption|].
      now replace (S index + k) with (index + S k) by lia.
Qed.

(** Where the cards and the seen signatures come from. *)
Lemma forEach_provenance lines index acc card :
  In card (acc_cards (forEach (processLine now) index lines acc)) ->
  In card (acc_cards acc)
  \/ exists k line, nth_error lines k = Some line
                    /\ lineOutcome now (index + k) line = Valid card.
Proof.
  revert index acc.
  induction lines as [|l ls IH]; intros index acc Hin; simpl in *.
  - now left.
  - destruct (IH _ _ Hin) as [Hin'|[k [line [Hnth Hout]]]].
    + destruct (lineOutcome now index l) as [| |c] eqn:Hl.
      * rewrite (processLine_blank acc _ _ Hl) in Hin'. now left.
      * destruct (processLine_invalid acc _ _ Hl) as [msg Heq].
        rewrite Heq in Hin'. now left.
      * rewrite (processLine_valid acc _ _ _ Hl) in Hin'.
        destruct (has (acc_seen acc) (signature c)); [now left|].
        simpl in Hin'. apply in_app_or in Hin' as [Hin'|[<-|[]]];
          [now left|].
        right. exists 0, l. rewrite Nat.add_0_r. now split.
    + right. exists (S k), line. split; [assumption|].
      now replace (index + S k) with (S index + k) by lia.
Qed.

Lemma forEach_seen_provenance lines index acc sig :
  In sig (acc_seen (forEach (processLine now) index lines acc)) ->
  In sig (acc_seen acc)
  \/ exists k line card, nth_error lines k = Some line
       /\ lineOutcome now (index + k) line = Valid card
       /\ sig = signature card.
Proof.
  revert index acc.
  induction lines as [|l ls IH]; intros index acc Hin; simpl in *.
  - now left.
  - destruct (IH _ _ Hin) as [Hin'|[k [line [card [Hnth [Hout Hsig]]]]]].
    + destruct (lineOutcome now index l) as [| |c] eqn:Hl.
      * rewrite (processLine_blank acc _ _ Hl) in Hin'. now left.
      * destruct (processLine_invalid acc _ _ Hl) as [msg Heq].
        rewrite Heq in Hin'. now left.
      * rewrite (processLine_valid acc _ _ _ Hl) in Hin'.
        destruct (has (acc_seen acc) (signature c)); [now left|].
        simpl in Hin'. apply in_app_or in Hin' as [Hin'|[<-|[]]];
          [now left|].
        right. exists 0, l, c. rewrite Nat.add_0_r. now repeat split.
    + right. exists (S k), line, card. repeat split; try assumption.
      now replace (index + S k) with (S index + k) by lia.
Qed.

(** The result object, from the final state of the loop. *)
Lemma parseJSONL_cards text :
  cards (parseJSONL now text) = acc_cards (scanLines now text).
Proof.
  unfold parseJSONL, scanLines.
  destruct (acc_cards (forEach (processLine now) 0 (linesOf text) emptyAcc))
    as [|c cs] eqn:Hc; simpl; [reflexivity|].
  destruct (_ && _); reflexivity.
Qed.

End IngestionFacts.

(** ** The termination policy of ingestion *)

Example parseJSONL_one_bad_three_equal :
  let r := @parseJSONL Reference.runtime (Samples.clock 1000)
             Samples.one_bad_three_equal in
  List.length (cards r) = 1
  /\ error r = Some (js "파일의 상당수(1줄)가 올바르지 않은 형식입니다.")
  /\ acc_invalidCount (@scanLines Reference.runtime (Samples.clock 1000)
                         Samples.one_bad_three_equal) = 1
  /\ List.length (linesOf Samples.one_bad_three_equal) = 4.
Proof. vm_compute. repeat split. Qed.

(** C1, as stated, fails: on a text of four lines, one malformed and three
    equal records, one card survives and the warning is returned although
    the invalid-line count (1) does not exceed half of the line count (4). *)
Lemma C1_counterexample :
  let r := @parseJSONL Reference.runtime (Samples.clock 1000)
             Samples.one_bad_three_equal in
  let invalid := acc_invalidCount
                   (@scanLines Reference.runtime (Samples.clock 1000)
                      Samples.one_bad_three_equal) in
  let total := List.length (linesOf Samples.one_bad_three_equal) in
  ~ (cards r <> [] ->
     (error r = Some (MSG_MOSTLY_INVALID invalid) <-> total < 2 * invalid)).
Proof.
  intros r invalid total H.
  assert (Hc : cards r <> []) by (vm_compute; discriminate).
  destruct (H Hc) as [H1 _].
  assert (He : error r = Some (MSG_MOSTLY_INVALID invalid))
    by (vm_compute; reflexivity).
  specialize (H1 He). vm_compute in H1. lia.
Qed.

(** C1 (amended): when at least one card survives, ingestion returns the
    surviving cards, with the warning naming the invalid-line count exactly
    when there is at least one invalid line and the surviving cards number
    fewer than half of the lines, and with no error otherwise; in particular
    the warning is returned whenever the invalid-line count exceeds half of
    the line count. *)
Theorem C1_partial_corruption_warning {rt : Runtime} (now : nat -> Z)
  (text : jsstring) :
  let r := parseJSONL now text in
  let invalid := acc_invalidCount (scanLines now text) in
  let total := List.length (linesOf text) in
  cards r <> [] ->
  cards r = acc_cards (scanLines now text)
  /\ (error r = Some (MSG_MOSTLY_INVALID invalid)
      <-> 0 < invalid /\ 2 * List.length (cards r) < total)
  /\ (error r = None
      <-> ~ (0 < invalid /\ 2 * List.length (cards r) < total))
  /\ (total < 2 * invalid -> error r = Some (MSG_MOSTLY_INVALID invalid)).
Proof.
  intros r invalid total Hne.
  pose proof (forEach_count now (linesOf text) 0 emptyAcc) as Hcount.
  simpl in Hcount. fold (scanLines now text) in Hcount.
  subst r invalid total. revert Hne Hcount.
  unfold parseJSONL. fold (scanLines now text).
  destruct (acc_cards (scanLines now text)) as [|c cs] eqn:Hcards.
  - simpl. intros Hne. now contradiction Hne.
  - cbn [List.length Nat.eqb]. intros _ Hcount.
    destruct (Nat.ltb_spec 0 (acc_invalidCount (scanLines now text)))
      as [Hpos|Hzero];
    destruct (Nat.ltb_spec (2 * S (List.length cs))
                (List.length (linesOf text))) as [Hfew|Hmany];
    cbn [andb cards error List.length];
    (split; [reflexivity|]);
    repeat split; try congruence; try discriminate; try tauto; try lia;
    intros; try lia; exfalso; lia.
Qed.

(** The example of the specification: six malformed lines and four
    records give the four cards and the warning naming 6. *)
Lemma C1_partial_corruption_warning_witness :
  cards (@parseJSONL Reference.runtime (Samples.clock 1000)
           Samples.six_bad_four_good) <> []
  /\ List.length (cards (@parseJSONL Reference.runtime (Samples.clock 1000)
                           Samples.six_bad_four_good)) = 4
  /\ error (@parseJSONL Reference.runtime (Samples.clock 1000)
              Samples.six_bad_four_good)
     = Some (MSG_MOSTLY_INVALID 6).
Proof.
  assert (H : cards (@parseJSONL Reference.runtime (Samples.clock 1000)
                       Samples.six_bad_four_good) <> [])
    by (vm_compute; discriminate).
  split; [exact H|]. split; [vm_compute; reflexivity|].
  destruct (@C1_partial_corruption_warning Reference.runtime
              (Samples.clock 1000) Samples.six_bad_four_good H)
    as (_ & _ & _ & Hwarn).
  apply Hwarn. vm_compute. lia.
Defined.

(** ** Determinism of ingestion *)

Section ClockIndependence.

Context {rt : Runtime}.
Variables now1 now2 : nat -> Z.

(** The clock only enters the id of a card. *)
Lemma makeCard_clock index obj :
  match makeCard now1 index obj, makeCard now2 index obj with
  | Normal c1, Normal c2 => eraseId c1 = eraseId c2
  | Throw e1, Throw e2 => e1 = e2
  | _, _ => False
  end.
Proof.
  unfold makeCard.
  destruct (cleanText (get obj (js "lemma"))) as [dl|e]; simpl; [|reflexivity].
  destruct (if truthy (get obj (js "full_form"))
            then cleanText (get obj (js "full_form")) else Normal dl)
    as [df|e]; simpl; [|reflexivity].
  destruct (match get obj (js "accepted_answers_de") with
            | Some (JArr answers) =>
                mapM (fun ans => s <- cleanText (Some ans) ;;
                                 Normal (toLowerCase s)) answers
            | _ => Normal [toLowerCase dl]
            end) as [acc|e]; simpl; reflexivity.
Qed.

Lemma eraseId_signature c1 c2 :
  eraseId c1 = eraseId c2 -> signature c1 = signature c2.
Proof.
  intros H. unfold signature.
  change (language c1) with (language (eraseId c1)).
  change (lemma c1) with (lemma (eraseId c1)).
  change (gender c1) with (gender (eraseId c1)).
  change (translations_ko c1) with (translations_ko (eraseId c1)).
  change (level c1) with (level (eraseId c1)).
  change (topic c1) with (topic (eraseId c1)).
  rewrite H. reflexivity.
Qed.

Lemma processLine_clock a b index line :
  sameUpToIds a b ->
  sameUpToIds (processLine now1 a index line) (processLine now2 b index line).
Proof.
  intros (Hcards & Hseen & Hinv & Hcon).
  unfold processLine, tryLine.
  destruct (Nat.eqb (List.length (trim line)) 0); [now repeat split|].
  destruct (JSON_parse line) as [obj|e]; simpl.
  2: { unfold sameUpToIds; simpl. now rewrite Hinv, Hcon. }
  destruct (validateCard obj).
  2: { unfold sameUpToIds; simpl. now rewrite Hinv, Hcon. }
  pose proof (makeCard_clock index obj) as Hmk.
  destruct (makeCard now1 index obj) as [c1|e1];
    destruct (makeCard now2 index obj) as [c2|e2]; simpl; try contradiction.
  - rewrite <- Hseen, <- (eraseId_signature _ _ Hmk).
    destruct (has (acc_seen a) (signature c1)); simpl;
      [now repeat split|].
    unfold sameUpToIds; simpl.
    rewrite !map_app, Hcards, Hseen, Hinv, Hcon. simpl. now rewrite Hmk.
  - unfold sameUpToIds; simpl. now rewrite Hinv, Hcon.
Qed.

Lemma forEach_clock lines index a b :
  sameUpToIds a b ->
  sameUpToIds (forEach (processLine now1) index lines a)
              (forEach (processLine now2) index lines b).
Proof.
  revert index a b. induction lines as [|l ls IH]; intros index a b H; simpl.
  - assumption.
  - apply IH. now apply processLine_clock.
Qed.

(** A record that carries a numeric id, or is read at the same time in both
    runs, gives the same card. *)
Lemma processLine_same_reading acc index line :
  (forall obj, JSON_parse line = Normal obj -> validateCard obj = true ->
     (exists n, get obj (js "id") = Some (JNum n))
     \/ now1 index = now2 index) ->
  processLine now1 acc index line = processLine now2 acc index line.
Proof.
  intros H. unfold processLine, tryLine.
  destruct (Nat.eqb (List.length (trim line)) 0); [reflexivity|].
  destruct (JSON_parse line) as [obj|e]; simpl; [|reflexivity].
  destruct (validateCard obj) eqn:Hv; [|reflexivity].
  replace (makeCard now2 index obj) with (makeCard now1 index obj);
    [reflexivity|].
  unfold makeCard.
  destruct (H obj eq_refl Hv) as [[n Hn]|Heq].
  - rewrite Hn. reflexivity.
  - rewrite Heq. reflexivity.
Qed.

Lemma forEach_same_reading lines index acc :
  (forall k line obj, nth_error lines k = Some line ->
     JSON_parse line = Normal obj -> validateCard obj = true ->
     (exists n, get obj (js "id") = Some (JNum n))
     \/ now1 (index + k) = now2 (index + k)) ->
  forEach (processLine now1) index lines acc
  = forEach (processLine now2) index lines acc.
Proof.
  revert index acc. induction lines as [|l ls IH]; intros index acc H; simpl.
  - reflexivity.
  - rewrite (processLine_same_reading acc index l).
    + apply IH. intros k line obj Hnth Hp Hv.
      replace (S index + k) with (index + S k) by lia.
      now apply (H (S k) line obj).
    + intros obj Hp Hv. rewrite <- (Nat.add_0_r index).
      now apply (H 0 l obj).
Qed.

End ClockIndependence.

Example parseJSONL_clock_1000 :
  cards (@parseJSONL Reference.runtime (Samples.clock 1000) Samples.apfel_line)
  = [ {| id := 1000; lemma := js "Apfel"; gender := JStr (js "m");
         full_form := js "Apfel"; translations_ko := [JStr (js "사과")];
         prompt_ko := JStr (js "사과"); accepted_answers_de := [js "apfel"];
         level := JStr (js "A1"); topic := JStr (js "Food");
         language := JStr (js "German") |} ].
Proof. vm_compute. reflexivity. Qed.

(** C2, as stated, fails: two runs of ingestion on the same one-line text,
    a record without an id, read at clock times 1000 and 2000, return cards
    with different ids. *)
Lemma C2_counterexample :
  @parseJSONL Reference.runtime (Samples.clock 1000) Samples.apfel_line
  <> @parseJSONL Reference.runtime (Samples.clock 2000) Samples.apfel_line.
Proof. vm_compute. discriminate. Qed.

(** C2 (amended): two runs of ingestion on the same text return the same
    error or absence of error and the same cards in the same order, with
    the same deduplication outcome, all fields equal except the id; the
    results are equal, ids included, when every record of the text either
    carries a numeric id or is read at the same clock time in both runs (the
    id of a record without one is the clock reading plus the line index). *)
Theorem C2_deterministic_up_to_generated_ids {rt : Runtime}
  (now1 now2 : nat -> Z) (text : jsstring) :
  let r1 := parseJSONL now1 text in
  let r2 := parseJSONL now2 text in
  error r1 = error r2
  /\ map eraseId (cards r1) = map eraseId (cards r2)
  /\ ((forall index line obj,
         nth_error (linesOf text) index = Some line ->
         JSON_parse line = Normal obj -> validateCard obj = true ->
         (exists n, get obj (js "id") = Some (JNum n))
         \/ now1 index = now2 index) ->
      r1 = r2).
Proof.
  intros r1 r2. subst r1 r2.
  assert (Hsame : sameUpToIds (scanLines now1 text) (scanLines now2 text)).
  { apply forEach_clock. now repeat split. }
  destruct Hsame as (Hcards & _ & Hinv & _).
  assert (Hlen : List.length (acc_cards (scanLines now1 text))
                 = List.length (acc_cards (scanLines now2 text))).
  { rewrite <- (length_map eraseId (acc_cards (scanLines now1 text))),
            <- (length_map eraseId (acc_cards (scanLines now2 text))).
    now rewrite Hcards. }
  split; [|split].
  - unfold parseJSONL. fold (scanLines now1 text) (scanLines now2 text).
    rewrite Hlen, Hinv.
    destruct (Nat.eqb _ 0); [reflexivity|].
    destruct (_ && _); reflexivity.
  - now rewrite !parseJSONL_cards.
  - intros H. unfold parseJSONL.
    rewrite (forEach_same_reading now1 now2 (linesOf text) 0 emptyAcc);
      [reflexivity|exact H].
Qed.

(** Records with numeric ids give equal results at clock times 1000 and
    2000; the Apfel record, without id, gives cards equal up to the id. *)
Lemma C2_deterministic_up_to_generated_ids_witness :
  @parseJSONL Reference.runtime (Samples.clock 1000) Samples.all_with_ids
  = @parseJSONL Reference.runtime (Samples.clock 2000) Samples.all_with_ids
  /\ map eraseId (cards (@parseJSONL Reference.runtime (Samples.clock 1000)
                           Samples.apfel_line))
     = map eraseId (cards (@parseJSONL Reference.runtime (Samples.clock 2000)
                             Samples.apfel_line)).
Proof.
  split.
  - apply (@C2_deterministic_up_to_generated_ids Reference.runtime
             (Samples.clock 1000) (Samples.clock 2000) Samples.all_with_ids).
    intros index line obj Hnth Hparse _. left.
    do 4 (destruct index as [|index];
          [injection Hnth as <-; vm_compute in Hparse;
           injection Hparse as <-; eexists; reflexivity|]).
    destruct index; discriminate.
  - apply (@C2_deterministic_up_to_generated_ids Reference.runtime
             (Samples.clock 1000) (Samples.clock 2000) Samples.apfel_line).
Defined.

(** ** The accepted answers of an ingested card *)

Lemma mapM_Forall2 {A B} (f : A -> completion B) xs ys :
  mapM f xs = Normal ys -> Forall2 (fun x y => f x = Normal y) xs ys.
Proof.
  revert ys. induction xs as [|x xs IH]; intros ys H; simpl in H.
  - injection H as <-. constructor.
  - destruct (f x) as [y|e] eqn:Hfx; simpl in H; [|discriminate].
    destruct (mapM f xs) as [ys'|e]; simpl in H; [|discriminate].
    injection H as <-. constructor; [assumption|now apply IH].
Qed.

Section CardFacts.

Context {rt : Runtime}.

Lemma cleanText_Normal ans s :
  cleanText (Some ans) = Normal s ->
  (truthy (Some ans) = false /\ s = [])
  \/ (exists raw, ans = JStr raw /\ s = replaceIdSuffix raw).
Proof.
  unfold cleanText.
  destruct (truthy (Some ans)) eqn:Ht; simpl.
  - destruct ans; try discriminate. intros H. injection H as <-.
    right. eauto.
  - intros H. injection H as <-. now left.
Qed.

(** A line whose outcome is a card was decoded to a record that passed
    validation. *)
Lemma lineOutcome_Valid now index line card :
  lineOutcome now index line = Valid card ->
  exists obj, JSON_parse line = Normal obj /\ validateCard obj = true
              /\ makeCard now index obj = Normal card.
Proof.
  unfold lineOutcome.
  destruct (Nat.eqb (List.length (trim line)) 0); [discriminate|].
  destruct (JSON_parse line) as [obj|e] eqn:Hp; [|discriminate].
  destruct (validateCard obj) eqn:Hv; [|discriminate].
  destruct (makeCard now index obj) as [c|e] eqn:Hm; [|discriminate].
  intros H. injection H as <-. exists obj. now repeat split.
Qed.

Lemma makeCard_accepted now index obj card :
  makeCard now index obj = Normal card ->
  match get obj (js "accepted_answers_de") with
  | Some (JArr answers) =>
      Forall2 cleanedAnswer answers (accepted_answers_de card)
  | _ => accepted_answers_de card = [toLowerCase (lemma card)]
  end.
Proof.
  unfold makeCard.
  destruct (cleanText (get obj (js "lemma"))) as [dl|e]; simpl; [|discriminate].
  destruct (if truthy (get obj (js "full_form"))
            then cleanText (get obj (js "full_form")) else Normal dl)
    as [df|e]; simpl; [|discriminate].
  destruct (get obj (js "accepted_answers_de")) as [[| | | |answers|]|];
    simpl; try (intros H; injection H as <-; reflexivity).
  destruct (mapM _ answers) as [acc|e] eqn:Hmap; simpl; [|discriminate].
  intros H. injection H as <-. simpl.
  apply mapM_Forall2 in Hmap.
  induction Hmap as [|ans a answers acc Ha _ IH]; constructor; [|exact IH].
  destruct (cleanText (Some ans)) as [s|e] eqn:Hs; simpl in Ha;
    [|discriminate].
  injection Ha as <-.
  destruct (cleanText_Normal _ _ Hs) as [[Hf ->]|[raw [-> ->]]].
  - now left.
  - right. eauto.
Qed.

(** Every card of the result was made from a line of the text. *)
Lemma parseJSONL_provenance now text card :
  In card (cards (parseJSONL now text)) ->
  exists index line,
    nth_error (linesOf text) index = Some line
    /\ lineOutcome now index line = Valid card.
Proof.
  rewrite parseJSONL_cards. unfold scanLines. intros Hin.
  apply forEach_provenance in Hin as [[]|Hin]. exact Hin.
Qed.

End CardFacts.

Example parseJSONL_unnormalized_answers :
  map accepted_answers_de
    (cards (@parseJSONL Reference.runtime (Samples.clock 1000)
              Samples.unnormalized_answers))
  = [[js " apfel "]; [js "der  apfel "]]
  /\ @normalizeAnswer Reference.runtime (js " apfel ") = js "apfel"
  /\ @normalizeAnswer Reference.runtime (js "der  apfel ") = js "der apfel".
Proof. vm_compute. repeat split. Qed.

(** C3, as stated, fails: a lemma written with surrounding spaces gives a
    defaulted accepted answer that keeps them, and a supplied answer keeps
    its doubled and trailing spaces; neither is its own normalization. *)
Lemma C3_counterexample :
  let r := @parseJSONL Reference.runtime (Samples.clock 1000)
             Samples.unnormalized_answers in
  ~ (forall c a, In c (cards r) -> In a (accepted_answers_de c) ->
                 @normalizeAnswer Reference.runtime a = a).
Proof.
  intros r H.
  destruct (cards r) as [|c cs] eqn:Hc; [vm_compute in Hc; discriminate|].
  specialize (H c (js " apfel ") (or_introl eq_refl)).
  vm_compute in Hc. injection Hc as <- _.
  specialize (H (or_introl eq_refl)). vm_compute in H. discriminate.
Qed.

(** The lemma of a card is the lemma of its record with the id suffix
    removed. *)
Lemma makeCard_lemma {rt : Runtime} now index obj card :
  validateCard obj = true ->
  makeCard now index obj = Normal card ->
  exists raw, get obj (js "lemma") = Some (JStr raw)
              /\ lemma card = replaceIdSuffix raw.
Proof.
  unfold validateCard. destruct obj as [| | | | |props]; try discriminate.
  destruct (get (JObj props) (js "lemma")) as [[| | |raw| |]|] eqn:Hl;
    try discriminate.
  intros _. unfold makeCard. rewrite Hl.
  assert (Hclean : cleanText (Some (JStr raw)) = Normal (replaceIdSuffix raw)).
  { unfold cleanText. destruct raw; reflexivity. }
  rewrite Hclean. cbn [bind].
  destruct (if truthy (get (JObj props) (js "full_form"))
            then cleanText (get (JObj props) (js "full_form"))
            else Normal (replaceIdSuffix raw))
    as [df|e]; cbn [bind]; [|discriminate].
  match goal with
  | |- context [bind ?m _] => destruct m as [acc|e]
  end; cbn [bind]; [|discriminate].
  intros H. injection H as <-. exists raw. now split.
Qed.

(** C3 (amended): every card produced by ingestion is the card made from a
    decoded line of the text, its lemma is the lemma of that record with
    the id suffix removed, and its accepted answers are lowercased and
    stripped of the id suffix only: when the record supplies the array,
    each entry is the lowercased, suffix-stripped source entry, in the same
    order; when it does not, the single entry is the lowercased cleaned
    lemma.  The entries are neither trimmed nor whitespace-collapsed. *)
Theorem C3_accepted_answers_lowercased {rt : Runtime} (now : nat -> Z)
  (text : jsstring) (card : Card) :
  In card (cards (parseJSONL now text)) ->
  exists index line obj raw,
    nth_error (linesOf text) index = Some line
    /\ JSON_parse line = Normal obj
    /\ validateCard obj = true
    /\ makeCard now index obj = Normal card
    /\ get obj (js "lemma") = Some (JStr raw)
    /\ lemma card = replaceIdSuffix raw
    /\ match get obj (js "accepted_answers_de") with
       | Some (JArr answers) =>
           Forall2 cleanedAnswer answers (accepted_answers_de card)
       | _ =>
           accepted_answers_de card = [toLowerCase (replaceIdSuffix raw)]
       end.
Proof.
  intros Hin.
  destruct (parseJSONL_provenance now text card Hin)
    as (index & line & Hnth & Hout).
  destruct (lineOutcome_Valid now index line card Hout)
    as (obj & Hparse & Hvalid & Hmake).
  destruct (makeCard_lemma now index obj card Hvalid Hmake)
    as (raw & Hraw & Hlemma).
  exists index, line, obj, raw. repeat split; try assumption.
  pose proof (makeCard_accepted now index obj card Hmake) as Hacc.
  rewrite <- Hlemma. exact Hacc.
Qed.

(** The card of the record that supplies the answer [Der  Apfel ], and the
    card of the record whose lemma [Haus_12] gives the default answer. *)
Lemma C3_accepted_answers_lowercased_witness :
  (In Samples.spaced_answer_card
      (cards (@parseJSONL Reference.runtime (Samples.clock 1000)
                Samples.unnormalized_answers))
   /\ exists index line obj raw,
        nth_error (linesOf Samples.unnormalized_answers) index = Some line
        /\ Reference.json_decode line = Normal obj
        /\ @validateCard obj = true
        /\ @makeCard Reference.runtime (Samples.clock 1000) index obj
           = Normal Samples.spaced_answer_card
        /\ get obj (js "lemma") = Some (JStr raw)
        /\ js "Apfel" = replaceIdSuffix raw
        /\ match get obj (js "accepted_answers_de") with
           | Some (JArr answers) =>
               Forall2 (@cleanedAnswer Reference.runtime) answers
                       [js "der  apfel "]
           | _ => [js "der  apfel "]
                  = [Reference.ascii_toLowerCase (replaceIdSuffix raw)]
           end)
  /\ (In MoreSamples.haus_card
         (cards (@parseJSONL Reference.runtime (Samples.clock 1000)
                   Samples.all_with_ids))
      /\ exists index line obj raw,
           nth_error (linesOf Samples.all_with_ids) index = Some line
           /\ Reference.json_decode line = Normal obj
           /\ @validateCard obj = true
           /\ @makeCard Reference.runtime (Samples.clock 1000) index obj
              = Normal MoreSamples.haus_card
           /\ get obj (js "lemma") = Some (JStr raw)
           /\ js "Haus" = replaceIdSuffix raw
           /\ match get obj (js "accepted_answers_de") with
              | Some (JArr answers) =>
                  Forall2 (@cleanedAnswer Reference.runtime) answers
                          [js "haus"]
              | _ => [js "haus"]
                     = [Reference.ascii_toLowerCase (replaceIdSuffix raw)]
              end).
Proof.
  assert (H1 : In Samples.spaced_answer_card
                 (cards (@parseJSONL Reference.runtime (Samples.clock 1000)
                           Samples.unnormalized_answers)))
    by (vm_compute; right; left; reflexivity).
  assert (H2 : In MoreSamples.haus_card
                 (cards (@parseJSONL Reference.runtime (Samples.clock 1000)
                           Samples.all_with_ids)))
    by (vm_compute; right; left; reflexivity).
  split; (split; [assumption|]).
  - exact (@C3_accepted_answers_lowercased Reference.runtime
             (Samples.clock 1000) Samples.unnormalized_answers
             Samples.spaced_answer_card H1).
  - exact (@C3_accepted_answers_lowercased Reference.runtime
             (Samples.clock 1000) Samples.all_with_ids
             MoreSamples.haus_card H2).
Defined.

(** ** Decimal forms *)

Lemma utf16_of_utf8_ascii bs :
  Forall (fun b => (b < 128)%N) bs -> utf16_of_utf8 bs = bs.
Proof.
  induction 1 as [|b r Hb _ IH]; simpl; [reflexivity|].
  apply N.ltb_lt in Hb. now rewrite Hb, IH.
Qed.

Lemma string_of_uint_digits d :
  Forall (fun b => isDigit b = true)
    (map N_of_ascii (list_ascii_of_string (NilEmpty.string_of_uint d))).
Proof.
  induction d; simpl; constructor; try reflexivity; assumption.
Qed.

Lemma ofNat_digits n : Forall (fun b => isDigit b = true) (ofNat n).
Proof.
  unfold ofNat, js. rewrite utf16_of_utf8_ascii.
  - apply string_of_uint_digits.
  - eapply Forall_impl; [|apply string_of_uint_digits].
    intros b Hb. unfold isDigit in Hb. apply andb_true_iff in Hb as [_ Hb].
    apply N.leb_le in Hb. lia.
Qed.

Lemma map_N_of_ascii_inj a b :
  map N_of_ascii a = map N_of_ascii b -> a = b.
Proof.
  revert b. induction a as [|x a IH]; intros [|y b] H; try discriminate;
    [reflexivity|].
  simpl in H. injection H as Hx Hr. f_equal; [|now apply IH].
  rewrite <- (ascii_N_embedding x), <- (ascii_N_embedding y). now rewrite Hx.
Qed.

Lemma ofNat_inj a b : ofNat a = ofNat b -> a = b.
Proof.
  unfold ofNat, js. intros H.
  rewrite !utf16_of_utf8_ascii in H.
  2,3: eapply Forall_impl; [|apply string_of_uint_digits];
       intros x Hx; unfold isDigit in Hx;
       apply andb_true_iff in Hx as [_ Hx]; apply N.leb_le in Hx; lia.
  apply map_N_of_ascii_inj in H.
  assert (Hs : NilEmpty.string_of_uint (Nat.to_uint a)
               = NilEmpty.string_of_uint (Nat.to_uint b)).
  { rewrite <- (string_of_list_ascii_of_string
                  (NilEmpty.string_of_uint (Nat.to_uint a))),
            <- (string_of_list_ascii_of_string
                  (NilEmpty.string_of_uint (Nat.to_uint b))).
    now rewrite H. }
  assert (Hu : Some (Nat.to_uint a) = Some (Nat.to_uint b)).
  { rewrite <- (NilEmpty.usu (Nat.to_uint a)),
            <- (NilEmpty.usu (Nat.to_uint b)). now rewrite Hs. }
  injection Hu as Hu.
  rewrite <- (Unsigned.of_to a), <- (Unsigned.of_to b). now rewrite Hu.
Qed.

(** Distinct ids have distinct property names. *)
Lemma ofZ_inj a b : ofZ a = ofZ b -> a = b.
Proof.
  assert (Hneg : forall n r, ofNat n <> 45%N :: r).
  { intros n r H. pose proof (ofNat_digits n) as Hd. rewrite H in Hd.
    inversion Hd as [|? ? Hx _]. discriminate Hx. }
  assert (Hzero : forall p, ofNat 0 <> ofNat (Pos.to_nat p)).
  { intros p H. apply ofNat_inj in H. pose proof (Pos2Nat.is_pos p). lia. }
  destruct a as [|p|p], b as [|q|q]; simpl; intros H;
    try reflexivity.
  - now destruct (Hzero q).
  - change (js "0") with (ofNat 0) in H. now destruct (Hneg 0 _ H).
  - symmetry in H. now destruct (Hzero p).
  - apply ofNat_inj, Pos2Nat.inj in H. now subst.
  - now destruct (Hneg _ _ H).
  - change (js "0") with (ofNat 0) in H. symmetry in H.
    now destruct (Hneg 0 _ H).
  - symmetry in H. now destruct (Hneg _ _ H).
  - change (js "-" ++ ofNat (Pos.to_nat p)) with (45%N :: ofNat (Pos.to_nat p))
      in H.
    change (js "-" ++ ofNat (Pos.to_nat q)) with (45%N :: ofNat (Pos.to_nat q))
      in H.
    injection H as H. apply ofNat_inj, Pos2Nat.inj in H. now subst.
Qed.

(** ** The reference encoder is injective *)

Lemma ofNat_not_nil n : ofNat n <> [].
Proof.
  unfold ofNat, js. rewrite utf16_of_utf8_ascii.
  2: { eapply Forall_impl; [|apply string_of_uint_digits].
       intros x Hx. unfold isDigit in Hx.
       apply andb_true_iff in Hx as [_ Hx]. apply N.leb_le in Hx. lia. }
  destruct (Nat.to_uint n) as [|d|d|d|d|d|d|d|d|d|d] eqn:Hd;
    try discriminate.
  pose proof (Unsigned.of_to n) as Hn. rewrite Hd in Hn. simpl in Hn.
  subst n. discriminate Hd.
Qed.

(** A decimal form is a non-empty digit sequence, with a minus sign before
    it for a negative number. *)
Lemma ofZ_shape z :
  exists ds, ds <> [] /\ Forall (fun c => isDigit c = true) ds
             /\ (ofZ z = ds \/ ofZ z = 45%N :: ds).
Proof.
  destruct z as [|p|p]; simpl.
  - exists (ofNat 0). split; [apply ofNat_not_nil|].
    split; [apply ofNat_digits|]. now left.
  - exists (ofNat (Pos.to_nat p)). split; [apply ofNat_not_nil|].
    split; [apply ofNat_digits|]. now left.
  - exists (ofNat (Pos.to_nat p)). split; [apply ofNat_not_nil|].
    split; [apply ofNat_digits|]. now right.
Qed.

Lemma digits_delimited d1 d2 r1 r2 :
  Forall (fun c => isDigit c = true) d1 ->
  Forall (fun c => isDigit c = true) d2 ->
  delimited r1 -> delimited r2 ->
  d1 ++ r1 = d2 ++ r2 -> d1 = d2 /\ r1 = r2.
Proof.
  intros H1. revert d2. induction H1 as [|x d1 Hx _ IH];
    intros d2 H2 Hr1 Hr2 H; destruct H2 as [|y d2 Hy H2]; simpl in H.
  - now split.
  - subst r1. simpl in Hr1. congruence.
  - subst r2. simpl in Hr2. congruence.
  - injection H as -> H. destruct (IH d2 H2 Hr1 Hr2 H) as [-> ->].
    now split.
Qed.

Lemma ofZ_delimited a b r1 r2 :
  delimited r1 -> delimited r2 ->
  ofZ a ++ r1 = ofZ b ++ r2 -> a = b /\ r1 = r2.
Proof.
  intros Hr1 Hr2 H.
  destruct (ofZ_shape a) as (d1 & Hn1 & Hd1 & Ha).
  destruct (ofZ_shape b) as (d2 & Hn2 & Hd2 & Hb).
  assert (Hhead : forall ds t u, ds <> [] ->
            Forall (fun c => isDigit c = true) ds ->
            ds ++ t = 45%N :: u -> False).
  { intros ds t u Hne Hds Hu. destruct Hds as [|x ds Hx _];
      [now contradiction Hne|].
    simpl in Hu. injection Hu as -> _. discriminate Hx. }
  destruct Ha as [Ha|Ha], Hb as [Hb|Hb]; rewrite Ha, Hb in H.
  - destruct (digits_delimited _ _ _ _ Hd1 Hd2 Hr1 Hr2 H) as [Hd ->].
    split; [|reflexivity]. apply ofZ_inj. congruence.
  - now destruct (Hhead _ _ _ Hn1 Hd1 H).
  - symmetry in H. now destruct (Hhead _ _ _ Hn2 Hd2 H).
  - simpl in H. injection H as H.
    destruct (digits_delimited _ _ _ _ Hd1 Hd2 Hr1 Hr2 H) as [Hd ->].
    split; [|reflexivity]. apply ofZ_inj. congruence.
Qed.

(** *** Strings: the reference decoder reads back what was quoted *)

Lemma hexDigit_hexChar n :
  (n < 16)%N -> Reference.hexDigit (Reference.hexChar n) = Some n.
Proof.
  intros Hn. unfold Reference.hexChar, Reference.hexDigit, isDigit.
  destruct (N.ltb_spec n 10).
  - replace ((48 <=? 48 + n) && (48 + n <=? 57))%N with true.
    + f_equal. lia.
    + symmetry. apply andb_true_iff. split; apply N.leb_le; lia.
  - replace ((48 <=? 87 + n) && (87 + n <=? 57))%N with false.
    + replace ((97 <=? 87 + n) && (87 + n <=? 102))%N with true.
      * f_equal. lia.
      * symmetry. apply andb_true_iff. split; apply N.leb_le; lia.
    + symmetry. apply andb_false_iff. right. apply N.leb_gt. lia.
Qed.

Lemma hex4_hexChar c :
  (c < 65536)%N ->
  Reference.hex4 (Reference.hexChar (c / 4096))
                 (Reference.hexChar ((c / 256) mod 16))
                 (Reference.hexChar ((c / 16) mod 16))
                 (Reference.hexChar (c mod 16)) = Some c.
Proof.
  intros Hc. unfold Reference.hex4.
  assert (H1 : (c / 4096 < 16)%N)
    by (apply N.Div0.div_lt_upper_bound; lia).
  assert (H2 : ((c / 256) mod 16 < 16)%N) by (apply N.mod_lt; lia).
  assert (H3 : ((c / 16) mod 16 < 16)%N) by (apply N.mod_lt; lia).
  assert (H4 : (c mod 16 < 16)%N) by (apply N.mod_lt; lia).
  rewrite !hexDigit_hexChar by assumption. f_equal.
  pose proof (N.div_mod c 16 ltac:(lia)) as E1.
  pose proof (N.div_mod (c / 16) 16 ltac:(lia)) as E2.
  pose proof (N.div_mod (c / 256) 16 ltac:(lia)) as E3.
  assert (E4 : (c / 16 / 16 = c / 256)%N)
    by (rewrite N.Div0.div_div; reflexivity).
  assert (E5 : (c / 256 / 16 = c / 4096)%N)
    by (rewrite N.Div0.div_div; reflexivity).
  rewrite E4 in E2. rewrite E5 in E3. lia.
Qed.

Lemma decodeString_raw c t :
  (32 <= c)%N -> c <> 34%N -> c <> 92%N ->
  Reference.decodeString (c :: t)
  = Reference.consFst c (Reference.decodeString t).
Proof.
  intros H32 H34 H92. simpl.
  replace (c =? DQUOTE)%N with false by (symmetry; now apply N.eqb_neq).
  replace (c =? 92)%N with false by (symmetry; now apply N.eqb_neq).
  replace (c <? 32)%N with false by (symmetry; now apply N.ltb_ge).
  reflexivity.
Qed.

Lemma decodeString_escapeU c t :
  (c < 65536)%N ->
  Reference.decodeString (Reference.escapeU c ++ t)
  = Reference.consFst c (Reference.decodeString t).
Proof.
  intros Hc. unfold Reference.escapeU.
  cbn [app Reference.decodeString N.eqb Pos.eqb DQUOTE].
  now rewrite hex4_hexChar.
Qed.

Lemma decodeString_escapeChar c t :
  Reference.decodeString (Reference.escapeChar c ++ t)
  = Reference.consFst c (Reference.decodeString t).
Proof.
  unfold Reference.escapeChar.
  destruct (N.eqb_spec c 34) as [->|H34]; [reflexivity|].
  destruct (N.eqb_spec c 92) as [->|H92]; [reflexivity|].
  destruct (N.eqb_spec c 8) as [->|H8]; [reflexivity|].
  destruct (N.eqb_spec c 12) as [->|H12]; [reflexivity|].
  destruct (N.eqb_spec c 10) as [->|H10]; [reflexivity|].
  destruct (N.eqb_spec c 13) as [->|H13]; [reflexivity|].
  destruct (N.eqb_spec c 9) as [->|H9]; [reflexivity|].
  destruct (N.ltb_spec c 32) as [Hlt|Hge].
  - apply decodeString_escapeU. lia.
  - now apply decodeString_raw.
Qed.

Lemma decodeString_quoteChars n :
  forall s r, List.length s < n ->
    Reference.decodeString (Reference.quoteChars s ++ DQUOTE :: r)
    = Some (s, r).
Proof.
  induction n as [|n IH]; intros s r Hn; [lia|].
  destruct s as [|c q]; [reflexivity|].
  simpl in Hn. cbn [Reference.quoteChars].
  assert (Hhigh : Reference.isHighSurrogate c = true ->
                  (32 <= c)%N /\ c <> 34%N /\ c <> 92%N /\ (c < 65536)%N).
  { unfold Reference.isHighSurrogate. intros H.
    apply andb_true_iff in H as [H1 H2].
    apply N.leb_le in H1, H2. lia. }
  assert (Hlow : forall d, Reference.isLowSurrogate d = true ->
                  (32 <= d)%N /\ d <> 34%N /\ d <> 92%N /\ (d < 65536)%N).
  { unfold Reference.isLowSurrogate. intros d H.
    apply andb_true_iff in H as [H1 H2].
    apply N.leb_le in H1, H2. lia. }
  destruct (Reference.isHighSurrogate c) eqn:Hc.
  - destruct (Hhigh eq_refl) as (Hc1 & Hc2 & Hc3 & Hc4).
    destruct q as [|d q'].
    + rewrite decodeString_escapeU by assumption. reflexivity.
    + destruct (Reference.isLowSurrogate d) eqn:Hd.
      * destruct (Hlow d Hd) as (Hd1 & Hd2 & Hd3 & _).
        cbn [app]. rewrite decodeString_raw by assumption.
        rewrite decodeString_raw by assumption.
        rewrite IH by (simpl in Hn; lia). reflexivity.
      * rewrite <- app_assoc, decodeString_escapeU by assumption.
        rewrite IH by (simpl in Hn |- *; lia). reflexivity.
  - destruct (Reference.isLowSurrogate c) eqn:Hl.
    + destruct (Hlow c Hl) as (_ & _ & _ & Hc4).
      rewrite <- app_assoc, decodeString_escapeU by assumption.
      rewrite IH by lia. reflexivity.
    + rewrite <- app_assoc, decodeString_escapeChar.
      rewrite IH by lia. reflexivity.
Qed.

Lemma quote_delimited s1 s2 r1 r2 :
  Reference.quote s1 ++ r1 = Reference.quote s2 ++ r2 -> s1 = s2 /\ r1 = r2.
Proof.
  unfold Reference.quote. cbn [app]. rewrite <- !app_assoc. cbn [app].
  intros H. injection H as H.
  apply (f_equal Reference.decodeString) in H.
  rewrite (decodeString_quoteChars (S (List.length s1))) in H by lia.
  rewrite (decodeString_quoteChars (S (List.length s2))) in H by lia.
  injection H as -> ->. now split.
Qed.

(** *** Values *)

Lemma json_encode_JArr items :
  Reference.json_encode (JArr items) = 91%N :: encodeItems items ++ [93%N].
Proof. reflexivity. Qed.

Lemma json_encode_JObj props :
  Reference.json_encode (JObj props) = 123%N :: encodeProps props ++ [125%N].
Proof. reflexivity. Qed.

Lemma encodeItems_cons x xs :
  encodeItems (x :: xs) = Reference.json_encode x ++ itemsTail xs.
Proof.
  destruct xs; cbn [encodeItems itemsTail]; [now rewrite app_nil_r|].
  reflexivity.
Qed.

Lemma encodeProps_cons k x ps :
  encodeProps ((k, x) :: ps)
  = Reference.quote k ++ 58%N :: Reference.json_encode x ++ propsTail ps.
Proof.
  destruct ps; cbn [encodeProps propsTail]; [now rewrite app_nil_r|].
  reflexivity.
Qed.

Lemma kindOfChar_digit c : isDigit c = true -> kindOfChar c = 2%N.
Proof.
  intros H. unfold kindOfChar. rewrite H, orb_true_r.
  unfold isDigit in H. apply andb_true_iff in H as [H1 H2].
  apply N.leb_le in H1, H2.
  destruct (N.eqb_spec c 110); [lia|].
  destruct (N.eqb_spec c 116); [lia|].
  destruct (N.eqb_spec c 102); [lia|]. reflexivity.
Qed.

(** The first character of an encoded value tells its kind. *)
Lemma json_encode_head v :
  exists c rest, Reference.json_encode v = c :: rest
                 /\ kindOfChar c = kind v.
Proof.
  destruct v as [|[|]|z|s|items|props].
  - exists 110%N, (js "ull"). split; reflexivity.
  - exists 116%N, (js "rue"). split; reflexivity.
  - exists 102%N, (js "alse"). split; reflexivity.
  - cbn [Reference.json_encode kind].
    destruct (ofZ_shape z) as (ds & Hne & Hds & [Hz|Hz]); rewrite Hz.
    + destruct Hds as [|x ds Hx _]; [now contradiction Hne|].
      exists x, ds. split; [reflexivity|]. now apply kindOfChar_digit.
    + exists 45%N, ds. split; reflexivity.
  - exists DQUOTE, (Reference.quoteChars s ++ [DQUOTE]). split; reflexivity.
  - rewrite json_encode_JArr. eexists _, _. split; reflexivity.
  - rewrite json_encode_JObj. eexists _, _. split; reflexivity.
Qed.

Lemma json_encode_head_kind v c rest t :
  Reference.json_encode v ++ t = c :: rest -> kindOfChar c = kind v.
Proof.
  destruct (json_encode_head v) as (c' & rest' & -> & Hk).
  cbn [app]. intros H. injection H as -> _. exact Hk.
Qed.

Lemma jsize_item x items :
  In x items -> jsize x <= list_sum (map jsize items).
Proof.
  induction items as [|y ys IH]; simpl; [tauto|].
  intros [->|H]; [lia|]. specialize (IH H). lia.
Qed.

Lemma jsize_prop k x props :
  In (k, x) props ->
  jsize x
  <= list_sum (map (fun p : jsstring * json => jsize (snd p)) props).
Proof.
  induction props as [|y ys IH]; simpl; [tauto|].
  intros [->|H]; [simpl; lia|]. specialize (IH H). lia.
Qed.

Lemma itemsTail_delimited xs t :
  delimited (itemsTail xs ++ 93%N :: t).
Proof. destruct xs; reflexivity. Qed.

Lemma propsTail_delimited ps t :
  delimited (propsTail ps ++ 125%N :: t).
Proof. destruct ps; reflexivity. Qed.

(** Two encoded values followed by delimited texts are equal only when the
    values and the texts are. *)
Lemma json_encode_delimited n :
  forall v1 v2 r1 r2,
    jsize v1 < n -> delimited r1 -> delimited r2 ->
    Reference.json_encode v1 ++ r1 = Reference.json_encode v2 ++ r2 ->
    v1 = v2 /\ r1 = r2.
Proof.
  induction n as [|n IH]; intros v1 v2 r1 r2 Hn Hr1 Hr2 H; [lia|].
  assert (Hkind : kind v1 = kind v2).
  { destruct (json_encode_head v1) as (c & rest & Hc & Hk).
    rewrite <- Hk. rewrite Hc in H. cbn [app] in H. symmetry in H.
    exact (json_encode_head_kind _ _ _ _ H). }
  destruct v1 as [|b1|z1|s1|items1|props1],
           v2 as [|b2|z2|s2|items2|props2]; try discriminate Hkind.
  - apply app_inv_head in H. now split.
  - destruct b1, b2; cbn [Reference.json_encode] in H.
    + apply app_inv_head in H. now split.
    + change (js "true") with (116%N :: js "rue") in H.
      change (js "false") with (102%N :: js "alse") in H.
      cbn [app] in H. discriminate H.
    + change (js "true") with (116%N :: js "rue") in H.
      change (js "false") with (102%N :: js "alse") in H.
      cbn [app] in H. discriminate H.
    + apply app_inv_head in H. now split.
  - cbn [Reference.json_encode] in H.
    destruct (ofZ_delimited _ _ _ _ Hr1 Hr2 H) as [-> ->]. now split.
  - cbn [Reference.json_encode] in H.
    destruct (quote_delimited _ _ _ _ H) as [-> ->]. now split.
  - rewrite !json_encode_JArr in H. cbn [app] in H.
    rewrite <- !app_assoc in H. cbn [app] in H. injection H as H.
    assert (Hitems : forall xs ys t1 t2,
              (forall x, In x xs -> jsize x < n) ->
              encodeItems xs ++ 93%N :: t1 = encodeItems ys ++ 93%N :: t2 ->
              xs = ys /\ t1 = t2).
    { induction xs as [|x xs IHxs]; intros [|y ys] t1 t2 Hsz E.
      - cbn [encodeItems app] in E. injection E as ->. now split.
      - rewrite encodeItems_cons in E. cbn [encodeItems app] in E.
        rewrite <- app_assoc in E. symmetry in E.
        apply json_encode_head_kind in E. now destruct y.
      - rewrite encodeItems_cons in E. cbn [encodeItems app] in E.
        rewrite <- app_assoc in E.
        apply json_encode_head_kind in E. now destruct x.
      - rewrite !encodeItems_cons, <- !app_assoc in E.
        destruct (IH x y _ _ (Hsz x (or_introl eq_refl))
                    (itemsTail_delimited xs t1) (itemsTail_delimited ys t2) E)
          as [-> E'].
        destruct xs as [|x' xs'], ys as [|y' ys'];
          cbn [itemsTail app] in E'.
        + injection E' as ->. now split.
        + change (js ",") with [44%N] in E'. cbn [app] in E'.
          discriminate E'.
        + change (js ",") with [44%N] in E'. cbn [app] in E'.
          discriminate E'.
        + change (js ",") with [44%N] in E'. cbn [app] in E'.
          injection E' as E'.
          destruct (IHxs (y' :: ys') t1 t2) as [-> ->];
            [intros z Hz; apply Hsz; now right|exact E'|now split]. }
    destruct (Hitems items1 items2 r1 r2) as [-> ->]; [|exact H|now split].
    intros x Hx. pose proof (jsize_item x items1 Hx). simpl in Hn. lia.
  - rewrite !json_encode_JObj in H. cbn [app] in H.
    rewrite <- !app_assoc in H. cbn [app] in H. injection H as H.
    assert (Hprops : forall ps qs t1 t2,
              (forall k x, In (k, x) ps -> jsize x < n) ->
              encodeProps ps ++ 125%N :: t1 = encodeProps qs ++ 125%N :: t2 ->
              ps = qs /\ t1 = t2).
    { induction ps as [|[k x] ps IHps]; intros [|[l y] qs] t1 t2 Hsz E.
      - cbn [encodeProps app] in E. injection E as ->. now split.
      - rewrite encodeProps_cons in E. unfold Reference.quote in E.
        cbn [encodeProps app] in E. discriminate E.
      - rewrite encodeProps_cons in E. unfold Reference.quote in E.
        cbn [encodeProps app] in E. discriminate E.
      - rewrite !encodeProps_cons, <- !app_assoc in E.
        destruct (quote_delimited _ _ _ _ E) as [-> E1].
        cbn [app] in E1. injection E1 as E1. rewrite <- !app_assoc in E1.
        destruct (IH x y _ _ (Hsz l x (or_introl eq_refl))
                    (propsTail_delimited ps t1) (propsTail_delimited qs t2)
                    E1)
          as [-> E'].
        destruct ps as [|p' ps'], qs as [|q' qs'];
          cbn [propsTail app] in E'.
        + injection E' as ->. now split.
        + change (js ",") with [44%N] in E'. cbn [app] in E'.
          discriminate E'.
        + change (js ",") with [44%N] in E'. cbn [app] in E'.
          discriminate E'.
        + change (js ",") with [44%N] in E'. cbn [app] in E'.
          injection E' as E'.
          destruct (IHps (q' :: qs') t1 t2) as [-> ->];
            [intros k0 z Hz; apply (Hsz k0); now right|exact E'|now split]. }
    destruct (Hprops props1 props2 r1 r2) as [-> ->]; [|exact H|now split].
    intros k x Hx. pose proof (jsize_prop k x props1 Hx). simpl in Hn. lia.
Qed.

(** [JSON.stringify] of the reference runtime is injective. *)
Lemma json_encode_injective a b :
  Reference.json_encode a = Reference.json_encode b -> a = b.
Proof.
  intros H.
  apply (json_encode_delimited (S (jsize a)) a b [] []);
    [lia|exact I|exact I|].
  now rewrite !app_nil_r.
Qed.

(** ** Deduplication *)

Section Deduplication.

Context {rt : Runtime}.
Variable now : nat -> Z.

Lemma contentTuple_signature c1 c2 :
  contentTuple c1 = contentTuple c2 -> signature c1 = signature c2.
Proof.
  unfold contentTuple, signature. intros H.
  injection H as -> -> -> -> -> ->. reflexivity.
Qed.

(** A line whose signature is already seen changes nothing. *)
Lemma processLine_duplicate acc index line card :
  lineOutcome now index line = Valid card ->
  In (signature card) (acc_seen acc) ->
  processLine now acc index line = acc.
Proof.
  intros Hout Hin. rewrite (processLine_valid now acc _ _ _ Hout).
  apply has_In in Hin. now rewrite Hin.
Qed.

(** A line whose signature is new appends its card. *)
Lemma processLine_fresh acc index line card :
  lineOutcome now index line = Valid card ->
  ~ In (signature card) (acc_seen acc) ->
  processLine now acc index line
  = {| acc_cards := acc_cards acc ++ [card];
       acc_seen := acc_seen acc ++ [signature card];
       acc_invalidCount := acc_invalidCount acc;
       acc_console := acc_console acc |}.
Proof.
  intros Hout Hnin. rewrite (processLine_valid now acc _ _ _ Hout).
  destruct (has (acc_seen acc) (signature card)) eqn:Hhas; [|reflexivity].
  apply has_In in Hhas. contradiction.
Qed.

(** When the runtime's [JSON.stringify] is injective, equal signatures mean
    equal tuples: only duplicates are dropped. *)
Lemma signature_injective c1 c2 :
  (forall a b, JSON_stringify a = JSON_stringify b -> a = b) ->
  signature c1 = signature c2 -> contentTuple c1 = contentTuple c2.
Proof.
  intros Hinj H. apply Hinj in H. unfold contentTuple.
  injection H as -> -> -> -> -> ->. reflexivity.
Qed.

Lemma processLine_new_tuple pre line card :
  (forall a b, JSON_stringify a = JSON_stringify b -> a = b) ->
  lineOutcome now (List.length pre) line = Valid card ->
  (forall i li ci, nth_error pre i = Some li ->
                   lineOutcome now i li = Valid ci ->
                   contentTuple ci <> contentTuple card) ->
  acc_cards (processLine now (forEach (processLine now) 0 pre emptyAcc)
               (List.length pre) line)
  = acc_cards (forEach (processLine now) 0 pre emptyAcc) ++ [card].
Proof.
  intros Hinj Hout Hnew.
  rewrite (processLine_fresh _ _ _ card Hout); [reflexivity|].
  intros Hin.
  apply forEach_seen_provenance in Hin
    as [[]|(k & l & c & Hnth & Houtk & Hsig)].
  apply (Hnew k l c Hnth Houtk).
  apply signature_injective; [exact Hinj|now symmetry].
Qed.

(** No two cards of the result have the same signature. *)
Lemma parseJSONL_signatures_NoDup text :
  NoDup (map signature (cards (parseJSONL now text))).
Proof.
  rewrite parseJSONL_cards.
  destruct (forEach_seen now (linesOf text) 0 emptyAcc emptyAcc_seen)
    as [Hmap Hnd].
  fold (scanLines now text) in Hmap, Hnd. now rewrite <- Hmap.
Qed.

End Deduplication.

Section Library.

Context {rt : Runtime}.

Lemma handleAddFile_allCards file w :
  allCards (snd (handleAddFile file w)) = allCards w ++ file_cards file.
Proof.
  unfold handleAddFile, setLoadedFiles, modify, allCards. simpl.
  rewrite flat_map_app. simpl. now rewrite app_nil_r.
Qed.

(** An upload whose text yields cards appends them all to the library. *)
Lemma processAndUpload_allCards now fileId name timestamp text w :
  cards (parseJSONL now text) <> [] ->
  allCards (snd (processAndUpload now fileId name timestamp text w))
  = allCards w ++ cards (parseJSONL now text).
Proof.
  intros Hne. unfold processAndUpload, bindE. simpl.
  destruct (cards (parseJSONL now text)) as [|c cs] eqn:Hc;
    [now contradiction Hne|].
  simpl. unfold allCards. simpl.
  rewrite flat_map_app. simpl. now rewrite app_nil_r.
Qed.

End Library.

(** C5: within one ingestion call a record that agrees with an earlier
    decoded record on (language, lemma, gender, translations_ko, level,
    topic) is dropped, whatever its other fields, and changes neither the
    invalid-line counter nor anything else; the first record with a
    signature is appended and remains in the result, and so is the first
    record of a tuple, [JSON.stringify] being injective; no two cards of
    the result agree on the tuple; and uploads are never deduplicated
    against each other: the library holds the cards of both. *)
Theorem C5_only_first_of_duplicates_survives {rt : Runtime}
  (now : nat -> Z) (text : jsstring) (pre : list jsstring)
  (line : jsstring) (post : list jsstring) (card : Card) :
  linesOf text = pre ++ line :: post ->
  lineOutcome now (List.length pre) line = Valid card ->
  let before := forEach (processLine now) 0 pre emptyAcc in
  let after := processLine now before (List.length pre) line in
  ((exists i li ci, nth_error pre i = Some li
                    /\ lineOutcome now i li = Valid ci
                    /\ contentTuple ci = contentTuple card) ->
   after = before)
  /\ ((forall i li ci, nth_error pre i = Some li ->
                       lineOutcome now i li = Valid ci ->
                       signature ci <> signature card) ->
      acc_cards after = acc_cards before ++ [card]
      /\ acc_invalidCount after = acc_invalidCount before
      /\ In card (cards (parseJSONL now text)))
  /\ ((forall a b, JSON_stringify a = JSON_stringify b -> a = b) ->
      (forall i li ci, nth_error pre i = Some li ->
                       lineOutcome now i li = Valid ci ->
                       contentTuple ci <> contentTuple card) ->
      acc_cards after = acc_cards before ++ [card]
      /\ acc_seen after = acc_seen before ++ [signature card]
      /\ acc_invalidCount after = acc_invalidCount before
      /\ acc_console after = acc_console before
      /\ In card (cards (parseJSONL now text)))
  /\ (forall i j ci cj,
        nth_error (cards (parseJSONL now text)) i = Some ci ->
        nth_error (cards (parseJSONL now text)) j = Some cj ->
        contentTuple ci = contentTuple cj -> i = j)
  /\ (forall now' text' id1 name1 ts1 id2 name2 ts2 w,
        cards (parseJSONL now text) <> [] ->
        cards (parseJSONL now' text') <> [] ->
        allCards (snd (processAndUpload now' id2 name2 ts2 text'
                         (snd (processAndUpload now id1 name1 ts1 text w))))
        = allCards w ++ cards (parseJSONL now text)
            ++ cards (parseJSONL now' text')).
Proof.
  intros Hlines Hout before after. subst before after.
  assert (Hkept : ~ In (signature card)
                      (acc_seen (forEach (processLine now) 0 pre emptyAcc)) ->
                  In card (cards (parseJSONL now text))).
  { intros Hfresh. rewrite parseJSONL_cards. unfold scanLines.
    rewrite Hlines, forEach_app. simpl.
    rewrite (processLine_fresh now _ _ _ card Hout Hfresh).
    match goal with
    | |- In _ (acc_cards (forEach _ ?k post ?a)) =>
        destruct (forEach_cards_grow now post k a) as [rest ->]
    end.
    simpl. apply in_or_app. left. apply in_or_app. right. now left. }
  split; [|split; [|split; [|split]]].
  - intros (i & li & ci & Hnth & Houti & Htuple).
    apply (processLine_duplicate now _ _ _ card Hout).
    rewrite <- (contentTuple_signature _ _ Htuple).
    now apply (forEach_valid_seen now pre 0 emptyAcc i li ci).
  - intros Hfirst.
    assert (Hfresh : ~ In (signature card)
                       (acc_seen (forEach (processLine now) 0 pre emptyAcc))).
    { intros Hin.
      apply forEach_seen_provenance in Hin
        as [[]|(k & l & c & Hnth & Houtk & Hsig)].
      exact (Hfirst k l c Hnth Houtk (eq_sym Hsig)). }
    rewrite (processLine_fresh now _ _ _ card Hout Hfresh). simpl.
    repeat split. exact (Hkept Hfresh).
  - intros Hinj Hnew.
    assert (Hfresh : ~ In (signature card)
                       (acc_seen (forEach (processLine now) 0 pre emptyAcc))).
    { intros Hin.
      apply forEach_seen_provenance in Hin
        as [[]|(k & l & c & Hnth & Houtk & Hsig)].
      apply (Hnew k l c Hnth Houtk).
      apply signature_injective; [exact Hinj|now symmetry]. }
    rewrite (processLine_fresh now _ _ _ card Hout Hfresh). simpl.
    repeat split. exact (Hkept Hfresh).
  - intros i j ci cj Hi Hj Htuple.
    pose proof (parseJSONL_signatures_NoDup now text) as Hnd.
    rewrite NoDup_nth_error in Hnd. apply Hnd.
    + rewrite length_map. apply nth_error_Some. congruence.
    + rewrite !nth_error_map, Hi, Hj. simpl.
      now rewrite (contentTuple_signature _ _ Htuple).
  - intros now' text' id1 name1 ts1 id2 name2 ts2 w H1 H2.
    rewrite (processAndUpload_allCards now' id2 name2 ts2 text' _ H2).
    rewrite (processAndUpload_allCards now id1 name1 ts1 text w H1).
    now rewrite app_assoc.
Qed.

(** The Apfel record twice, the second time with another [full_form]: the
    second line changes nothing.  The record Haus after the record Birne:
    it has a new tuple, and its card is in the result. *)
Lemma C5_only_first_of_duplicates_survives_witness :
  (linesOf Samples.apfel_twice
   = [Samples.apfel_line] ++ Samples.apfel_again_line :: []
   /\ @lineOutcome Reference.runtime (Samples.clock 1000) 1
        Samples.apfel_again_line = Valid Samples.apfel_again_card
   /\ @processLine Reference.runtime (Samples.clock 1000)
        (forEach (@processLine Reference.runtime (Samples.clock 1000)) 0
           [Samples.apfel_line] emptyAcc)
        1 Samples.apfel_again_line
      = forEach (@processLine Reference.runtime (Samples.clock 1000)) 0
          [Samples.apfel_line] emptyAcc)
  /\ (linesOf Samples.all_with_ids
      = [Samples.birne_line]
          ++ Samples.haus_line :: [Samples.fern_line; Samples.birne_line]
      /\ @lineOutcome Reference.runtime (Samples.clock 1000) 1
           Samples.haus_line = Valid MoreSamples.haus_card
      /\ In MoreSamples.haus_card
            (cards (@parseJSONL Reference.runtime (Samples.clock 1000)
                      Samples.all_with_ids))).
Proof.
  assert (H1 : linesOf Samples.apfel_twice
               = [Samples.apfel_line] ++ Samples.apfel_again_line :: [])
    by (vm_compute; reflexivity).
  assert (H2 : @lineOutcome Reference.runtime (Samples.clock 1000)
                 (List.length [Samples.apfel_line])
                 Samples.apfel_again_line = Valid Samples.apfel_again_card)
    by (vm_compute; reflexivity).
  assert (H3 : linesOf Samples.all_with_ids
               = [Samples.birne_line]
                   ++ Samples.haus_line
                      :: [Samples.fern_line; Samples.birne_line])
    by (vm_compute; reflexivity).
  assert (H4 : @lineOutcome Reference.runtime (Samples.clock 1000)
                 (List.length [Samples.birne_line])
                 Samples.haus_line = Valid MoreSamples.haus_card)
    by (vm_compute; reflexivity).
  split.
  - split; [exact H1|]. split; [exact H2|].
    destruct (@C5_only_first_of_duplicates_survives Reference.runtime
                (Samples.clock 1000) Samples.apfel_twice [Samples.apfel_line]
                Samples.apfel_again_line [] Samples.apfel_again_card H1 H2)
      as (Hdup & _).
    apply Hdup. exists 0, Samples.apfel_line, Samples.apfel_card.
    vm_compute. repeat split.
  - split; [exact H3|]. split; [exact H4|].
    destruct (@C5_only_first_of_duplicates_survives Reference.runtime
                (Samples.clock 1000) Samples.all_with_ids
                [Samples.birne_line] Samples.haus_line
                [Samples.fern_line; Samples.birne_line]
                MoreSamples.haus_card H3 H4)
      as (_ & _ & Hnew & _).
    apply Hnew.
    + exact json_encode_injective.
    + intros i li ci Hnth Houti.
      destruct i as [|i]; cbn [nth_error] in Hnth;
        [|destruct i; discriminate Hnth].
      injection Hnth as <-. vm_compute in Houti. injection Houti as <-.
      intros E. vm_compute in E. discriminate E.
Defined.

(** ** Blank input *)

Lemma trimStart_all_white s :
  forallb isWhiteSpace s = true <-> trimStart s = [].
Proof.
  induction s as [|c r IH]; simpl; [tauto|].
  destruct (isWhiteSpace c); simpl; [exact IH|].
  split; discriminate.
Qed.

Lemma trimStart_white_or_head s :
  trimStart s = [] \/ exists c r, trimStart s = c :: r /\ isWhiteSpace c = false.
Proof.
  induction s as [|c r IH]; simpl; [now left|].
  destruct (isWhiteSpace c) eqn:Hc; [exact IH|].
  right. exists c, r. now split.
Qed.

Lemma forallb_rev {A} (p : A -> bool) xs :
  forallb p (rev xs) = forallb p xs.
Proof.
  induction xs as [|x xs IH]; simpl; [reflexivity|].
  rewrite forallb_app, IH. simpl. rewrite andb_true_r. apply andb_comm.
Qed.

Lemma trim_all_white s : forallb isWhiteSpace s = true <-> trim s = [].
Proof.
  unfold trim, trimEnd. split.
  - intros H. apply trimStart_all_white in H. rewrite H. reflexivity.
  - intros H.
    assert (H' : trimStart (rev (trimStart s)) = []).
    { destruct (trimStart (rev (trimStart s))) as [|c r]; [reflexivity|].
      simpl in H. now destruct (rev r). }
    apply trimStart_all_white in H'. rewrite forallb_rev in H'.
    destruct (trimStart_white_or_head s) as [He|(c & r & He & Hc)].
    + now apply trimStart_all_white.
    + rewrite He in H'. simpl in H'. now rewrite Hc in H'.
Qed.

Lemma split_not_nil sep s : split sep s <> [].
Proof.
  destruct s as [|c r]; simpl; [discriminate|].
  destruct (c =? sep)%N; [discriminate|].
  destruct (split sep r); discriminate.
Qed.

(** A text whose lines are all blank consists of white space. *)
Lemma blank_lines_all_white text :
  Forall (fun l => trim l = []) (split LF text) ->
  forallb isWhiteSpace text = true.
Proof.
  induction text as [|c r IH]; simpl; [reflexivity|].
  destruct (N.eqb_spec c LF) as [->|Hc].
  - intros H. inversion H; subst. simpl. now apply IH.
  - destruct (split LF r) as [|l ls] eqn:Hs;
      [now destruct (split_not_nil LF r)|].
    intros H. inversion H as [|? ? Hl Hls]; subst.
    apply trim_all_white in Hl. simpl in Hl.
    apply andb_true_iff in Hl as [Hc' Hl]. rewrite Hc'. simpl.
    apply IH. constructor; [now apply trim_all_white|assumption].
Qed.

(** C7: for the empty text and for a text of blank lines only, and whenever
    no card survives, ingestion returns the empty card list with exactly the
    error text of the source; a blank line leaves the cards, the seen set,
    the invalid-line counter and the console as they were. *)
Theorem C7_no_cards_error {rt : Runtime} (now : nat -> Z) (text : jsstring) :
  MSG_NO_CARDS = js "유효한 카드 데이터가 없습니다."
  /\ parseJSONL now [] = {| cards := []; error := Some MSG_NO_CARDS |}
  /\ (Forall (fun l => trim l = []) (split LF text) ->
      parseJSONL now text = {| cards := []; error := Some MSG_NO_CARDS |})
  /\ (acc_cards (scanLines now text) = [] ->
      parseJSONL now text = {| cards := []; error := Some MSG_NO_CARDS |})
  /\ (cards (parseJSONL now text) = [] ->
      error (parseJSONL now text) = Some MSG_NO_CARDS)
  /\ (forall acc index line,
        trim line = [] -> processLine now acc index line = acc).
Proof.
  assert (Hempty : forall t, acc_cards (scanLines now t) = [] ->
            parseJSONL now t = {| cards := []; error := Some MSG_NO_CARDS |}).
  { intros t H. unfold parseJSONL. fold (scanLines now t).
    now rewrite H. }
  assert (Hwhite : forall t, forallb isWhiteSpace t = true ->
            parseJSONL now t = {| cards := []; error := Some MSG_NO_CARDS |}).
  { intros t H. apply trim_all_white in H.
    unfold parseJSONL, linesOf. rewrite H. reflexivity. }
  split; [|split; [|split; [|split; [|split]]]].
  - unfold MSG_NO_CARDS. reflexivity.
  - apply (Hwhite []). reflexivity.
  - intros H. apply Hwhite. now apply blank_lines_all_white.
  - apply Hempty.
  - intros H. rewrite parseJSONL_cards in H. now rewrite (Hempty text H).
  - intros acc index line H. unfold processLine. now rewrite H.
Qed.

(** Three blank lines. *)
Lemma C7_no_cards_error_witness :
  Forall (fun l => trim l = []) (split LF Samples.blank_lines)
  /\ @parseJSONL Reference.runtime (Samples.clock 1000) Samples.blank_lines
     = {| cards := []; error := Some MSG_NO_CARDS |}.
Proof.
  assert (H : Forall (fun l => trim l = []) (split LF Samples.blank_lines))
    by (vm_compute; repeat constructor).
  split; [exact H|].
  destruct (@C7_no_cards_error Reference.runtime (Samples.clock 1000)
              Samples.blank_lines) as (_ & _ & Hblank & _).
  exact (Hblank H).
Defined.

(** ** End to end *)

(** C8: ingesting the single Apfel line produces exactly one card, with
    [full_form] the cleaned lemma, the accepted answers the lowercased
    lemma, the prompt the first translation and the default language (for
    any runtime that decodes the line to its record and lowercases
    [Apfel] to [apfel]); the id is the clock reading, the line index
    being 0. *)
Theorem C8_apfel_end_to_end {rt : Runtime} (now : nat -> Z) :
  JSON_parse Samples.apfel_line = Normal Samples.apfel_obj ->
  toLowerCase (js "Apfel") = js "apfel" ->
  parseJSONL now Samples.apfel_line
  = {| cards :=
         [ {| id := now 0;
              lemma := js "Apfel";
              gender := JStr (js "m");
              full_form := js "Apfel";
              translations_ko := [JStr (js "사과")];
              prompt_ko := JStr (js "사과");
              accepted_answers_de := [js "apfel"];
              level := JStr (js "A1");
              topic := JStr (js "Food");
              language := JStr (js "German") |} ];
       error := None |}.
Proof.
  intros Hparse Hlower.
  assert (Hmake : makeCard now 0 Samples.apfel_obj
                  = Normal {| id := (now 0%nat + 0)%Z;
                              lemma := js "Apfel";
                              gender := JStr (js "m");
                              full_form := js "Apfel";
                              translations_ko := [JStr (js "사과")];
                              prompt_ko := JStr (js "사과");
                              accepted_answers_de := [toLowerCase (js "Apfel")];
                              level := JStr (js "A1");
                              topic := JStr (js "Food");
                              language := JStr (js "German") |})
    by (vm_compute; reflexivity).
  rewrite Hlower, Z.add_0_r in Hmake.
  unfold parseJSONL.
  replace (linesOf Samples.apfel_line) with [Samples.apfel_line]
    by (vm_compute; reflexivity).
  cbn [forEach]. unfold processLine.
  replace (Nat.eqb (List.length (trim Samples.apfel_line)) 0) with false
    by (vm_compute; reflexivity).
  unfold tryLine. rewrite Hparse. cbn [bind].
  replace (validateCard Samples.apfel_obj) with true by reflexivity.
  rewrite Hmake. reflexivity.
Qed.

(** With the reference decoder, at clock time 1000. *)
Lemma C8_apfel_end_to_end_witness :
  Reference.json_decode Samples.apfel_line = Normal Samples.apfel_obj
  /\ Reference.ascii_toLowerCase (js "Apfel") = js "apfel"
  /\ @parseJSONL Reference.runtime (Samples.clock 1000) Samples.apfel_line
     = {| cards := [Samples.apfel_card]; error := None |}.
Proof.
  assert (H1 : @JSON_parse Reference.runtime Samples.apfel_line
               = Normal Samples.apfel_obj) by (vm_compute; reflexivity).
  assert (H2 : @toLowerCase Reference.runtime (js "Apfel") = js "apfel")
    by (vm_compute; reflexivity).
  split; [exact H1|]. split; [exact H2|].
  exact (@C8_apfel_end_to_end Reference.runtime (Samples.clock 1000) H1 H2).
Defined.

(** ** The memo store *)

Example handleMemoChange_accepts_30 :
  let w := snd (@handleMemoChange Reference.runtime 1000 Samples.memo30
                  Samples.world_with_memo) in
  memos w = JObj [(js "1000", JStr Samples.memo30)]
  /\ getItem STORAGE_KEY_MEMOS (localStorage w)
     = Some (jsq "{'1000':'123456789012345678901234567890'}").
Proof. vm_compute. split; reflexivity. Qed.

(** C9: a memo text longer than 30 code units is rejected: the handler
    returns at once, so the memo mapping, with the memo stored for that card
    or its absence, the persistent store and the rest of the state are what
    they were. *)
Theorem C9_long_memo_rejected {rt : Runtime} (cardId : Z) (text : jsstring)
  (w : World) :
  30 < List.length text ->
  handleMemoChange cardId text w = (Normal tt, w)
  /\ memos (snd (handleMemoChange cardId text w)) = memos w
  /\ get (memos (snd (handleMemoChange cardId text w))) (ofZ cardId)
     = get (memos w) (ofZ cardId)
  /\ localStorage (snd (handleMemoChange cardId text w)) = localStorage w.
Proof.
  intros Hlong. unfold handleMemoChange.
  apply Nat.ltb_lt in Hlong. rewrite Hlong. now repeat split.
Qed.

(** A memo of 31 code units for a card that has a memo. *)
Lemma C9_long_memo_rejected_witness :
  30 < List.length Samples.memo31
  /\ @handleMemoChange Reference.runtime 1000 Samples.memo31
       Samples.world_with_memo
     = (Normal tt, Samples.world_with_memo).
Proof.
  assert (H : 30 < List.length Samples.memo31) by (vm_compute; lia).
  split; [exact H|].
  exact (proj1 (@C9_long_memo_rejected Reference.runtime 1000 Samples.memo31
                  Samples.world_with_memo H)).
Defined.

(** ** Empty-string fields *)

Section Defaults.

Context {rt : Runtime}.





End Defaults.

Example makeCard_empty_level :
  @makeCard Reference.runtime (Samples.clock 1000) 0
    (JObj Samples.empty_level_props)
  = @makeCard Reference.runtime (Samples.clock 1000) 0
      (JObj Samples.no_level_props)
  /\ exists card,
       @makeCard Reference.runtime (Samples.clock 1000) 0
         (JObj Samples.empty_level_props) = Normal card
       /\ level card = JStr (js "Unknown").
Proof.
  split; [vm_compute; reflexivity|].
  exists {| id := 1000; lemma := js "Apfel"; gender := JNull;
            full_form := js "Apfel";
            translations_ko := [JStr (js "사과")];
            prompt_ko := JStr (js "사과");
            accepted_answers_de := [js "apfel"];
            level := JStr (js "Unknown"); topic := JStr (js "General");
            language := JStr (js "German") |}.
  vm_compute. split; reflexivity.
Qed.



(** ** The persisted stores and a corrupt payload *)

Section Stores.

Context {rt : Runtime}.

(** The two load effects catch the decode error: the state keeps its
    (empty) collection and the error goes to the console. *)
Lemma loadWrongCards_corrupt w payload e :
  getItem STORAGE_KEY_WRONG_CARDS (localStorage w) = Some payload ->
  payload <> [] ->
  JSON_parse payload = Throw e ->
  fst (loadWrongCards w) = Normal tt
  /\ savedWrongCards (snd (loadWrongCards w)) = savedWrongCards w
  /\ localStorage (snd (loadWrongCards w)) = localStorage w
  /\ console (snd (loadWrongCards w)) = console w ++ [errorName e].
Proof.
  intros Hget Hne Hparse.
  unfold loadWrongCards, bindE, localStorage_getItem, reads. rewrite Hget.
  destruct payload as [|c r]; [now contradiction Hne|].
  cbn [List.length Nat.eqb].
  unfold tryCatch, bindE, lift. rewrite Hparse. now repeat split.
Qed.

Lemma loadMemos_corrupt w payload e :
  getItem STORAGE_KEY_MEMOS (localStorage w) = Some payload ->
  payload <> [] ->
  JSON_parse payload = Throw e ->
  fst (loadMemos w) = Normal tt
  /\ memos (snd (loadMemos w)) = memos w
  /\ localStorage (snd (loadMemos w)) = localStorage w
  /\ console (snd (loadMemos w))
     = console w ++ [js "Failed to load memos " ++ errorName e].
Proof.
  intros Hget Hne Hparse.
  unfold loadMemos, bindE, localStorage_getItem, reads. rewrite Hget.
  destruct payload as [|c r]; [now contradiction Hne|].
  cbn [List.length Nat.eqb].
  unfold tryCatch, bindE, lift. rewrite Hparse. now repeat split.
Qed.

(** [saveWrongCard] decodes outside any [try]: the decode error escapes. *)
Lemma saveWrongCard_corrupt card w payload e :
  getItem STORAGE_KEY_WRONG_CARDS (localStorage w) = Some payload ->
  payload <> [] ->
  JSON_parse payload = Throw e ->
  saveWrongCard card w = (Throw e, w).
Proof.
  intros Hget Hne Hparse.
  unfold saveWrongCard, bindE, localStorage_getItem, reads. rewrite Hget.
  destruct payload as [|c r]; [now contradiction Hne|].
  cbn [List.length Nat.eqb]. unfold lift. now rewrite Hparse.
Qed.

(** [saveWrongCard] touches the persistent store only. *)
Lemma saveWrongCard_frame card w :
  exists st, snd (saveWrongCard card w) = withStorage (fun _ => st) w.
Proof.
  assert (Hsame : w = withStorage (fun _ => localStorage w) w)
    by (now destruct w).
  unfold saveWrongCard, bindE, localStorage_getItem, reads.
  match goal with
  | |- context [match ?c w with _ => _ end] =>
      assert (Hc : snd (c w) = w);
      [|destruct (c w) as [[list|e] w1]; simpl in Hc; subst w1]
  end.
  { destruct (getItem STORAGE_KEY_WRONG_CARDS (localStorage w)) as [p|];
      [|reflexivity].
    destruct (Nat.eqb (List.length p) 0); reflexivity. }
  2: { exists (localStorage w). exact Hsame. }
  destruct list; try (exists (localStorage w); exact Hsame).
  unfold lift.
  destruct (findById (id card) items) as [[|]|e]; simpl;
    try (exists (localStorage w); exact Hsame).
  eexists. reflexivity.
Qed.

Lemma saveWrongCard_quiz card w : quiz (snd (saveWrongCard card w)) = quiz w.
Proof. destruct (saveWrongCard_frame card w) as [st ->]. reflexivity. Qed.

End Stores.

(** C4 (defect of the code): with a stored wrong-card list that is not JSON,
    a wrong answer makes the submit handler end by the uncaught decode
    error of [saveWrongCard], after the feedback was set and before the
    session's wrong-card list was extended; the two load effects, on the
    same kind of payload, catch the error, keep the empty collection and
    log. *)
Theorem C4_corrupt_wrong_card_store_throws :
  let w := typing (js "Birne") Samples.world_corrupt_wrong_cards in
  let r := @submit Reference.runtime [Samples.apfel_card] w in
  fst r = Throw SyntaxError
  /\ feedback (quiz (snd r)) = Incorrect
  /\ sessionWrongCards (quiz (snd r)) = []
  /\ localStorage (snd r) = localStorage w
  /\ console (snd r) = []
  /\ @loadWrongCards Reference.runtime Samples.world_corrupt_wrong_cards
     = (Normal tt,
        {| quiz := initialQuizState; memos := JObj [];
           savedWrongCards := JArr []; loadedFiles := []; errorMsg := None;
           localStorage := [(STORAGE_KEY_WRONG_CARDS, js "{oops")];
           console := [js "SyntaxError"] |})
  /\ @loadMemos Reference.runtime Samples.world_corrupt_memos
     = (Normal tt,
        {| quiz := initialQuizState; memos := JObj [];
           savedWrongCards := JArr []; loadedFiles := []; errorMsg := None;
           localStorage := [(STORAGE_KEY_MEMOS, js "{oops")];
           console := [js "Failed to load memos SyntaxError"] |}).
Proof. vm_compute. repeat split. Qed.

(** ** Scoring a submission *)

Lemma trimStart_length s : List.length (trimStart s) <= List.length s.
Proof.
  induction s as [|c r IH]; simpl; [lia|].
  destruct (isWhiteSpace c); simpl; lia.
Qed.

Lemma trimStart_full_length s :
  List.length (trimStart s) = List.length s -> trimStart s = s.
Proof.
  destruct s as [|c r]; simpl; [reflexivity|].
  destruct (isWhiteSpace c); [|reflexivity].
  pose proof (trimStart_length r). lia.
Qed.

(** A string that [trim] leaves alone has no white space at either end. *)
Lemma trim_fixed s :
  trim s = s -> trimStart s = s /\ trimStart (rev s) = rev s.
Proof.
  intros H.
  assert (Hstart : trimStart s = s).
  { apply trimStart_full_length.
    pose proof (trimStart_length s).
    pose proof (trimStart_length (rev (trimStart s))) as H2.
    rewrite length_rev in H2.
    assert (Hl : List.length (trim s) = List.length s) by now rewrite H.
    unfold trim, trimEnd in Hl. rewrite length_rev in Hl. lia. }
  split; [exact Hstart|].
  unfold trim, trimEnd in H. rewrite Hstart in H.
  rewrite <- H at 2. now rewrite rev_involutive.
Qed.

Lemma trimStart_skip before s :
  forallb isWhiteSpace before = true ->
  trimStart (before ++ s) = trimStart s.
Proof.
  induction before as [|c r IH]; simpl; [reflexivity|].
  intros H. apply andb_true_iff in H as [Hc Hr]. rewrite Hc. now apply IH.
Qed.

Lemma trimStart_keep s rest :
  s <> [] -> trimStart s = s -> trimStart (s ++ rest) = s ++ rest.
Proof.
  destruct s as [|c r]; [congruence|]. simpl. intros _.
  destruct (isWhiteSpace c); [|reflexivity].
  intros H. pose proof (trimStart_length r) as Hl. rewrite H in Hl.
  simpl in Hl. lia.
Qed.

(** White space around a trimmed, non-empty string is what [trim]
    removes. *)
Lemma trim_padded before s after :
  forallb isWhiteSpace before = true ->
  forallb isWhiteSpace after = true ->
  s <> [] -> trim s = s ->
  trim (before ++ s ++ after) = s.
Proof.
  intros Hb Ha Hne Hs. destruct (trim_fixed s Hs) as [Hstart Hend].
  unfold trim, trimEnd.
  rewrite (trimStart_skip before _ Hb), (trimStart_keep s after Hne Hstart).
  rewrite rev_app_distr, trimStart_skip by now rewrite forallb_rev.
  rewrite Hend. apply rev_involutive.
Qed.

Section Scoring.

Context {rt : Runtime}.




End Scoring.

Example parseJSONL_double_space :
  cards (@parseJSONL Reference.runtime (Samples.clock 1000)
           Samples.double_space_line)
  = [Samples.guten_tag_card]
  /\ @normalizeAnswer Reference.runtime (js "guten  Tag") = js "guten tag".
Proof. vm_compute. split; reflexivity. Qed.




(** * Further properties *)

(** ** The text helpers *)

Lemma replaceIdSuffix_app p ds :
  isDigits1 ds = true -> replaceIdSuffix (p ++ UNDERSCORE :: ds) = p.
Proof.
  intros Hds. induction p as [|c p IH]; simpl.
  - now rewrite Hds.
  - replace (isDigits1 (p ++ UNDERSCORE :: ds)) with false.
    + rewrite andb_false_r. now rewrite IH.
    + unfold isDigits1. rewrite forallb_app. simpl.
      now rewrite andb_false_r, andb_false_r.
Qed.

Lemma replaceIdSuffix_fixed s :
  (forall p ds, s = p ++ UNDERSCORE :: ds -> isDigits1 ds = false) ->
  replaceIdSuffix s = s.
Proof.
  induction s as [|c r IH]; intros H; simpl; [reflexivity|].
  destruct ((c =? UNDERSCORE)%N && isDigits1 r) eqn:Ht.
  - apply andb_true_iff in Ht as [Hc Hr]. apply N.eqb_eq in Hc. subst c.
    now rewrite (H [] r eq_refl) in Hr.
  - f_equal. apply IH. intros p ds ->. now apply (H (c :: p) ds).
Qed.

(** [cleanText] removes exactly the last underscore-and-digits group of a
    string: what precedes the group is returned as it is, even when it ends
    in such a group itself or is empty; a string that does not end in such
    a group is returned unchanged. *)
Theorem cleanText_removes_one_id_suffix (s : jsstring) :
  (forall p ds, s = p ++ UNDERSCORE :: ds -> isDigits1 ds = true ->
     cleanText (Some (JStr s)) = Normal p)
  /\ ((forall p ds, s = p ++ UNDERSCORE :: ds -> isDigits1 ds = false) ->
      cleanText (Some (JStr s)) = Normal s).
Proof.
  split.
  - intros p ds -> Hds. unfold cleanText. simpl truthy.
    rewrite length_app. simpl List.length.
    replace (Nat.eqb (List.length p + S (List.length ds)) 0) with false
      by (symmetry; apply Nat.eqb_neq; lia).
    simpl. now rewrite replaceIdSuffix_app.
  - intros H. unfold cleanText. simpl truthy.
    destruct s as [|c r]; [reflexivity|]. simpl negb. cbv iota.
    now rewrite replaceIdSuffix_fixed.
Qed.

(** The suffix of [fern_198] goes; of [a_1_2] only the last group goes;
    [Haus] stays. *)
Lemma cleanText_removes_one_id_suffix_witness :
  cleanText (Some (JStr (js "fern_198"))) = Normal (js "fern")
  /\ cleanText (Some (JStr (js "a_1_2"))) = Normal (js "a_1")
  /\ cleanText (Some (JStr (js "Haus"))) = Normal (js "Haus").
Proof.
  split; [|split].
  - apply (proj1 (cleanText_removes_one_id_suffix (js "fern_198"))
             (js "fern") (js "198")); reflexivity.
  - apply (proj1 (cleanText_removes_one_id_suffix (js "a_1_2"))
             (js "a_1") (js "2")); reflexivity.
  - apply (proj2 (cleanText_removes_one_id_suffix (js "Haus"))).
    intros p ds H.
    destruct p as [|c1 [|c2 [|c3 [|c4 [|c5 p]]]]]; vm_compute in H;
      try discriminate H;
      injection H as H1 H2; try discriminate;
      destruct p; discriminate.
Defined.

Lemma replaceWhiteSpaceRuns_noRuns b s :
  noWhiteSpaceRuns b (replaceWhiteSpaceRuns b s) = true.
Proof.
  revert b. induction s as [|c r IH]; intros b; simpl; [reflexivity|].
  destruct (isWhiteSpace c) eqn:Hc.
  - destruct b; [apply IH|]. simpl. now rewrite IH.
  - simpl. rewrite Hc. apply IH.
Qed.

Lemma noWhiteSpaceRuns_fixed b s :
  noWhiteSpaceRuns b s = true -> replaceWhiteSpaceRuns b s = s.
Proof.
  revert b. induction s as [|c r IH]; intros b; simpl; [reflexivity|].
  destruct (isWhiteSpace c).
  - intros H. apply andb_true_iff in H as [H Hr].
    apply andb_true_iff in H as [Hc Hb]. apply N.eqb_eq in Hc. subst c.
    destruct b; [discriminate|]. now rewrite (IH true Hr).
  - intros H. now rewrite (IH false H).
Qed.

(** The result of [normalizeAnswer] has no white space other than single
    spaces, none of them next to another; normalizing its white space again
    changes nothing; and the strings the white-space collapsing leaves
    unchanged are exactly the strings of that shape. *)
Theorem normalizeAnswer_has_no_white_space_runs {rt : Runtime}
  (input : jsstring) :
  noWhiteSpaceRuns false (normalizeAnswer input) = true
  /\ replaceWhiteSpaceRuns false (normalizeAnswer input)
     = normalizeAnswer input
  /\ (forall s, replaceWhiteSpaceRuns false s = s
                <-> noWhiteSpaceRuns false s = true).
Proof.
  assert (H : noWhiteSpaceRuns false (normalizeAnswer input) = true)
    by apply replaceWhiteSpaceRuns_noRuns.
  split; [exact H|]. split; [now apply noWhiteSpaceRuns_fixed|].
  intros s. split.
  - intros Hs. rewrite <- Hs. apply replaceWhiteSpaceRuns_noRuns.
  - apply noWhiteSpaceRuns_fixed.
Qed.

(** ** More on ingestion *)

Lemma trimStart_idem s : trimStart (trimStart s) = trimStart s.
Proof.
  destruct (trimStart_white_or_head s) as [->|(c & r & -> & Hc)];
    [reflexivity|].
  simpl. now rewrite Hc.
Qed.

(** The suffix that [trimStart] keeps. *)
Lemma trimStart_suffix s :
  exists p, s = p ++ trimStart s /\ forallb isWhiteSpace p = true.
Proof.
  induction s as [|c r IH]; simpl.
  - exists []. now split.
  - destruct (isWhiteSpace c) eqn:Hc.
    + destruct IH as (p & Hp & Hw). exists (c :: p). simpl.
      rewrite Hc, Hw. split; [now rewrite <- Hp|reflexivity].
    + exists []. now split.
Qed.

Lemma trimStart_head_fixed c r :
  isWhiteSpace c = false -> trimStart (c :: r) = c :: r.
Proof. intros H. simpl. now rewrite H. Qed.

Lemma trim_idem s : trim (trim s) = trim s.
Proof.
  assert (Hend : trimStart (rev (trim s)) = rev (trim s)).
  { unfold trim, trimEnd. rewrite rev_involutive. apply trimStart_idem. }
  assert (Hstart : trimStart (trim s) = trim s).
  { unfold trim, trimEnd.
    destruct (trimStart_suffix (rev (trimStart s))) as (p & Hp & _).
    destruct (trimStart (rev (trimStart s))) as [|d y] eqn:Hy;
      [reflexivity|].
    assert (Ht : trimStart s = rev (d :: y) ++ rev p).
    { rewrite <- rev_app_distr, <- Hp. now rewrite rev_involutive. }
    destruct (trimStart_white_or_head s) as [He|(c0 & r0 & He & Hc0)].
    - rewrite He in Ht. destruct (rev (d :: y)) eqn:Hr; [|discriminate].
      simpl in Hr. now destruct (rev y).
    - rewrite He in Ht.
      destruct (rev (d :: y)) as [|x t] eqn:Hr.
      + simpl in Hr. now destruct (rev y).
      + simpl in Ht. injection Ht as <- _.
        now apply trimStart_head_fixed. }
  unfold trim at 1. unfold trimEnd. rewrite Hstart, Hend.
  apply rev_involutive.
Qed.

Section IngestionMore.

Context {rt : Runtime}.
Variable now : nat -> Z.

(** Ingestion sees the trimmed text only: white space around the text,
    blank lines before the first record included, changes neither the
    cards, nor their generated ids, nor the error. *)
Theorem parseJSONL_ignores_surrounding_white_space (text : jsstring) :
  parseJSONL now (trim text) = parseJSONL now text
  /\ (forall before after,
        forallb isWhiteSpace before = true ->
        forallb isWhiteSpace after = true ->
        text <> [] -> trim text = text ->
        parseJSONL now (before ++ text ++ after) = parseJSONL now text).
Proof.
  split.
  - unfold parseJSONL, linesOf. now rewrite trim_idem.
  - intros before after Hb Ha Hne Ht.
    unfold parseJSONL, linesOf. now rewrite (trim_padded _ _ _ Hb Ha Hne Ht), Ht.
Qed.

Lemma forEach_counts lines index acc :
  let final := forEach (processLine now) index lines acc in
  let os := outcomesFrom now index lines in
  acc_invalidCount final
  = acc_invalidCount acc + List.length (filter isInvalidOutcome os)
  /\ List.length (acc_console final)
     = List.length (acc_console acc)
       + List.length (filter isInvalidOutcome os)
  /\ List.length (acc_cards final)
     <= List.length (acc_cards acc)
        + List.length (filter isValidOutcome os).
Proof.
  revert index acc. induction lines as [|l ls IH]; intros index acc; simpl.
  - repeat split; lia.
  - destruct (lineOutcome now index l) as [| |card] eqn:Hout; simpl.
    + rewrite (processLine_blank now acc _ _ Hout). apply IH.
    + destruct (processLine_invalid now acc _ _ Hout) as [msg ->].
      destruct (IH (S index) (incrInvalid (warn msg acc))) as (Hi & Hc & Hv).
      simpl in Hi, Hc, Hv. rewrite length_app in Hc. simpl in Hc.
      repeat split; lia.
    + rewrite (processLine_valid now acc _ _ _ Hout).
      destruct (has (acc_seen acc) (signature card)).
      * destruct (IH (S index) acc) as (Hi & Hc & Hv). repeat split; lia.
      * match goal with
        | |- context [forEach _ _ ls ?a] =>
            destruct (IH (S index) a) as (Hi & Hc & Hv)
        end.
        simpl in Hi, Hc, Hv. rewrite length_app in Hv. simpl in Hv.
        repeat split; lia.
Qed.

Lemma outcomes_partition os :
  List.length (filter isBlankOutcome os)
  + List.length (filter isInvalidOutcome os)
  + List.length (filter isValidOutcome os) = List.length os.
Proof.
  induction os as [|o os IH]; simpl; [reflexivity|].
  destruct o; simpl; lia.
Qed.

Lemma outcomesFrom_length index lines :
  List.length (outcomesFrom now index lines) = List.length lines.
Proof.
  revert index. induction lines as [|l ls IH]; intros index; simpl;
    [reflexivity|now rewrite IH].
Qed.

(** The counter of ingestion is the number of lines that are neither blank
    nor decoded to a card, and each of them writes exactly one warning to
    the console; the cards number at most the lines decoded to a card; and
    the blank, the invalid and the decoded lines together are all lines. *)
Theorem parseJSONL_counts_invalid_lines (text : jsstring) :
  let os := outcomesFrom now 0 (linesOf text) in
  acc_invalidCount (scanLines now text)
  = List.length (filter isInvalidOutcome os)
  /\ List.length (acc_console (scanLines now text))
     = acc_invalidCount (scanLines now text)
  /\ List.length (cards (parseJSONL now text))
     <= List.length (filter isValidOutcome os)
  /\ List.length (filter isBlankOutcome os)
     + acc_invalidCount (scanLines now text)
     + List.length (filter isValidOutcome os)
     = List.length (linesOf text).
Proof.
  intros os. subst os.
  destruct (forEach_counts (linesOf text) 0 emptyAcc) as (Hi & Hc & Hv).
  fold (scanLines now text) in Hi, Hc, Hv. simpl in Hi, Hc, Hv.
  pose proof (outcomes_partition (outcomesFrom now 0 (linesOf text))) as Hp.
  rewrite outcomesFrom_length in Hp.
  rewrite parseJSONL_cards. repeat split; lia.
Qed.

Lemma makeCard_id index obj card :
  makeCard now index obj = Normal card ->
  id card = match get obj (js "id") with
            | Some (JNum n) => n
            | _ => (now index + Z.of_nat index)%Z
            end.
Proof.
  unfold makeCard.
  destruct (cleanText (get obj (js "lemma"))) as [dl|e]; simpl; [|discriminate].
  destruct (if truthy (get obj (js "full_form"))
            then cleanText (get obj (js "full_form")) else Normal dl)
    as [df|e]; simpl; [|discriminate].
  destruct (match get obj (js "accepted_answers_de") with
            | Some (JArr answers) =>
                mapM (fun ans => s <- cleanText (Some ans) ;;
                                 Normal (toLowerCase s)) answers
            | _ => Normal [toLowerCase dl]
            end) as [acc|e]; simpl; [|discriminate].
  intros H. injection H as <-. reflexivity.
Qed.

(** With a clock that never runs backwards, the ids generated within one
    ingestion call increase with the line index: two records without a
    numeric id never receive the same id. *)
Theorem generated_ids_increase (i j : nat) (li lj : jsstring)
  (oi oj : json) (ci cj : Card) :
  (forall a b, a <= b -> (now a <= now b)%Z) ->
  i < j ->
  JSON_parse li = Normal oi -> JSON_parse lj = Normal oj ->
  (forall n, get oi (js "id") <> Some (JNum n)) ->
  (forall n, get oj (js "id") <> Some (JNum n)) ->
  lineOutcome now i li = Valid ci ->
  lineOutcome now j lj = Valid cj ->
  (id ci < id cj)%Z.
Proof.
  intros Hmono Hlt Hpi Hpj Hni Hnj Hci Hcj.
  destruct (lineOutcome_Valid now i li ci Hci) as (oi' & Hpi' & _ & Hmi).
  destruct (lineOutcome_Valid now j lj cj Hcj) as (oj' & Hpj' & _ & Hmj).
  rewrite Hpi in Hpi'. injection Hpi' as <-.
  rewrite Hpj in Hpj'. injection Hpj' as <-.
  rewrite (makeCard_id i oi ci Hmi), (makeCard_id j oj cj Hmj).
  pose proof (Hmono i j (Nat.lt_le_incl _ _ Hlt)).
  destruct (get oi (js "id")) as [[]|]; try (now destruct (Hni z));
  destruct (get oj (js "id")) as [[]|]; try (now destruct (Hnj z0));
  try (now destruct (Hnj z)); lia.
Qed.

End IngestionMore.

Lemma parseJSONL_ignores_surrounding_white_space_witness :
  forallb isWhiteSpace [LF; SPACE; LF] = true
  /\ Samples.apfel_line <> []
  /\ trim Samples.apfel_line = Samples.apfel_line
  /\ @parseJSONL Reference.runtime (Samples.clock 1000)
       ([LF; SPACE; LF] ++ Samples.apfel_line ++ [LF])
     = @parseJSONL Reference.runtime (Samples.clock 1000) Samples.apfel_line.
Proof.
  assert (Hb : forallb isWhiteSpace [LF; SPACE; LF] = true) by reflexivity.
  assert (Ha : forallb isWhiteSpace [LF] = true) by reflexivity.
  assert (Hne : Samples.apfel_line <> [])
    by (intro H; vm_compute in H; discriminate H).
  assert (Ht : trim Samples.apfel_line = Samples.apfel_line)
    by (vm_compute; reflexivity).
  split; [exact Hb|]. split; [exact Hne|]. split; [exact Ht|].
  exact (proj2 (@parseJSONL_ignores_surrounding_white_space
                  Reference.runtime (Samples.clock 1000) Samples.apfel_line)
               [LF; SPACE; LF] [LF] Hb Ha Hne Ht).
Defined.

Lemma generated_ids_increase_witness :
  (id Samples.apfel_card < id Samples.apfel_again_card)%Z.
Proof.
  apply (@generated_ids_increase Reference.runtime (Samples.clock 1000)
           0 1 Samples.apfel_line Samples.apfel_again_line
           Samples.apfel_obj MoreSamples.apfel_again_obj
           Samples.apfel_card Samples.apfel_again_card).
  - intros a b _. unfold Samples.clock. lia.
  - lia.
  - vm_compute. reflexivity.
  - vm_compute. reflexivity.
  - intros n H. vm_compute in H. discriminate H.
  - intros n H. vm_compute in H. discriminate H.
  - vm_compute. reflexivity.
  - vm_compute. reflexivity.
Defined.

Section UsableRecords.

Context {rt : Runtime}.

Lemma cleanText_usable v :
  stringOrFalsy v = true -> exists s, cleanText (Some v) = Normal s.
Proof.
  unfold stringOrFalsy, cleanText.
  destruct (truthy (Some v)); simpl; [|eauto].
  destruct v; try discriminate. eauto.
Qed.

Lemma cleanText_unusable v :
  stringOrFalsy v = false -> cleanText (Some v) = Throw TypeError.
Proof.
  unfold stringOrFalsy, cleanText.
  destruct (truthy (Some v)); simpl; [|discriminate].
  destruct v; try reflexivity. discriminate.
Qed.

Lemma mapM_cleanText_usable answers :
  forallb stringOrFalsy answers = true ->
  exists ys, mapM (fun ans => s <- cleanText (Some ans) ;;
                              Normal (toLowerCase s)) answers = Normal ys.
Proof.
  induction answers as [|a r IH]; simpl; [eauto|].
  intros H. apply andb_true_iff in H as [Ha Hr].
  destruct (cleanText_usable a Ha) as [s ->]. simpl.
  destruct (IH Hr) as [ys ->]. simpl. eauto.
Qed.

Lemma mapM_cleanText_unusable answers :
  forallb stringOrFalsy answers = false ->
  mapM (fun ans => s <- cleanText (Some ans) ;;
                   Normal (toLowerCase s)) answers = Throw TypeError.
Proof.
  induction answers as [|a r IH]; simpl; [discriminate|].
  destruct (stringOrFalsy a) eqn:Ha; simpl.
  - intros Hr. destruct (cleanText_usable a Ha) as [s ->]. simpl.
    now rewrite (IH Hr).
  - intros _. now rewrite (cleanText_unusable a Ha).
Qed.

Lemma validateCard_lemma obj :
  validateCard obj = true -> exists s, get obj (js "lemma") = Some (JStr s).
Proof.
  unfold validateCard. destruct obj; try discriminate.
  destruct (get (JObj props) (js "lemma")) as [[]|]; try discriminate.
  eauto.
Qed.

(** Which decoded records become cards: a record that passed
    [validateCard] yields a card exactly when its [full_form] is falsy or a
    string and each supplied accepted answer is falsy or a string;
    otherwise building the card throws a TypeError, which the [catch] of
    the loop turns into one more invalid line, logged as a JSON parse error
    although the line was decoded. *)
Theorem validated_record_is_card_or_invalid_line (now : nat -> Z)
  (index : nat) (obj : json) :
  validateCard obj = true ->
  (cardFieldsUsable obj = true ->
   exists card, makeCard now index obj = Normal card)
  /\ (cardFieldsUsable obj = false ->
      makeCard now index obj = Throw TypeError
      /\ forall acc line,
           trim line <> [] -> JSON_parse line = Normal obj ->
           processLine now acc index line
           = incrInvalid
               (warn (js "JSON parse error at line " ++ ofNat (index + 1))
                     acc)).
Proof.
  intros Hvalid.
  destruct (validateCard_lemma obj Hvalid) as [raw Hraw].
  assert (Hlemma : cleanText (get obj (js "lemma"))
                   = Normal (replaceIdSuffix raw)).
  { rewrite Hraw. unfold cleanText.
    destruct raw as [|c r]; reflexivity. }
  unfold cardFieldsUsable. split.
  - intros H. apply andb_true_iff in H as [Hff Hacc].
    unfold makeCard. rewrite Hlemma. cbn [bind].
    assert (Hfull : exists df,
              (if truthy (get obj (js "full_form"))
               then cleanText (get obj (js "full_form"))
               else Normal (replaceIdSuffix raw)) = Normal df).
    { destruct (get obj (js "full_form")) as [v|].
      - destruct (truthy (Some v)); [|eauto]. now apply cleanText_usable.
      - simpl. eauto. }
    destruct Hfull as [df ->]. cbn [bind].
    assert (Hans : exists acc,
              match get obj (js "accepted_answers_de") with
              | Some (JArr answers) =>
                  mapM (fun ans => s <- cleanText (Some ans) ;;
                                   Normal (toLowerCase s)) answers
              | _ => Normal [toLowerCase (replaceIdSuffix raw)]
              end = Normal acc).
    { destruct (get obj (js "accepted_answers_de")) as [[]|]; eauto.
      now apply mapM_cleanText_usable. }
    destruct Hans as [acc ->]. cbn [bind]. eauto.
  - intros H.
    assert (Hthrow : makeCard now index obj = Throw TypeError).
    { unfold makeCard. rewrite Hlemma. cbn [bind].
      apply andb_false_iff in H as [Hff|Hacc].
      - destruct (get obj (js "full_form")) as [v|]; [|discriminate].
        assert (Ht : truthy (Some v) = true).
        { unfold stringOrFalsy in Hff.
          destruct (truthy (Some v)); [reflexivity|discriminate]. }
        rewrite Ht, (cleanText_unusable v Hff). reflexivity.
      - destruct (if truthy (get obj (js "full_form"))
                  then cleanText (get obj (js "full_form"))
                  else Normal (replaceIdSuffix raw)) as [df|e] eqn:Hfull.
        + cbn [bind].
          destruct (get obj (js "accepted_answers_de")) as [[]|];
            try discriminate.
          now rewrite (mapM_cleanText_unusable items Hacc).
        + destruct (truthy (get obj (js "full_form"))); [|discriminate].
          destruct (get obj (js "full_form")) as [v|];
            [|discriminate].
          unfold cleanText in Hfull.
          destruct (negb (truthy (Some v))); [discriminate|].
          destruct v; try discriminate; now injection Hfull as <-. }
    split; [exact Hthrow|].
    intros acc line Hline Hparse. unfold processLine, tryLine.
    destruct (trim line) as [|c r]; [now contradiction Hline|].
    cbn [List.length Nat.eqb]. rewrite Hparse. cbn [bind].
    now rewrite Hvalid, Hthrow.
Qed.

End UsableRecords.

(** A record whose [full_form] is the number 5 is counted as invalid. *)
Lemma validated_record_is_card_or_invalid_line_witness :
  validateCard MoreSamples.numeric_full_form_obj = true
  /\ cardFieldsUsable MoreSamples.numeric_full_form_obj = false
  /\ @processLine Reference.runtime (Samples.clock 1000) emptyAcc 0
       MoreSamples.numeric_full_form_line
     = incrInvalid (warn (js "JSON parse error at line 1") emptyAcc).
Proof.
  assert (Hv : validateCard MoreSamples.numeric_full_form_obj = true)
    by reflexivity.
  assert (Hu : cardFieldsUsable MoreSamples.numeric_full_form_obj = false)
    by reflexivity.
  split; [exact Hv|]. split; [exact Hu|].
  destruct (@validated_record_is_card_or_invalid_line Reference.runtime
              (Samples.clock 1000) 0 MoreSamples.numeric_full_form_obj Hv)
    as (_ & Hbad).
  destruct (Hbad Hu) as (_ & Hline).
  apply (Hline emptyAcc MoreSamples.numeric_full_form_line).
  - intro H. vm_compute in H. discriminate H.
  - vm_compute. reflexivity.
Defined.

(** ** The persistent store *)

Lemma getItem_setItem_same key value st :
  getItem key (setItem key value st) = Some value.
Proof.
  induction st as [|[k v] r IH]; simpl.
  - now rewrite jsstring_eqb_refl.
  - destruct (JsString.eqb k key) eqn:Hk; simpl; now rewrite Hk.
Qed.

Lemma getItem_setItem_other key key' value st :
  key' <> key -> getItem key' (setItem key value st) = getItem key' st.
Proof.
  intros Hne. induction st as [|[k v] r IH]; simpl.
  - destruct (JsString.eqb key key') eqn:Hk; [|reflexivity].
    apply jsstring_eqb_eq in Hk. now subst.
  - destruct (JsString.eqb k key) eqn:Hk; simpl.
    + apply jsstring_eqb_eq in Hk. subst k.
      destruct (JsString.eqb key key') eqn:Hk'; [|reflexivity].
      apply jsstring_eqb_eq in Hk'. now subst.
    + now rewrite IH.
Qed.

Lemma getItem_removeItem_same key st : getItem key (removeItem key st) = None.
Proof.
  induction st as [|[k v] r IH]; simpl; [reflexivity|].
  destruct (JsString.eqb k key) eqn:Hk; simpl; [exact IH|].
  now rewrite Hk.
Qed.

Lemma getItem_removeItem_other key key' st :
  key' <> key -> getItem key' (removeItem key st) = getItem key' st.
Proof.
  intros Hne. induction st as [|[k v] r IH]; simpl; [reflexivity|].
  destruct (JsString.eqb k key) eqn:Hk; simpl.
  - apply jsstring_eqb_eq in Hk. subst k.
    destruct (JsString.eqb key key') eqn:Hk'; [|exact IH].
    apply jsstring_eqb_eq in Hk'. now subst.
  - now rewrite IH.
Qed.

Lemma storage_keys_differ : STORAGE_KEY_MEMOS <> STORAGE_KEY_WRONG_CARDS.
Proof. intro H. vm_compute in H. discriminate H. Qed.

Lemma findById_app cardId xs ys :
  findById cardId xs = Normal false ->
  findById cardId (xs ++ ys) = findById cardId ys.
Proof.
  induction xs as [|x r IH]; simpl; [reflexivity|].
  destruct x; try discriminate; try exact IH.
  destruct (get (JObj props) (js "id")) as [[]|]; try exact IH.
  destruct (z =? cardId)%Z; [discriminate|exact IH].
Qed.

Lemma findById_card other card :
  id other = id card -> findById (id other) [cardToJson card] = Normal true.
Proof.
  intros ->. unfold findById, cardToJson, get.
  replace (lookup (js "id") _) with (Some (JNum (id card))) by reflexivity.
  now rewrite Z.eqb_refl.
Qed.

Section ReviewStore.

Context {rt : Runtime}.

(** What [saveWrongCard] reads as the stored list. *)
Lemma saveWrongCard_reads w items card :
  holdsWrongCards w items ->
  saveWrongCard card w
  = match findById (id card) items with
    | Normal false =>
        (Normal tt,
         withStorage (setItem STORAGE_KEY_WRONG_CARDS
                        (JSON_stringify (JArr (items ++ [cardToJson card]))))
                     w)
    | Normal true => (Normal tt, w)
    | Throw e => (Throw e, w)
    end.
Proof.
  unfold holdsWrongCards, saveWrongCard, bindE, localStorage_getItem, reads.
  destruct (getItem STORAGE_KEY_WRONG_CARDS (localStorage w)) as [payload|].
  - destruct (Nat.eqb (List.length payload) 0).
    + intros ->. reflexivity.
    + intros H. unfold lift. rewrite H.
      destruct (findById (id card) items) as [[]|]; reflexivity.
  - intros ->. reflexivity.
Qed.

(** The review store adds a card only when no stored card has its id: a
    card that is absent is appended to the stored list; recording it again,
    or recording any card with the same id, then leaves the store as it is;
    and the next load shows the list with the card once.  (The runtime is
    only asked to decode what it encoded.) *)
Theorem saveWrongCard_adds_a_card_once (card other : Card)
  (items : list json) (w : World) :
  holdsWrongCards w items ->
  findById (id card) items = Normal false ->
  JSON_stringify (JArr (items ++ [cardToJson card])) <> [] ->
  JSON_parse (JSON_stringify (JArr (items ++ [cardToJson card])))
  = Normal (JArr (items ++ [cardToJson card])) ->
  id other = id card ->
  let w1 := snd (saveWrongCard card w) in
  fst (saveWrongCard card w) = Normal tt
  /\ getItem STORAGE_KEY_WRONG_CARDS (localStorage w1)
     = Some (JSON_stringify (JArr (items ++ [cardToJson card])))
  /\ holdsWrongCards w1 (items ++ [cardToJson card])
  /\ saveWrongCard other w1 = (Normal tt, w1)
  /\ savedWrongCards (snd (loadWrongCards w1))
     = JArr (items ++ [cardToJson card]).
Proof.
  intros Hholds Habsent Hne Hround Hid w1. subst w1.
  rewrite (saveWrongCard_reads w items card Hholds), Habsent.
  cbn [fst snd].
  assert (Hget : getItem STORAGE_KEY_WRONG_CARDS
                   (localStorage
                      (withStorage
                         (setItem STORAGE_KEY_WRONG_CARDS
                            (JSON_stringify
                               (JArr (items ++ [cardToJson card])))) w))
                 = Some (JSON_stringify (JArr (items ++ [cardToJson card]))))
    by apply getItem_setItem_same.
  assert (Hholds' : holdsWrongCards
                      (withStorage
                         (setItem STORAGE_KEY_WRONG_CARDS
                            (JSON_stringify
                               (JArr (items ++ [cardToJson card])))) w)
                      (items ++ [cardToJson card])).
  { unfold holdsWrongCards. rewrite Hget.
    destruct (JSON_stringify (JArr (items ++ [cardToJson card])));
      [now contradiction Hne|exact Hround]. }
  split; [reflexivity|]. split; [exact Hget|]. split; [exact Hholds'|].
  split.
  - rewrite (saveWrongCard_reads _ _ other Hholds').
    rewrite Hid, (findById_app _ _ _ Habsent), <- Hid.
    now rewrite (findById_card other card Hid).
  - unfold loadWrongCards, bindE, localStorage_getItem, reads.
    rewrite Hget.
    destruct (JSON_stringify (JArr (items ++ [cardToJson card]))) eqn:Hs;
      [now contradiction Hne|].
    cbn [List.length Nat.eqb]. unfold tryCatch, bindE, lift.
    rewrite Hround. reflexivity.
Qed.

(** A quiz submission writes nothing but the quiz state and the wrong-card
    entry of the store: the memos, the loaded files, the error message, the
    console, every other store entry (the memo entry among them) and the
    in-memory review list are left as they were, so a card missed now is
    not in the review list before the next load. *)
Theorem submit_touches_only_quiz_and_wrong_cards (cards : list Card)
  (view : QuizState) (w : World) :
  let w' := snd (handleSubmit cards view w) in
  memos w' = memos w
  /\ savedWrongCards w' = savedWrongCards w
  /\ loadedFiles w' = loadedFiles w
  /\ errorMsg w' = errorMsg w
  /\ console w' = console w
  /\ (forall key, key <> STORAGE_KEY_WRONG_CARDS ->
        getItem key (localStorage w') = getItem key (localStorage w))
  /\ getItem STORAGE_KEY_MEMOS (localStorage w')
     = getItem STORAGE_KEY_MEMOS (localStorage w).
Proof.
  intros w'.
  assert (Hframe : exists q st,
            (st = localStorage w
             \/ exists v, st = setItem STORAGE_KEY_WRONG_CARDS v
                                 (localStorage w))
            /\ w' = {| quiz := q; memos := memos w;
                       savedWrongCards := savedWrongCards w;
                       loadedFiles := loadedFiles w; errorMsg := errorMsg w;
                       localStorage := st; console := console w |}).
  { subst w'. unfold handleSubmit.
    destruct (isFinished view).
    { exists (quiz w), (localStorage w). split; [now left|now destruct w]. }
    destruct (feedback view).
    2,3: unfold handleNext, bindE, setFeedback, setInput, setIsFinished,
           setCurrentIndex, modify; cbn [fst snd];
         destruct (Nat.leb (List.length cards) (currentIndex view + 1));
         cbn; eexists; exists (localStorage w); split;
         [now left|reflexivity|now left|reflexivity].
    destruct (Nat.eqb (List.length (trim (input view))) 0).
    { exists (quiz w), (localStorage w). split; [now left|now destruct w]. }
    destruct (nth_error cards (currentIndex view)) as [card|].
    2: { exists (quiz w), (localStorage w).
         split; [now left|now destruct w]. }
    unfold bindE, setStats, setFeedback, modify. cbn [fst snd].
    destruct (includes (accepted_answers_de card)
                       (normalizeAnswer (input view))); cbn [negb].
    { unfold ret. cbn. eexists. exists (localStorage w).
      split; [now left|reflexivity]. }
    match goal with
    | |- context [saveWrongCard card ?w1] =>
        set (w1' := w1);
        assert (Hsave : exists st,
                  (st = localStorage w
                   \/ exists v, st = setItem STORAGE_KEY_WRONG_CARDS v
                                       (localStorage w))
                  /\ snd (saveWrongCard card w1')
                     = withStorage (fun _ => st) w1')
    end.
    { unfold saveWrongCard, bindE, localStorage_getItem, reads.
      assert (Hsame : w1' = withStorage (fun _ => localStorage w) w1')
        by reflexivity.
      destruct (getItem STORAGE_KEY_WRONG_CARDS (localStorage w1'))
        as [payload|].
      - destruct (Nat.eqb (List.length payload) 0).
        + unfold ret. cbn [findById lift fst snd negb].
          eexists. split; [right; eexists; reflexivity|reflexivity].
        + unfold lift. destruct (JSON_parse payload) as [list|e].
          * destruct list;
              try (exists (localStorage w); split; [now left|exact Hsame]).
            destruct (findById (id card) items) as [[]|e]; cbn;
              try (exists (localStorage w); split; [now left|exact Hsame]).
            eexists. split; [right; eexists; reflexivity|reflexivity].
          * exists (localStorage w). split; [now left|exact Hsame].
      - unfold ret. cbn [findById lift fst snd negb].
        eexists. split; [right; eexists; reflexivity|reflexivity]. }
    destruct Hsave as (st & Hst & Hsnd).
    destruct (saveWrongCard card w1') as [[[]|e] w2]; cbn [fst snd] in Hsnd |- *;
      subst w2; unfold setSessionWrongCards, modify; cbn;
      eexists; exists st; (split; [exact Hst|reflexivity]). }
  destruct Hframe as (q & st & Hst & ->). cbn.
  assert (Hother : forall key, key <> STORAGE_KEY_WRONG_CARDS ->
            getItem key st = getItem key (localStorage w)).
  { intros key Hkey. destruct Hst as [->|[v ->]]; [reflexivity|].
    now apply getItem_setItem_other. }
  repeat split; try reflexivity; [exact Hother|].
  apply Hother. exact storage_keys_differ.
Qed.

(** Clearing the review list, once confirmed, removes the stored entry
    whatever it held, a payload that does not decode included, and empties
    the in-memory list; the memo entry stays; the next wrong answer is then
    recorded against an empty list and cannot fail on the old payload.
    Declining changes nothing. *)
Theorem handleClearWrongCards_resets_the_store (card : Card) (w : World) :
  let w' := snd (handleClearWrongCards true w) in
  handleClearWrongCards false w = (Normal tt, w)
  /\ fst (handleClearWrongCards true w) = Normal tt
  /\ getItem STORAGE_KEY_WRONG_CARDS (localStorage w') = None
  /\ savedWrongCards w' = JArr []
  /\ getItem STORAGE_KEY_MEMOS (localStorage w')
     = getItem STORAGE_KEY_MEMOS (localStorage w)
  /\ memos w' = memos w
  /\ fst (saveWrongCard card w') = Normal tt
  /\ getItem STORAGE_KEY_WRONG_CARDS
       (localStorage (snd (saveWrongCard card w')))
     = Some (JSON_stringify (JArr [cardToJson card])).
Proof.
  intros w'. subst w'.
  unfold handleClearWrongCards, bindE, modify, setSavedWrongCards.
  cbn [fst snd].
  assert (Hnone : getItem STORAGE_KEY_WRONG_CARDS
                    (removeItem STORAGE_KEY_WRONG_CARDS (localStorage w))
                  = None) by apply getItem_removeItem_same.
  split; [reflexivity|]. split; [reflexivity|]. split; [exact Hnone|].
  split; [reflexivity|]. split.
  { cbn. apply getItem_removeItem_other. exact storage_keys_differ. }
  split; [reflexivity|].
  match goal with
  | |- context [saveWrongCard card ?w1] =>
      assert (Hholds : holdsWrongCards w1 [])
        by (unfold holdsWrongCards, modify;
            cbn [localStorage withStorage snd]; now rewrite Hnone);
      rewrite (saveWrongCard_reads w1 [] card Hholds)
  end.
  cbn [findById fst snd app]. split; [reflexivity|].
  cbn. apply getItem_setItem_same.
Qed.

End ReviewStore.

(** The card Apfel is added to a store that holds the card Birne; a second
    card with the id of Apfel is then not added. *)
Lemma saveWrongCard_adds_a_card_once_witness :
  @holdsWrongCards Reference.runtime MoreSamples.world_with_wrong_card
     [cardToJson MoreSamples.birne_card]
  /\ findById (id Samples.apfel_card) [cardToJson MoreSamples.birne_card]
     = Normal false
  /\ id Samples.guten_tag_card = id Samples.apfel_card
  /\ @saveWrongCard Reference.runtime Samples.guten_tag_card
       (snd (@saveWrongCard Reference.runtime Samples.apfel_card
               MoreSamples.world_with_wrong_card))
     = (Normal tt,
        snd (@saveWrongCard Reference.runtime Samples.apfel_card
               MoreSamples.world_with_wrong_card)).
Proof.
  assert (H1 : @holdsWrongCards Reference.runtime
                 MoreSamples.world_with_wrong_card
                 [cardToJson MoreSamples.birne_card])
    by (vm_compute; reflexivity).
  assert (H2 : findById (id Samples.apfel_card)
                 [cardToJson MoreSamples.birne_card] = Normal false)
    by (vm_compute; reflexivity).
  assert (H3 : @JSON_stringify Reference.runtime
                 (JArr ([cardToJson MoreSamples.birne_card]
                        ++ [cardToJson Samples.apfel_card])) <> [])
    by (intro H; vm_compute in H; discriminate H).
  assert (H4 : @JSON_parse Reference.runtime
                 (@JSON_stringify Reference.runtime
                    (JArr ([cardToJson MoreSamples.birne_card]
                           ++ [cardToJson Samples.apfel_card])))
               = Normal (JArr ([cardToJson MoreSamples.birne_card]
                               ++ [cardToJson Samples.apfel_card])))
    by (vm_compute; reflexivity).
  assert (H5 : id Samples.guten_tag_card = id Samples.apfel_card)
    by reflexivity.
  split; [exact H1|]. split; [exact H2|]. split; [exact H5|].
  exact (proj1 (proj2 (proj2 (proj2
           (@saveWrongCard_adds_a_card_once Reference.runtime
              Samples.apfel_card Samples.guten_tag_card
              [cardToJson MoreSamples.birne_card]
              MoreSamples.world_with_wrong_card H1 H2 H3 H4 H5))))).
Defined.

(** ** The memo store *)

Lemma arrayIndex_inj a b n :
  arrayIndex a = Some n -> arrayIndex b = Some n -> a = b.
Proof.
  unfold arrayIndex. cbv zeta.
  destruct (forallb isDigit a); [|discriminate].
  destruct (forallb isDigit b); [|discriminate].
  destruct ((indexValue a <=? 4294967294)%N
            && JsString.eqb
                 (js (NilEmpty.string_of_uint (N.to_uint (indexValue a)))) a)
    eqn:Ha; [|discriminate].
  destruct ((indexValue b <=? 4294967294)%N
            && JsString.eqb
                 (js (NilEmpty.string_of_uint (N.to_uint (indexValue b)))) b)
    eqn:Hb; [|discriminate].
  intros H1 H2. injection H1 as H1. injection H2 as H2.
  apply andb_true_iff in Ha as [_ Ha]. apply andb_true_iff in Hb as [_ Hb].
  apply jsstring_eqb_eq in Ha, Hb. rewrite <- Ha, <- Hb, H1, H2.
  reflexivity.
Qed.

Lemma lookup_None k props : lookup k props = None <-> ~ In k (map fst props).
Proof.
  induction props as [|[k' v'] r IH]; simpl; [tauto|].
  destruct (JsString.eqb k' k) eqn:Hk.
  - apply jsstring_eqb_eq in Hk. split; [discriminate|tauto].
  - apply jsstring_eqb_neq in Hk. rewrite IH. tauto.
Qed.

Lemma map_fst_replaceProp k v props :
  map fst (replaceProp k v props) = map fst props.
Proof.
  induction props as [|[k' v'] r IH]; simpl; [reflexivity|].
  destruct (JsString.eqb k' k) eqn:Hk; simpl.
  - apply jsstring_eqb_eq in Hk. now subst.
  - now rewrite IH.
Qed.

Lemma lookup_replaceProp_same k v props x :
  lookup k props = Some x -> lookup k (replaceProp k v props) = Some v.
Proof.
  induction props as [|[k' v'] r IH]; simpl; [discriminate|].
  destruct (JsString.eqb k' k) eqn:Hk; simpl.
  - now rewrite jsstring_eqb_refl.
  - now rewrite Hk.
Qed.

Lemma lookup_replaceProp_other k k0 v props :
  k0 <> k -> lookup k0 (replaceProp k v props) = lookup k0 props.
Proof.
  intros Hne. induction props as [|[k' v'] r IH]; simpl; [reflexivity|].
  destruct (JsString.eqb k' k) eqn:Hk; simpl.
  - apply jsstring_eqb_eq in Hk. subst k'.
    destruct (JsString.eqb k k0) eqn:Hk'; [|reflexivity].
    apply jsstring_eqb_eq in Hk'. now subst.
  - now rewrite IH.
Qed.

Lemma insertIndex_perm n k v props :
  Permutation ((k, v) :: props) (insertIndex n k v props).
Proof.
  induction props as [|[k' v'] r IH]; simpl; [apply Permutation_refl|].
  destruct (arrayIndex k') as [m|]; [|apply Permutation_refl].
  destruct (m <? n)%N; [|apply Permutation_refl].
  eapply Permutation_trans; [apply perm_swap|]. now apply perm_skip.
Qed.

Lemma lookup_insertIndex_same n k v props :
  arrayIndex k = Some n -> lookup k (insertIndex n k v props) = Some v.
Proof.
  intros Hk. induction props as [|[k' v'] r IH]; simpl.
  - now rewrite jsstring_eqb_refl.
  - destruct (arrayIndex k') as [m|] eqn:Hk'; simpl;
      [|now rewrite jsstring_eqb_refl].
    destruct (N.ltb_spec m n) as [Hlt|Hge]; simpl;
      [|now rewrite jsstring_eqb_refl].
    destruct (JsString.eqb k' k) eqn:E; [|exact IH].
    apply jsstring_eqb_eq in E. subst k'. rewrite Hk in Hk'.
    injection Hk' as ->. lia.
Qed.

Lemma lookup_insertIndex_other n k k0 v props :
  k0 <> k -> lookup k0 (insertIndex n k v props) = lookup k0 props.
Proof.
  intros Hne.
  assert (Hhead : forall rest,
            lookup k0 ((k, v) :: rest) = lookup k0 rest).
  { intros rest. simpl. destruct (JsString.eqb k k0) eqn:E; [|reflexivity].
    apply jsstring_eqb_eq in E. now subst. }
  induction props as [|[k' v'] r IH]; [apply Hhead|].
  cbn [insertIndex].
  destruct (arrayIndex k') as [m|]; [|apply Hhead].
  destruct (m <? n)%N; [|apply Hhead].
  simpl. now rewrite IH.
Qed.

Lemma lookup_app_other k0 k v props :
  k0 <> k -> lookup k0 (props ++ [(k, v)]) = lookup k0 props.
Proof.
  intros Hne. induction props as [|[k' v'] r IH]; simpl.
  - destruct (JsString.eqb k k0) eqn:E; [|reflexivity].
    apply jsstring_eqb_eq in E. now subst.
  - now rewrite IH.
Qed.

Lemma lookup_app_new k v props :
  lookup k props = None -> lookup k (props ++ [(k, v)]) = Some v.
Proof.
  induction props as [|[k' v'] r IH]; simpl.
  - now rewrite jsstring_eqb_refl.
  - destruct (JsString.eqb k' k); [discriminate|exact IH].
Qed.

(** Reading back the property that was set, and any other one. *)
Lemma lookup_setProp_same k v props : lookup k (setProp k v props) = Some v.
Proof.
  unfold setProp. destruct (lookup k props) as [x|] eqn:Hl.
  - exact (lookup_replaceProp_same k v props x Hl).
  - destruct (arrayIndex k) as [n|] eqn:Hk.
    + now apply lookup_insertIndex_same.
    + now apply lookup_app_new.
Qed.

Lemma lookup_setProp_other k k0 v props :
  k0 <> k -> lookup k0 (setProp k v props) = lookup k0 props.
Proof.
  intros Hne. unfold setProp. destruct (lookup k props) as [x|].
  - now apply lookup_replaceProp_other.
  - destruct (arrayIndex k) as [n|].
    + now apply lookup_insertIndex_other.
    + now apply lookup_app_other.
Qed.

Lemma insertIndex_sorted n k v props :
  arrayIndex k = Some n -> ~ In k (map fst props) ->
  Sorted keyBefore (map fst props) ->
  Sorted keyBefore (map fst (insertIndex n k v props)).
Proof.
  intros Hk. induction props as [|[k' v'] r IH]; intros Hnin Hs.
  - repeat constructor.
  - cbn [map fst] in Hnin, Hs.
    inversion Hs as [|? ? Hs' Hhd]; subst. cbn [insertIndex].
    assert (Hnew : arrayIndex k' = None -> keyBefore k k')
      by (intros E; unfold keyBefore; now rewrite Hk, E).
    destruct (arrayIndex k') as [m|] eqn:Hk'.
    + destruct (N.ltb_spec m n) as [Hlt|Hge].
      * assert (Hkk : keyBefore k' k)
          by (unfold keyBefore; now rewrite Hk', Hk).
        cbn [map fst]. constructor.
        { apply IH; [|exact Hs']. intros Hin. apply Hnin. now right. }
        destruct r as [|[k2 v2] r']; cbn [insertIndex map fst].
        -- now constructor.
        -- inversion Hhd; subst.
           destruct (arrayIndex k2) as [m2|];
             [destruct (m2 <? n)%N|]; cbn [map fst]; now constructor.
      * cbn [map fst]. constructor; [exact Hs|]. constructor.
        unfold keyBefore. rewrite Hk, Hk'.
        assert (m <> n).
        { intros ->. apply Hnin. left.
          exact (arrayIndex_inj _ _ _ Hk' Hk). }
        lia.
    + cbn [map fst]. constructor; [exact Hs|]. constructor.
      now apply Hnew.
Qed.

Lemma sorted_app_last (k : jsstring) keys :
  (forall a, keyBefore a k) ->
  Sorted keyBefore keys -> Sorted keyBefore (keys ++ [k]).
Proof.
  intros Hk. induction 1 as [|a l Hl IH Hhd]; simpl.
  - repeat constructor.
  - constructor; [exact IH|].
    destruct Hhd; simpl; constructor; [apply Hk|assumption].
Qed.

(** Setting a property keeps the list in the order of enumeration. *)
Lemma setProp_enumerationOrder k v props :
  enumerationOrder props -> enumerationOrder (setProp k v props).
Proof.
  unfold enumerationOrder, setProp. intros [Hnd Hs].
  destruct (lookup k props) as [x|] eqn:Hl.
  - rewrite map_fst_replaceProp. now split.
  - apply lookup_None in Hl.
    destruct (arrayIndex k) as [n|] eqn:Hk.
    + split; [|now apply insertIndex_sorted].
      eapply Permutation_NoDup;
        [apply Permutation_map, insertIndex_perm|].
      cbn [map fst]. now constructor.
    + rewrite map_app. cbn [map fst]. split.
      * apply NoDup_app; [exact Hnd|repeat constructor; intros []|].
        intros a Ha [<-|[]]. now apply Hl.
      * apply sorted_app_last; [|exact Hs].
        intros a. unfold keyBefore. rewrite Hk.
        now destruct (arrayIndex a).
Qed.

Section MemoStore.

Context {rt : Runtime}.

(** A memo of at most 30 code units is stored under its card: reading the
    memo of that card gives the new text, the memo of every other card is
    what it was, the memos stay in the order in which the engine enumerates
    them (so a new card id that is an array index is written before the
    greater ones), the store entry of the memos is the encoded new mapping
    and the wrong-card entry is untouched; and loading the memos again
    gives back the same mapping (the runtime is only asked to decode what
    it encoded). *)
Theorem handleMemoChange_stores_the_memo (cardId : Z) (text : jsstring)
  (w : World) :
  List.length text <= 30 ->
  let w' := snd (handleMemoChange cardId text w) in
  fst (handleMemoChange cardId text w) = Normal tt
  /\ get (memos w') (ofZ cardId) = Some (JStr text)
  /\ (forall other, other <> cardId ->
        get (memos w') (ofZ other) = lookup (ofZ other) (spread (memos w)))
  /\ getItem STORAGE_KEY_MEMOS (localStorage w')
     = Some (JSON_stringify (memos w'))
  /\ getItem STORAGE_KEY_WRONG_CARDS (localStorage w')
     = getItem STORAGE_KEY_WRONG_CARDS (localStorage w)
  /\ (JSON_stringify (memos w') <> [] ->
      JSON_parse (JSON_stringify (memos w')) = Normal (memos w') ->
      loadMemos w' = (Normal tt, w'))
  /\ (exists props, memos w' = JObj props
                    /\ (enumerationOrder (spread (memos w)) ->
                        enumerationOrder props)
                    /\ (lookup (ofZ cardId) (spread (memos w)) <> None ->
                        map fst props = map fst (spread (memos w)))
                    /\ Permutation (map fst props)
                         match lookup (ofZ cardId) (spread (memos w)) with
                         | Some _ => map fst (spread (memos w))
                         | None => ofZ cardId :: map fst (spread (memos w))
                         end).
Proof.
  intros Hlen w'. subst w'. unfold handleMemoChange.
  replace (Nat.ltb 30 (List.length text)) with false
    by (symmetry; apply Nat.ltb_ge; exact Hlen).
  unfold bindE, reads, setMemos, localStorage_setItem, modify.
  cbn [fst snd memos localStorage withStorage get].
  split; [reflexivity|]. split; [apply lookup_setProp_same|]. split.
  { intros other Hother. apply lookup_setProp_other.
    intros H. apply ofZ_inj in H. now contradiction Hother. }
  split; [apply getItem_setItem_same|]. split.
  { apply getItem_setItem_other. intro H. symmetry in H.
    exact (storage_keys_differ H). }
  split.
  { intros Hne Hround.
    unfold loadMemos, bindE, localStorage_getItem, reads.
    cbn [localStorage withStorage]. rewrite getItem_setItem_same.
    destruct (JSON_stringify _) eqn:Hs; [now contradiction Hne|].
    cbn [List.length Nat.eqb]. unfold tryCatch, bindE, lift.
    rewrite Hround. reflexivity. }
  eexists. split; [reflexivity|].
  split; [apply setProp_enumerationOrder|]. unfold setProp.
  destruct (lookup (ofZ cardId) (spread (memos w))) as [x|] eqn:Hl.
  - rewrite map_fst_replaceProp. split; [reflexivity|].
    apply Permutation_refl.
  - split; [intros H; now contradiction H|].
    destruct (arrayIndex (ofZ cardId)) as [n|].
    + apply Permutation_sym.
      apply (Permutation_map fst
               (insertIndex_perm n (ofZ cardId) (JStr text)
                  (spread (memos w)))).
    + rewrite map_app. cbn [map fst]. apply Permutation_sym.
      apply Permutation_cons_append.
Qed.

End MemoStore.

(** A memo for card 7 when card 1000 has one: the new entry is written
    before the entry of card 1000, and is read back. *)
Lemma handleMemoChange_stores_the_memo_witness :
  List.length MoreSamples.birne_memo <= 30
  /\ memos (snd (@handleMemoChange Reference.runtime 7
                   MoreSamples.birne_memo Samples.world_with_memo))
     = JObj [ (js "7", JStr (js "die Birne"));
              (js "1000", JStr (js "der Apfel")) ]
  /\ getItem STORAGE_KEY_MEMOS
       (localStorage
          (snd (@handleMemoChange Reference.runtime 7
                  MoreSamples.birne_memo Samples.world_with_memo)))
     = Some (jsq "{'7':'die Birne','1000':'der Apfel'}")
  /\ @loadMemos Reference.runtime
       (snd (@handleMemoChange Reference.runtime 7 MoreSamples.birne_memo
               Samples.world_with_memo))
     = (Normal tt,
        snd (@handleMemoChange Reference.runtime 7 MoreSamples.birne_memo
               Samples.world_with_memo)).
Proof.
  assert (H : List.length MoreSamples.birne_memo <= 30)
    by (vm_compute; lia).
  destruct (@handleMemoChange_stores_the_memo Reference.runtime 7
              MoreSamples.birne_memo Samples.world_with_memo H)
    as (_ & _ & _ & Hstore & _ & Hload & _).
  split; [exact H|]. split; [vm_compute; reflexivity|]. split.
  - rewrite Hstore. vm_compute. reflexivity.
  - apply Hload.
    + intro E. vm_compute in E. discriminate E.
    + vm_compute. reflexivity.
Defined.

(** ** A quiz session *)

Section QuizSession.

Context {rt : Runtime}.

(** The quiz state after a judged submission. *)
Lemma handleSubmit_judged_state cards view w card :
  isFinished view = false -> feedback view = Idle ->
  trim (input view) <> [] ->
  nth_error cards (currentIndex view) = Some card ->
  let isCorrect := includes (accepted_answers_de card)
                            (normalizeAnswer (input view)) in
  exists wrong,
    quiz (snd (handleSubmit cards view w))
    = {| currentIndex := currentIndex (quiz w);
         input := input (quiz w);
         feedback := if isCorrect then Correct else Incorrect;
         stats := {| total := total (stats (quiz w)) + 1;
                     correct := if isCorrect
                                then correct (stats (quiz w)) + 1
                                else correct (stats (quiz w)) |};
         isFinished := isFinished (quiz w);
         sessionWrongCards := wrong |}
    /\ (wrong = sessionWrongCards (quiz w)
        \/ (isCorrect = false
            /\ wrong = sessionWrongCards (quiz w) ++ [card])).
Proof.
  intros Hfin Hidle Hinput Hcard isCorrect.
  unfold handleSubmit. rewrite Hfin, Hidle, Hcard.
  destruct (trim (input view)) as [|c r] eqn:Htrim; [now contradiction Hinput|].
  cbn [List.length Nat.eqb]. fold isCorrect.
  unfold bindE, setStats, setFeedback, modify. cbn [fst snd].
  destruct isCorrect eqn:Hok; cbn [negb].
  - unfold ret. cbn. eexists. split; [reflexivity|now left].
  - match goal with
    | |- context [saveWrongCard card ?w1] =>
        pose proof (saveWrongCard_quiz card w1) as Hq;
        destruct (saveWrongCard card w1) as [[[]|e] w2]
    end; cbn [fst snd] in Hq |- *.
    + unfold setSessionWrongCards, modify. cbn. rewrite Hq. cbn.
      eexists. split; [reflexivity|right; now split].
    + rewrite Hq. cbn. eexists. split; [reflexivity|now left].
Qed.

Lemma quizStep_invariant cards w ev :
  quizInvariant cards (quiz w) ->
  quizInvariant cards (quiz (quizStep cards w ev)).
Proof.
  intros Hinv. destruct ev as [text|]; simpl.
  - destruct (feedback (quiz w)) eqn:Hf; [|exact Hinv|exact Hinv].
    unfold quizInvariant in *. cbn. rewrite Hf in Hinv |- *. exact Hinv.
  - unfold submit.
    destruct Hinv as (Hidx & Hle & Htot & Hwrong & Hin & Hdone).
    destruct (isFinished (quiz w)) eqn:Hfin.
    { unfold handleSubmit. rewrite Hfin. cbn.
      unfold quizInvariant. rewrite Hfin. now repeat split. }
    destruct (feedback (quiz w)) eqn:Hf.
    + (* idle: the input is judged, or ignored when blank *)
      destruct (trim (input (quiz w))) as [|c r] eqn:Htrim.
      { unfold handleSubmit. rewrite Hfin, Hf, Htrim. cbn.
        unfold quizInvariant. rewrite Hfin, Hf. now repeat split. }
      destruct (nth_error cards (currentIndex (quiz w))) as [card|] eqn:Hc.
      2: { apply nth_error_None in Hc. lia. }
      assert (Hne : trim (input (quiz w)) <> []) by now rewrite Htrim.
      destruct (handleSubmit_judged_state cards (quiz w) w card
                  Hfin Hf Hne Hc) as (wrong & Hq & Hw).
      rewrite Hq. clear Hq.
      assert (Hcard : In card cards) by (eapply nth_error_In; eauto).
      unfold quizInvariant. cbn. rewrite Hfin.
      destruct (includes (accepted_answers_de card)
                         (normalizeAnswer (input (quiz w)))).
      { destruct Hw as [->|[Hf' _]]; [|discriminate].
        repeat split; try lia; try assumption; try discriminate. }
      destruct Hw as [->|[_ ->]].
      { repeat split; try lia; try assumption; try discriminate. }
      rewrite length_app. cbn.
      repeat split; try lia; try discriminate.
      apply Forall_app. split; [assumption|now constructor].
    + unfold handleSubmit. rewrite Hfin, Hf.
      unfold handleNext, bindE, setFeedback, setInput, setIsFinished,
             setCurrentIndex, modify. cbn [fst snd].
      destruct (Nat.leb_spec (List.length cards) (currentIndex (quiz w) + 1));
        unfold quizInvariant; cbn; rewrite ?Hfin; repeat split; try lia;
        try assumption; try discriminate.
    + unfold handleSubmit. rewrite Hfin, Hf.
      unfold handleNext, bindE, setFeedback, setInput, setIsFinished,
             setCurrentIndex, modify. cbn [fst snd].
      destruct (Nat.leb_spec (List.length cards) (currentIndex (quiz w) + 1));
        unfold quizInvariant; cbn; rewrite ?Hfin; repeat split; try lia;
        try assumption; try discriminate.
Qed.

Lemma quizRun_invariant cards evs w :
  quizInvariant cards (quiz w) ->
  quizInvariant cards (quiz (quizRun cards evs w)).
Proof.
  unfold quizRun. revert w. induction evs as [|ev evs IH]; intros w H; simpl.
  - exact H.
  - apply IH. now apply quizStep_invariant.
Qed.

(** Throughout a session on a non-empty card list, whatever is typed and
    however often the form is submitted: the current card exists, the
    attempts are the cards passed plus the one under feedback, the correct
    answers and the session's wrong cards together never exceed the
    attempts, and every wrong card is a card of the session; when the
    session is finished every card was attempted exactly once, so the score
    is computed from a positive total. *)
Theorem quiz_session_invariant (cards : list Card) (evs : list QuizEvent)
  (w : World) :
  cards <> [] -> quiz w = initialQuizState ->
  let q := quiz (quizRun cards evs w) in
  (exists card, nth_error cards (currentIndex q) = Some card)
  /\ quizInvariant cards q
  /\ (isFinished q = true ->
      total (stats q) = List.length cards /\ 0 < total (stats q)).
Proof.
  intros Hne Hinit q.
  assert (Hinv : quizInvariant cards q).
  { apply quizRun_invariant. rewrite Hinit. unfold quizInvariant. cbn.
    destruct cards; [now contradiction Hne|].
    cbn. repeat split; try lia; try constructor; try discriminate. }
  pose proof Hinv as (Hidx & _ & Htot & _ & _ & Hdone).
  split; [|split; [exact Hinv|]].
  - destruct (nth_error cards (currentIndex q)) as [card|] eqn:Hc; [eauto|].
    apply nth_error_None in Hc. lia.
  - intros Hfin. rewrite Hfin in Htot. specialize (Hdone Hfin). lia.
Qed.

End QuizSession.

(** A session on the cards Apfel and guten Tag: a correct answer, a wrong
    one, and the two submissions that move on. *)
Lemma quiz_session_invariant_witness :
  let q := quiz (@quizRun Reference.runtime
                   [Samples.apfel_card; Samples.guten_tag_card]
                   [TypeInput (js "apfel"); SubmitForm; SubmitForm;
                    TypeInput (js "guten Tag"); SubmitForm; SubmitForm]
                   initialWorld) in
  isFinished q = true
  /\ stats q = {| total := 2; correct := 1 |}
  /\ sessionWrongCards q = [Samples.guten_tag_card]
  /\ total (stats q) = 2.
Proof.
  intros q.
  assert (Hfin : isFinished q = true) by (vm_compute; reflexivity).
  split; [exact Hfin|]. split; [vm_compute; reflexivity|].
  split; [vm_compute; reflexivity|].
  assert (Hne : [Samples.apfel_card; Samples.guten_tag_card] <> [])
    by discriminate.
  destruct (@quiz_session_invariant Reference.runtime
              [Samples.apfel_card; Samples.guten_tag_card]
              [TypeInput (js "apfel"); SubmitForm; SubmitForm;
               TypeInput (js "guten Tag"); SubmitForm; SubmitForm]
              initialWorld Hne eq_refl) as (_ & _ & Hdone).
  exact (proj1 (Hdone Hfin)).
Defined.

(** ** The library of loaded files *)

Lemma filter_all {A} (p : A -> bool) xs :
  (forall x, In x xs -> p x = true) -> filter p xs = xs.
Proof.
  induction xs as [|x r IH]; intros H; simpl; [reflexivity|].
  rewrite (H x (or_introl eq_refl)). f_equal. apply IH.
  intros y Hy. apply H. now right.
Qed.

Section LibraryFiles.

Context {rt : Runtime}.

Lemma parseJSONL_no_cards_error now text :
  cards (parseJSONL now text) = [] ->
  error (parseJSONL now text) = Some MSG_NO_CARDS.
Proof.
  unfold parseJSONL.
  destruct (Nat.eqb _ 0) eqn:H0; [reflexivity|].
  destruct (_ && _); simpl; intros Hc; rewrite Hc in H0; discriminate.
Qed.

(** An upload adds one file, holding the cards of the text, exactly when
    ingestion returned a card, and then shows no message, not even the
    warning that ingestion returned about invalid lines; when no card was
    returned the library is unchanged and the message is the no-card
    error.  The warnings of ingestion go to the console, and nothing is
    written to the store. *)
Theorem processAndUpload_adds_file_or_shows_error (now : nat -> Z)
  (fileId name : jsstring) (timestamp : Z) (text : jsstring) (w : World) :
  let r := parseJSONL now text in
  let w' := snd (processAndUpload now fileId name timestamp text w) in
  fst (processAndUpload now fileId name timestamp text w) = Normal tt
  /\ (cards r <> [] ->
      loadedFiles w'
      = loadedFiles w ++ [ {| file_id := fileId; file_name := name;
                              file_cards := cards r;
                              file_timestamp := timestamp |} ]
      /\ errorMsg w' = None)
  /\ (cards r = [] ->
      loadedFiles w' = loadedFiles w /\ errorMsg w' = Some MSG_NO_CARDS)
  /\ console w' = console w ++ acc_console (scanLines now text)
  /\ localStorage w' = localStorage w
  /\ quiz w' = quiz w /\ memos w' = memos w.
Proof.
  intros r w'. subst r w'.
  unfold processAndUpload, bindE, setErrorMsg, console_warnAll, modify.
  cbn [fst snd].
  destruct (cards (parseJSONL now text)) as [|c cs] eqn:Hc.
  - cbn [List.length Nat.ltb Nat.leb]. cbn [fst snd].
    rewrite (parseJSONL_no_cards_error now text Hc).
    replace (Nat.eqb (List.length MSG_NO_CARDS) 0) with false
      by (vm_compute; reflexivity).
    cbn. split; [reflexivity|]. split; [intros Hne; now contradiction Hne|].
    now repeat split.
  - cbn [List.length Nat.ltb Nat.leb].
    unfold handleAddFile, setLoadedFiles, modify. cbn.
    split; [reflexivity|]. split; [now split|].
    split; [intros Hnil; discriminate Hnil|]. now repeat split.
Qed.

Lemma filter_withoutFile fileId files :
  withoutFile fileId files
    (filter (fun f => negb (JsString.eqb (file_id f) fileId)) files).
Proof.
  induction files as [|f files IH]; simpl; [constructor|].
  destruct (JsString.eqb (file_id f) fileId) eqn:Hf; simpl.
  - apply jsstring_eqb_eq in Hf. now constructor.
  - apply jsstring_eqb_neq in Hf. now constructor.
Qed.

(** Removing a file id removes every loaded file with that id and keeps
    the others in their order, with their cards: the library becomes the
    list without the files of that id, in particular the files before and
    after the one removed, in that order; adding a file whose id is not yet
    in the library and then removing it gives the library back. *)
Theorem handleRemoveFile_removes_files_by_id (fileId : jsstring) (w : World) :
  let w' := snd (handleRemoveFile fileId w) in
  (forall f, In f (loadedFiles w')
             <-> In f (loadedFiles w) /\ file_id f <> fileId)
  /\ (forall c, In c (allCards w')
                <-> exists f, In f (loadedFiles w) /\ file_id f <> fileId
                              /\ In c (file_cards f))
  /\ ((forall f, In f (loadedFiles w) -> file_id f <> fileId) ->
      loadedFiles w' = loadedFiles w)
  /\ (forall file,
        file_id file = fileId ->
        (forall f, In f (loadedFiles w) -> file_id f <> fileId) ->
        loadedFiles (snd (handleRemoveFile fileId
                            (snd (handleAddFile file w))))
        = loadedFiles w)
  /\ withoutFile fileId (loadedFiles w) (loadedFiles w')
  /\ (forall before file after,
        loadedFiles w = before ++ file :: after ->
        file_id file = fileId ->
        (forall f, In f before -> file_id f <> fileId) ->
        (forall f, In f after -> file_id f <> fileId) ->
        loadedFiles w' = before ++ after
        /\ allCards w'
           = flat_map file_cards before ++ flat_map file_cards after).
Proof.
  intros w'. subst w'.
  unfold handleRemoveFile, handleAddFile, setLoadedFiles, modify, allCards.
  cbn [fst snd loadedFiles].
  assert (Hkeep : forall f, negb (JsString.eqb (file_id f) fileId) = true
                            <-> file_id f <> fileId).
  { intros f. rewrite negb_true_iff. apply jsstring_eqb_neq. }
  split; [|split; [|split; [|split; [|split]]]].
  - intros f. rewrite filter_In. now rewrite Hkeep.
  - intros c. rewrite in_flat_map. split.
    + intros (f & Hf & Hc). apply filter_In in Hf as [Hf Hk].
      exists f. rewrite <- Hkeep. now repeat split.
    + intros (f & Hf & Hk & Hc). exists f. split; [|exact Hc].
      apply filter_In. now rewrite Hkeep.
  - intros Hfresh. apply filter_all. intros f Hf. apply Hkeep.
    now apply Hfresh.
  - intros file Hid Hfresh. rewrite filter_app. simpl.
    replace (JsString.eqb (file_id file) fileId) with true
      by (symmetry; now apply jsstring_eqb_eq).
    simpl. rewrite app_nil_r. apply filter_all. intros f Hf. apply Hkeep.
    now apply Hfresh.
  - apply filter_withoutFile.
  - intros before file after Hfiles Hid Hbefore Hafter.
    assert (Hres : filter (fun f => negb (JsString.eqb (file_id f) fileId))
                     (loadedFiles w) = before ++ after).
    { rewrite Hfiles, filter_app. simpl.
      replace (JsString.eqb (file_id file) fileId) with true
        by (symmetry; now apply jsstring_eqb_eq).
      simpl. f_equal; apply filter_all; intros f Hf; apply Hkeep;
        [now apply Hbefore|now apply Hafter]. }
    rewrite Hres. split; [reflexivity|]. apply flat_map_app.
Qed.

End LibraryFiles.

(** Three files of which the second is removed: the first and the third
    remain, in that order. *)
Lemma handleRemoveFile_removes_files_by_id_witness :
  let first := MoreSamples.named_file (js "F1") in
  let second := MoreSamples.named_file (js "F2") in
  let third := MoreSamples.named_file (js "F3") in
  let w := snd (@handleAddFile third
                  (snd (@handleAddFile second
                          (snd (@handleAddFile first initialWorld))))) in
  loadedFiles w = [first] ++ second :: [third]
  /\ loadedFiles (snd (@handleRemoveFile (js "F2") w)) = [first] ++ [third].
Proof.
  intros first second third w.
  assert (H : loadedFiles w = [first] ++ second :: [third]) by reflexivity.
  split; [exact H|].
  destruct (handleRemoveFile_removes_files_by_id (js "F2") w)
    as (_ & _ & _ & _ & _ & Horder).
  apply (proj1 (Horder [first] second [third] H eq_refl
                  ltac:(intros f [<-|[]] E; vm_compute in E; discriminate E)
                  ltac:(intros f [<-|[]] E; vm_compute in E; discriminate E))).
Defined.

(** The text with one malformed line and three equal records: a card
    survives, the file is added, and the warning is not shown. *)
Lemma processAndUpload_adds_file_or_shows_error_witness :
  cards (@parseJSONL Reference.runtime (Samples.clock 1000)
           Samples.one_bad_three_equal) <> []
  /\ error (@parseJSONL Reference.runtime (Samples.clock 1000)
              Samples.one_bad_three_equal) <> None
  /\ errorMsg (snd (@processAndUpload Reference.runtime (Samples.clock 1000)
                      (js "f1") (js "words.jsonl") 1000
                      Samples.one_bad_three_equal initialWorld)) = None.
Proof.
  assert (H : cards (@parseJSONL Reference.runtime (Samples.clock 1000)
                       Samples.one_bad_three_equal) <> [])
    by (vm_compute; discriminate).
  split; [exact H|]. split; [vm_compute; discriminate|].
  destruct (@processAndUpload_adds_file_or_shows_error Reference.runtime
              (Samples.clock 1000) (js "f1") (js "words.jsonl") 1000
              Samples.one_bad_three_equal initialWorld)
    as (_ & Hadd & _).
  exact (proj2 (Hadd H)).
Defined.

(** ** Selecting the cards to study and to quiz *)

Lemma strictEqualsString_true v s :
  strictEqualsString v s = true <-> v = JStr s.
Proof.
  destruct v; simpl; try (split; [discriminate|congruence]).
  rewrite jsstring_eqb_eq. split; congruence.
Qed.

Lemma languageCards_In allCards lang c :
  In c (languageCards allCards lang)
  <-> In c allCards /\ cardLanguage c = JStr lang.
Proof.
  unfold languageCards. rewrite filter_In.
  now rewrite strictEqualsString_true.
Qed.

Lemma levelCards_In cards lvl c :
  In c (levelCards cards lvl) <-> In c cards /\ level c = JStr lvl.
Proof.
  unfold levelCards. rewrite filter_In. now rewrite strictEqualsString_true.
Qed.

Lemma studyPool_In allCards lang lvl c :
  In c (studyPool allCards lang lvl)
  <-> In c allCards /\ cardLanguage c = JStr lang
      /\ (lvl = js "ALL" \/ level c = JStr lvl).
Proof.
  unfold studyPool. destruct (JsString.eqb lvl (js "ALL")) eqn:Hall.
  - apply jsstring_eqb_eq in Hall. rewrite languageCards_In. tauto.
  - apply jsstring_eqb_neq in Hall.
    rewrite levelCards_In, languageCards_In. tauto.
Qed.

Lemma startLearning_pool sortRandom allCards lang st :
  LearningView.startLearning sortRandom allCards lang st
  = let pool := studyPool allCards lang (LearningView.targetLevel st) in
    if Nat.eqb (List.length pool) 0
    then LearningView.alert (js "해당 난이도의 단어가 없습니다.") st
    else LearningView.setMode LearningView.STUDY
           (LearningView.setCurrentIndex (fun _ => 0)
              (LearningView.setStudyCards
                 (if LearningView.isShuffle st then sortRandom pool
                  else pool) st)).
Proof.
  unfold LearningView.startLearning, studyPool.
  now destruct (JsString.eqb (LearningView.targetLevel st) (js "ALL")).
Qed.

(** Starting a study session: when no card of the selected language has
    the target level (any level for ALL), the user is alerted and nothing
    else changes; otherwise the study mode starts at the first card, on
    exactly the matching cards: in their order of the library when
    shuffling is off, rearranged when it is on. *)
Theorem startLearning_studies_the_matching_cards
  (sortRandom : list Card -> list Card) (allCards : list Card)
  (lang : jsstring) (st : LearningView.State) :
  let pool := studyPool allCards lang (LearningView.targetLevel st) in
  let st' := LearningView.startLearning sortRandom allCards lang st in
  Permutation pool (sortRandom pool) ->
  (forall c, In c pool
             <-> In c allCards /\ cardLanguage c = JStr lang
                 /\ (LearningView.targetLevel st = js "ALL"
                     \/ level c = JStr (LearningView.targetLevel st)))
  /\ (pool = [] ->
      st' = LearningView.alert (js "해당 난이도의 단어가 없습니다.") st)
  /\ (pool <> [] ->
      LearningView.mode st' = LearningView.STUDY
      /\ LearningView.currentIndex st' = 0
      /\ Permutation pool (LearningView.studyCards st')
      /\ (LearningView.isShuffle st = false ->
          LearningView.studyCards st' = pool)
      /\ LearningView.alerts st' = LearningView.alerts st).
Proof.
  intros pool st' Hperm.
  split; [intros c; apply studyPool_In|].
  subst st'. rewrite startLearning_pool. fold pool. cbv zeta.
  destruct pool as [|c cs] eqn:Hp.
  - split; [reflexivity|]. intros H. now contradiction H.
  - split; [discriminate|]. intros _. cbn [List.length Nat.eqb].
    destruct (LearningView.isShuffle st); cbn.
    + repeat split; [exact Hperm|discriminate].
    + repeat split. apply Permutation_refl.
Qed.

Section StudyNavigation.

Variable sortRandom : list Card -> list Card.
Variable allCards : list Card.
Variable lang : jsstring.
Hypothesis sortRandom_permutes : forall l, Permutation l (sortRandom l).

Lemma studyPool_language_cards lvl c :
  In c (studyPool allCards lang lvl) -> In c (languageCards allCards lang).
Proof.
  rewrite studyPool_In, languageCards_In. tauto.
Qed.

Lemma step_studyInvariant st ev :
  studyInvariant allCards lang st ->
  studyInvariant allCards lang
    (LearningView.step sortRandom allCards lang st ev).
Proof.
  intros [Hcards Hidx]. destruct ev; simpl.
  - split; assumption.
  - split; assumption.
  - rewrite startLearning_pool. cbv zeta.
    destruct (studyPool allCards lang (LearningView.targetLevel st))
      as [|c cs] eqn:Hp; cbn [List.length Nat.eqb].
    + split; assumption.
    + assert (Hperm : Permutation (c :: cs)
                        (if LearningView.isShuffle st
                         then sortRandom (c :: cs) else c :: cs)).
      { destruct (LearningView.isShuffle st);
          [apply sortRandom_permutes|apply Permutation_refl]. }
      split; cbn.
      * apply Forall_forall. intros x Hx.
        apply (studyPool_language_cards (LearningView.targetLevel st)).
        rewrite Hp. eapply Permutation_in; [apply Permutation_sym|];
          eassumption.
      * intros _. apply Permutation_length in Hperm. rewrite <- Hperm.
        simpl. lia.
  - unfold LearningView.handleKeyDown.
    destruct (LearningView.mode st) eqn:Hm;
      [split; [assumption|intros; congruence]|].
    specialize (Hidx eq_refl).
    destruct inputFocused; [split; [assumption|intros _; assumption]|].
    destruct key; try (split; [assumption|intros _; assumption]).
    1,2,3: destruct (Nat.ltb (LearningView.currentIndex st)
                       (List.length (LearningView.studyCards st) - 1))
             eqn:E;
           [apply Nat.ltb_lt in E|apply Nat.ltb_ge in E];
           (split; cbn; [assumption|intros _; lia]).
    destruct (Nat.ltb 0 (LearningView.currentIndex st)) eqn:E;
      [apply Nat.ltb_lt in E|apply Nat.ltb_ge in E];
      (split; cbn; [assumption|intros _; lia]).
  - unfold LearningView.clickPrevious.
    destruct (Nat.ltb 0 (LearningView.currentIndex st)) eqn:E;
      [apply Nat.ltb_lt in E|apply Nat.ltb_ge in E];
      (split; cbn; [assumption|intros Hm; specialize (Hidx Hm); lia]).
  - unfold LearningView.clickNext.
    destruct (Nat.ltb (LearningView.currentIndex st)
                (List.length (LearningView.studyCards st) - 1)) eqn:E;
      [apply Nat.ltb_lt in E|apply Nat.ltb_ge in E];
      (split; cbn; [assumption|intros Hm; specialize (Hidx Hm); lia]).
  - split; [assumption|discriminate].
Qed.

(** In the study view, whatever the user does (choosing a level, toggling
    the shuffle, starting, the keys, the buttons), the card shown in study
    mode exists: the current index stays within the study cards, and these
    are cards of the selected language. *)
Theorem study_navigation_stays_in_bounds (evs : list LearningView.Event) :
  let st := LearningView.run sortRandom allCards lang evs
              LearningView.initialState in
  Forall (fun c => In c allCards /\ cardLanguage c = JStr lang)
         (LearningView.studyCards st)
  /\ (LearningView.mode st = LearningView.STUDY ->
      exists card,
        nth_error (LearningView.studyCards st) (LearningView.currentIndex st)
        = Some card).
Proof.
  intros st.
  assert (Hinv : studyInvariant allCards lang st).
  { subst st. unfold LearningView.run.
    assert (H0 : studyInvariant allCards lang LearningView.initialState)
      by (split; [constructor|discriminate]).
    revert H0. generalize LearningView.initialState.
    induction evs as [|ev evs' IH]; intros s Hs; simpl; [exact Hs|].
    apply IH. now apply step_studyInvariant. }
  destruct Hinv as [Hcards Hidx]. split.
  - eapply Forall_impl; [|exact Hcards].
    intros c Hc. now apply languageCards_In.
  - intros Hm. specialize (Hidx Hm).
    destruct (nth_error (LearningView.studyCards st)
                (LearningView.currentIndex st)) as [card|] eqn:Hn; [eauto|].
    apply nth_error_None in Hn. lia.
Qed.

End StudyNavigation.

Lemma firstn_NoDup {A} n (xs : list A) : NoDup xs -> NoDup (firstn n xs).
Proof.
  revert n. induction xs as [|x r IH]; intros [|n] H; simpl;
    try constructor.
  - inversion H as [|? ? Hx Hr]; subst. intros Hin. apply Hx.
    rewrite <- (firstn_skipn n r). apply in_or_app. now left.
  - inversion H; subst. now apply IH.
Qed.

Lemma firstn_In {A} n (xs : list A) x : In x (firstn n xs) -> In x xs.
Proof.
  intros H. rewrite <- (firstn_skipn n xs). apply in_or_app. now left.
Qed.

Lemma handleStartQuiz_pool sortRandom allCards level st :
  App.handleStartQuiz sortRandom allCards level st
  = let pool := quizPool allCards (App.selectedLanguage st) level in
    if Nat.eqb (List.length pool) 0 then
      {| App.appState := App.appState st;
         App.quizCards := App.quizCards st;
         App.isReviewMode := App.isReviewMode st;
         App.selectedLanguage := App.selectedLanguage st;
         App.alerts :=
           App.alerts st ++ [js "선택한 조건에 맞는 카드가 없습니다."] |}
    else
      {| App.appState := App.QUIZ;
         App.quizCards := firstn 20 (sortRandom pool);
         App.isReviewMode := false;
         App.selectedLanguage := App.selectedLanguage st;
         App.alerts := App.alerts st |}.
Proof.
  reflexivity.
Qed.

(** Starting a quiz: when no card matches the selected language and level
    the user is alerted and the view does not change; otherwise the quiz
    view opens, not in review mode, on [min 20 n] of the [n] matching
    cards: every quiz card is a matching card, no card is asked twice
    unless the pool holds it twice, and a pool of at most 20 cards is
    asked completely. *)
Theorem handleStartQuiz_draws_at_most_20_matching_cards
  (sortRandom : list Card -> list Card) (allCards : list Card)
  (level : option jsstring) (st : App.State) :
  let pool := quizPool allCards (App.selectedLanguage st) level in
  let st' := App.handleStartQuiz sortRandom allCards level st in
  Permutation pool (sortRandom pool) ->
  (pool = [] ->
   App.appState st' = App.appState st
   /\ App.quizCards st' = App.quizCards st
   /\ App.alerts st'
      = App.alerts st ++ [js "선택한 조건에 맞는 카드가 없습니다."])
  /\ (pool <> [] ->
      App.appState st' = App.QUIZ
      /\ App.isReviewMode st' = false
      /\ App.quizCards st' <> []
      /\ List.length (App.quizCards st') = Nat.min 20 (List.length pool)
      /\ (forall c, In c (App.quizCards st') -> In c pool)
      /\ (NoDup pool -> NoDup (App.quizCards st'))
      /\ (List.length pool <= 20 -> Permutation pool (App.quizCards st'))
      /\ App.alerts st' = App.alerts st).
Proof.
  intros pool st' Hperm.
  subst st'. rewrite handleStartQuiz_pool. fold pool. cbv zeta.
  pose proof (Permutation_length Hperm) as Hlen.
  destruct pool as [|c cs] eqn:Hp.
  - split; [now repeat split|]. intros H. now contradiction H.
  - split; [discriminate|]. intros _. cbn [List.length Nat.eqb].
    cbn [App.appState App.isReviewMode App.quizCards App.alerts].
    split; [reflexivity|]. split; [reflexivity|]. split.
    { destruct (sortRandom (c :: cs)); [discriminate Hlen|discriminate]. }
    split; [rewrite length_firstn; f_equal; symmetry; exact Hlen|]. split.
    { intros x Hx. apply firstn_In in Hx.
      eapply Permutation_in; [apply Permutation_sym|]; eassumption. }
    split.
    { intros Hnd. apply firstn_NoDup.
      eapply Permutation_NoDup; eassumption. }
    split; [|reflexivity].
    intros Hsmall. rewrite firstn_all2; [exact Hperm|].
    simpl in Hlen, Hsmall. rewrite <- Hlen. exact Hsmall.
Qed.

(** The German cards of the sample library, with the shuffle that
    reverses. *)
Lemma startLearning_studies_the_matching_cards_witness :
  Permutation
    (studyPool MoreSamples.three_cards (js "German")
       (LearningView.targetLevel
          (LearningView.setTargetLevel (js "ALL")
             LearningView.initialState)))
    (rev (studyPool MoreSamples.three_cards (js "German")
            (LearningView.targetLevel
               (LearningView.setTargetLevel (js "ALL")
                  LearningView.initialState))))
  /\ LearningView.studyCards
       (LearningView.startLearning (@rev Card) MoreSamples.three_cards
          (js "German")
          (LearningView.setTargetLevel (js "ALL")
             LearningView.initialState))
     = [Samples.apfel_card; MoreSamples.birne_card].
Proof.
  assert (H : Permutation
                (studyPool MoreSamples.three_cards (js "German")
                   (LearningView.targetLevel
                      (LearningView.setTargetLevel (js "ALL")
                         LearningView.initialState)))
                (rev (studyPool MoreSamples.three_cards (js "German")
                        (LearningView.targetLevel
                           (LearningView.setTargetLevel (js "ALL")
                              LearningView.initialState)))))
    by apply Permutation_rev.
  split; [exact H|].
  destruct (startLearning_studies_the_matching_cards (@rev Card)
              MoreSamples.three_cards (js "German")
              (LearningView.setTargetLevel (js "ALL")
                 LearningView.initialState) H) as (_ & _ & Hsome).
  destruct Hsome as (_ & _ & _ & Hsame & _).
  - vm_compute. discriminate.
  - rewrite (Hsame eq_refl). vm_compute. reflexivity.
Defined.

(** A study session on the German cards: shuffled start, two steps forward
    (the second one stops at the last card), one step back. *)
Lemma study_navigation_stays_in_bounds_witness :
  exists card,
    nth_error
      (LearningView.studyCards
         (LearningView.run (@rev Card) MoreSamples.three_cards (js "German")
            [LearningView.SelectLevel (js "ALL"); LearningView.ToggleShuffle;
             LearningView.StartLearning;
             LearningView.KeyDown false LearningView.ArrowRight;
             LearningView.KeyDown false LearningView.Enter;
             LearningView.ClickPrevious]
            LearningView.initialState))
      (LearningView.currentIndex
         (LearningView.run (@rev Card) MoreSamples.three_cards (js "German")
            [LearningView.SelectLevel (js "ALL"); LearningView.ToggleShuffle;
             LearningView.StartLearning;
             LearningView.KeyDown false LearningView.ArrowRight;
             LearningView.KeyDown false LearningView.Enter;
             LearningView.ClickPrevious]
            LearningView.initialState))
    = Some card.
Proof.
  apply (proj2 (study_navigation_stays_in_bounds (@rev Card)
                  MoreSamples.three_cards (js "German")
                  (@Permutation_rev Card)
                  [LearningView.SelectLevel (js "ALL");
                   LearningView.ToggleShuffle; LearningView.StartLearning;
                   LearningView.KeyDown false LearningView.ArrowRight;
                   LearningView.KeyDown false LearningView.Enter;
                   LearningView.ClickPrevious])).
  vm_compute. reflexivity.
Defined.

(** A quiz on the German cards of level A1 of the sample library. *)
Lemma handleStartQuiz_draws_at_most_20_matching_cards_witness :
  Permutation
    (quizPool MoreSamples.three_cards
       (App.selectedLanguage App.initialState) (Some (js "A1")))
    (rev (quizPool MoreSamples.three_cards
            (App.selectedLanguage App.initialState) (Some (js "A1"))))
  /\ App.quizCards
       (App.handleStartQuiz (@rev Card) MoreSamples.three_cards
          (Some (js "A1")) App.initialState)
     = [Samples.apfel_card]
  /\ App.appState
       (App.handleStartQuiz (@rev Card) MoreSamples.three_cards
          (Some (js "A1")) App.initialState)
     = App.QUIZ.
Proof.
  assert (H : Permutation
                (quizPool MoreSamples.three_cards
                   (App.selectedLanguage App.initialState) (Some (js "A1")))
                (rev (quizPool MoreSamples.three_cards
                        (App.selectedLanguage App.initialState)
                        (Some (js "A1")))))
    by apply Permutation_rev.
  split; [exact H|]. split; [vm_compute; reflexivity|].
  destruct (handleStartQuiz_draws_at_most_20_matching_cards (@rev Card)
              MoreSamples.three_cards (Some (js "A1")) App.initialState H)
    as (_ & Hsome).
  assert (Hne : quizPool MoreSamples.three_cards
                  (App.selectedLanguage App.initialState) (Some (js "A1"))
                <> [])
    by (intro Hnil; vm_compute in Hnil; discriminate Hnil).
  destruct (Hsome Hne) as (Hquiz & _). exact Hquiz.
Defined.

(** ** The languages and levels offered *)

Lemma sameValueZero_eq a b : sameValueZero a b = true -> a = b.
Proof.
  destruct a, b; simpl; try discriminate; intros H.
  - reflexivity.
  - apply Bool.eqb_prop in H. now subst.
  - apply Z.eqb_eq in H. now subst.
  - apply jsstring_eqb_eq in H. now subst.
Qed.

Lemma sameValueZero_string s : sameValueZero (JStr s) (JStr s) = true.
Proof. simpl. apply jsstring_eqb_refl. Qed.

Lemma setAdd_In s x v : In v (setAdd s x) <-> In v s \/ v = x.
Proof.
  unfold setAdd. destruct (existsb (sameValueZero x) s) eqn:He.
  - apply existsb_exists in He as (y & Hy & Heq).
    apply sameValueZero_eq in Heq. subst y.
    split; [now left|]. intros [H| ->]; assumption.
  - rewrite in_app_iff. simpl. split.
    + intros [H|[<-|[]]]; [now left|now right].
    + intros [H| ->]; [now left|right; now left].
Qed.

Lemma fold_setAdd_In xs s v :
  In v (fold_left setAdd xs s) <-> In v s \/ In v xs.
Proof.
  revert s. induction xs as [|x r IH]; intros s; simpl.
  - tauto.
  - rewrite IH, setAdd_In. split; intros H.
    + destruct H as [[H|H]|H]; auto.
    + destruct H as [H|[H|H]]; auto.
Qed.

(** No two strings of the set are equal. *)
Lemma setAdd_strings_NoDup s x :
  Forall (fun v => isString v = true) (s ++ [x]) ->
  NoDup s -> NoDup (setAdd s x).
Proof.
  intros Hstr Hnd. unfold setAdd.
  destruct (existsb (sameValueZero x) s) eqn:He; [assumption|].
  apply NoDup_app; [assumption|repeat constructor; intros []|].
  intros v Hv [Heq|[]]. subst v.
  assert (Hx : isString x = true).
  { rewrite Forall_forall in Hstr. apply Hstr. apply in_or_app. now left. }
  destruct x as [| | |t| |]; try discriminate.
  assert (Ht : existsb (sameValueZero (JStr t)) s = true).
  { apply existsb_exists. exists (JStr t). split; [assumption|].
    apply sameValueZero_string. }
  congruence.
Qed.

Lemma fold_setAdd_strings_NoDup xs s :
  Forall (fun v => isString v = true) (s ++ xs) ->
  NoDup s -> NoDup (fold_left setAdd xs s).
Proof.
  revert s. induction xs as [|x r IH]; intros s Hstr Hnd; simpl.
  - assumption.
  - apply IH.
    + apply Forall_forall. intros v Hv. rewrite Forall_forall in Hstr.
      apply Hstr. apply in_app_or in Hv as [Hv|Hv].
      * apply setAdd_In in Hv as [Hv| ->]; apply in_or_app;
          [now left|right; now left].
      * apply in_or_app. right. now right.
    + apply setAdd_strings_NoDup; [|assumption].
      apply Forall_forall. intros v Hv. rewrite Forall_forall in Hstr.
      apply Hstr. apply in_app_or in Hv as [Hv|[<-|[]]]; apply in_or_app;
        [now left|right; now left].
Qed.

Lemma ltString_asym a b : ltString a b = true -> ltString b a = false.
Proof.
  revert b. induction a as [|x a IH]; intros [|y b]; simpl; try discriminate;
    try reflexivity.
  destruct (N.ltb_spec x y), (N.ltb_spec y x); try lia; try reflexivity;
    try discriminate.
  apply IH.
Qed.

Lemma insertSorted_perm x sorted : Permutation (x :: sorted) (insertSorted x sorted).
Proof.
  induction sorted as [|y r IH]; simpl; [apply Permutation_refl|].
  destruct (ltString (toStringJS x) (toStringJS y));
    [apply Permutation_refl|].
  eapply Permutation_trans; [apply perm_swap|]. now apply perm_skip.
Qed.

Lemma insertSorted_sorted x sorted :
  Sorted notAfter sorted -> Sorted notAfter (insertSorted x sorted).
Proof.
  induction 1 as [|y r Hr IH Hhd]; simpl.
  - repeat constructor.
  - destruct (ltString (toStringJS x) (toStringJS y)) eqn:Hlt.
    + constructor; [now constructor|]. constructor.
      unfold notAfter. now apply ltString_asym.
    + constructor; [exact IH|].
      destruct r as [|z r']; simpl.
      * constructor. exact Hlt.
      * destruct (ltString (toStringJS x) (toStringJS z));
          constructor; [exact Hlt|].
        now inversion Hhd.
Qed.

Lemma sortDefault_perm xs : Permutation xs (sortDefault xs).
Proof.
  unfold sortDefault.
  assert (H : forall acc, Permutation (rev xs ++ acc)
                            (fold_left (fun s x => insertSorted x s) xs acc)).
  { induction xs as [|x r IH]; intros acc; simpl; [apply Permutation_refl|].
    eapply Permutation_trans; [|apply IH].
    rewrite <- app_assoc. apply Permutation_app_head. simpl.
    apply insertSorted_perm. }
  specialize (H []). rewrite app_nil_r in H.
  eapply Permutation_trans; [apply Permutation_rev|exact H].
Qed.

Lemma sortDefault_sorted xs : Sorted notAfter (sortDefault xs).
Proof.
  unfold sortDefault.
  assert (H : forall acc, Sorted notAfter acc ->
                Sorted notAfter
                  (fold_left (fun s x => insertSorted x s) xs acc)).
  { induction xs as [|x r IH]; intros acc Hacc; simpl; [assumption|].
    apply IH. now apply insertSorted_sorted. }
  apply H. constructor.
Qed.

Lemma ltString_false_trans a b c :
  ltString b a = false -> ltString c b = false -> ltString c a = false.
Proof.
  revert b c. induction a as [|x a IH]; intros b c.
  - now destruct c.
  - destruct b as [|y b]; [discriminate|].
    destruct c as [|z c]; [discriminate|]. simpl.
    destruct (N.ltb_spec y x), (N.ltb_spec x y), (N.ltb_spec z y),
             (N.ltb_spec y z), (N.ltb_spec z x), (N.ltb_spec x z);
      try discriminate; try reflexivity; try lia.
    apply IH.
Qed.

Lemma notAfter_trans a b c : notAfter a b -> notAfter b c -> notAfter a c.
Proof.
  unfold notAfter. intros Hab Hbc.
  exact (ltString_false_trans _ _ _ Hab Hbc).
Qed.

Lemma sortDefault_strongly_sorted xs : StronglySorted notAfter (sortDefault xs).
Proof.
  apply Sorted_StronglySorted; [|apply sortDefault_sorted].
  intros a b c. apply notAfter_trans.
Qed.

Lemma sortDefault_arrayFromSet_In xs v :
  In v (sortDefault (arrayFromSet xs)) <-> In v xs.
Proof.
  split; intros H.
  - apply (Permutation_in _ (Permutation_sym (sortDefault_perm _))) in H.
    unfold arrayFromSet in H. apply fold_setAdd_In in H as [[]|H].
    exact H.
  - apply (Permutation_in _ (sortDefault_perm _)).
    unfold arrayFromSet. apply fold_setAdd_In. now right.
Qed.

Lemma sortDefault_arrayFromSet_NoDup xs :
  Forall (fun v => isString v = true) xs ->
  NoDup (sortDefault (arrayFromSet xs)).
Proof.
  intros Hs.
  eapply Permutation_NoDup; [apply sortDefault_perm|].
  unfold arrayFromSet. apply fold_setAdd_strings_NoDup;
    [exact Hs|constructor].
Qed.

(** The languages offered are exactly the languages of the loaded cards
    (German standing in for a missing one), in ascending order of their
    code units, each string once; the levels offered for a language are
    ALL followed, in the same way, by exactly the levels of the cards of
    that language. *)
Theorem offered_languages_and_levels (allCards : list Card)
  (selectedLanguage : jsstring) :
  (forall v, In v (availableLanguages allCards)
             <-> exists c, In c allCards /\ cardLanguage c = v)
  /\ StronglySorted notAfter (availableLanguages allCards)
  /\ (Forall (fun c => isString (cardLanguage c) = true) allCards ->
      NoDup (availableLanguages allCards))
  /\ (exists lvls,
        levels allCards selectedLanguage = JStr (js "ALL") :: lvls
        /\ StronglySorted notAfter lvls
        /\ (forall v, In v lvls
                      <-> exists c, In c allCards
                                    /\ cardLanguage c = JStr selectedLanguage
                                    /\ level c = v)
        /\ (Forall (fun c => isString (level c) = true) allCards ->
            NoDup lvls)).
Proof.
  pose proof sortDefault_arrayFromSet_In as Hin.
  pose proof sortDefault_arrayFromSet_NoDup as Hnd.
  split; [|split; [|split]].
  - intros v. unfold availableLanguages. rewrite Hin, in_map_iff.
    split; intros (c & H1 & H2); exists c; now split.
  - apply sortDefault_strongly_sorted.
  - intros Hs. apply Hnd. apply Forall_forall. intros v Hv.
    apply in_map_iff in Hv as (c & <- & Hc).
    rewrite Forall_forall in Hs. now apply Hs.
  - eexists. split; [reflexivity|].
    split; [apply sortDefault_strongly_sorted|].
    split.
    + intros v. rewrite Hin, in_map_iff. split.
      * intros (c & Hl & Hc). apply languageCards_In in Hc as [Hc Hlang].
        exists c. now repeat split.
      * intros (c & Hc & Hlang & Hl). exists c. split; [exact Hl|].
        now apply languageCards_In.
    + intros Hs. apply Hnd. apply Forall_forall. intros v Hv.
      apply in_map_iff in Hv as (c & <- & Hc).
      apply languageCards_In in Hc as [Hc _].
      rewrite Forall_forall in Hs. now apply Hs.
Qed.

(** The sample library: two languages and, for German, two levels. *)
Lemma offered_languages_and_levels_witness :
  Forall (fun c => isString (cardLanguage c) = true) MoreSamples.three_cards
  /\ availableLanguages MoreSamples.three_cards
     = [JStr (js "English"); JStr (js "German")]
  /\ levels MoreSamples.three_cards (js "German")
     = [JStr (js "ALL"); JStr (js "A1"); JStr (js "Unknown")]
  /\ NoDup (availableLanguages MoreSamples.three_cards).
Proof.
  assert (H : Forall (fun c => isString (cardLanguage c) = true)
                MoreSamples.three_cards)
    by (repeat constructor).
  split; [exact H|]. split; [vm_compute; reflexivity|].
  split; [vm_compute; reflexivity|].
  destruct (offered_languages_and_levels MoreSamples.three_cards
              (js "German")) as (_ & _ & Hnd & _).
  exact (Hnd H).
Defined.

(** Every level offered for a language with at least one card starts a
    quiz: the start button never alerts for a level taken from the offered
    list, the sentinel ALL included. *)
Theorem offered_level_starts_a_quiz (sortRandom : list Card -> list Card)
  (allCards : list Card) (lvl : jsstring) (st : App.State) :
  (forall l, Permutation l (sortRandom l)) ->
  languageCards allCards (App.selectedLanguage st) <> [] ->
  In (JStr lvl) (levels allCards (App.selectedLanguage st)) ->
  let st' := App.clickStart sortRandom allCards lvl st in
  App.appState st' = App.QUIZ
  /\ App.quizCards st' <> []
  /\ App.alerts st' = App.alerts st
  /\ (forall c, In c (App.quizCards st') ->
        In c allCards
        /\ cardLanguage c = JStr (App.selectedLanguage st)
        /\ (lvl = js "ALL" \/ lvl = [] \/ level c = JStr lvl)).
Proof.
  intros Hperm Hlang Hlvl st'. subst st'. unfold App.clickStart.
  set (chosen := if JsString.eqb lvl (js "ALL") then None else Some lvl).
  assert (Hpool : forall c,
            In c (quizPool allCards (App.selectedLanguage st) chosen) ->
            In c allCards
            /\ cardLanguage c = JStr (App.selectedLanguage st)
            /\ (lvl = js "ALL" \/ lvl = [] \/ level c = JStr lvl)).
  { intros c. subst chosen. unfold quizPool.
    destruct (JsString.eqb lvl (js "ALL")) eqn:Hall.
    - apply jsstring_eqb_eq in Hall. rewrite languageCards_In. tauto.
    - destruct lvl as [|x r]; cbn [List.length Nat.eqb].
      + rewrite languageCards_In. tauto.
      + rewrite levelCards_In, languageCards_In. tauto. }
  assert (Hne : quizPool allCards (App.selectedLanguage st) chosen <> []).
  { subst chosen. unfold quizPool.
    destruct (JsString.eqb lvl (js "ALL")) eqn:Hall; [exact Hlang|].
    destruct lvl as [|x r]; cbn [List.length Nat.eqb]; [exact Hlang|].
    destruct Hlvl as [Hl|Hl].
    { apply jsstring_eqb_neq in Hall. exfalso. apply Hall. congruence. }
    apply sortDefault_arrayFromSet_In, in_map_iff in Hl as (c & Hcv & Hc).
    intros Hnil.
    assert (Hc' : In c (levelCards
                          (languageCards allCards (App.selectedLanguage st))
                          (x :: r)))
      by (apply levelCards_In; now split).
    rewrite Hnil in Hc'. exact Hc'. }
  rewrite handleStartQuiz_pool. cbv zeta.
  pose proof (Hperm (quizPool allCards (App.selectedLanguage st) chosen))
    as Hp.
  destruct (quizPool allCards (App.selectedLanguage st) chosen)
    as [|c cs] eqn:Hq; [now contradiction Hne|].
  cbn [List.length Nat.eqb App.appState App.quizCards App.alerts].
  split; [reflexivity|]. split.
  { pose proof (Permutation_length Hp) as Hlen.
    destruct (sortRandom (c :: cs)); [discriminate Hlen|discriminate]. }
  split; [reflexivity|].
  intros x Hx. apply Hpool. apply firstn_In in Hx.
  eapply Permutation_in; [apply Permutation_sym|]; eassumption.
Qed.

(** The level A1 of the German cards of the sample library. *)
Lemma offered_level_starts_a_quiz_witness :
  languageCards MoreSamples.three_cards
    (App.selectedLanguage App.initialState) <> []
  /\ In (JStr (js "A1"))
        (levels MoreSamples.three_cards
           (App.selectedLanguage App.initialState))
  /\ App.appState
       (App.clickStart (@rev Card) MoreSamples.three_cards (js "A1")
          App.initialState) = App.QUIZ.
Proof.
  assert (H1 : languageCards MoreSamples.three_cards
                 (App.selectedLanguage App.initialState) <> [])
    by (vm_compute; discriminate).
  assert (H2 : In (JStr (js "A1"))
                  (levels MoreSamples.three_cards
                     (App.selectedLanguage App.initialState)))
    by (vm_compute; right; left; reflexivity).
  split; [exact H1|]. split; [exact H2|].
  exact (proj1 (offered_level_starts_a_quiz (@rev Card)
                  MoreSamples.three_cards (js "A1") App.initialState
                  (@Permutation_rev Card) H1 H2)).
Defined.

(** ** A wrong answer against a stored value that is not a list *)

Section StoredNonArray.

Context {rt : Runtime}.

(** When the stored wrong-card payload decodes to a value that is not an
    array, a wrong answer ends the submit handler by a TypeError: the
    feedback and the statistics are set, but the card is recorded neither
    in the session's wrong-card list nor in the store. *)
Theorem wrong_answer_fails_on_stored_non_array (cards : list Card)
  (w : World) (card : Card) (payload : jsstring) (stored : json) :
  isFinished (quiz w) = false -> feedback (quiz w) = Idle ->
  trim (input (quiz w)) <> [] ->
  nth_error cards (currentIndex (quiz w)) = Some card ->
  includes (accepted_answers_de card) (normalizeAnswer (input (quiz w)))
  = false ->
  getItem STORAGE_KEY_WRONG_CARDS (localStorage w) = Some payload ->
  payload <> [] ->
  JSON_parse payload = Normal stored ->
  (forall items, stored <> JArr items) ->
  fst (submit cards w) = Throw TypeError
  /\ feedback (quiz (snd (submit cards w))) = Incorrect
  /\ total (stats (quiz (snd (submit cards w))))
     = total (stats (quiz w)) + 1
  /\ sessionWrongCards (quiz (snd (submit cards w)))
     = sessionWrongCards (quiz w)
  /\ localStorage (snd (submit cards w)) = localStorage w.
Proof.
  intros Hfin Hidle Hinput Hcard Hwrong Hget Hne Hparse Hnot.
  unfold submit, handleSubmit. rewrite Hfin, Hidle, Hcard, Hwrong.
  destruct (trim (input (quiz w))) as [|c r]; [now contradiction Hinput|].
  cbn [List.length Nat.eqb negb].
  unfold bindE, setStats, setFeedback, modify. cbn [fst snd].
  unfold saveWrongCard, bindE, localStorage_getItem, reads.
  cbn [localStorage withQuiz]. rewrite Hget.
  destruct payload as [|p ps]; [now contradiction Hne|].
  cbn [List.length Nat.eqb]. unfold lift. rewrite Hparse.
  destruct stored; try (cbn; now repeat split).
  now destruct (Hnot items).
Qed.

End StoredNonArray.

(** The answer Birne to the card Apfel, with the object [{}] stored. *)
Lemma wrong_answer_fails_on_stored_non_array_witness :
  let w := typing (js "Birne") MoreSamples.world_with_object_store in
  @JSON_parse Reference.runtime (jsq "{}") = Normal (JObj [])
  /\ fst (@submit Reference.runtime [Samples.apfel_card] w) = Throw TypeError
  /\ feedback (quiz (snd (@submit Reference.runtime [Samples.apfel_card] w)))
     = Incorrect.
Proof.
  intros w.
  assert (Hparse : @JSON_parse Reference.runtime (jsq "{}")
                   = Normal (JObj []))
    by (vm_compute; reflexivity).
  assert (Hinput : trim (input (quiz w)) <> [])
    by (intro H; vm_compute in H; discriminate H).
  assert (Hwrong : @includes
                     (accepted_answers_de Samples.apfel_card)
                     (@normalizeAnswer Reference.runtime (input (quiz w)))
                   = false)
    by (vm_compute; reflexivity).
  assert (Hne : jsq "{}" <> [])
    by (intro H; vm_compute in H; discriminate H).
  split; [exact Hparse|].
  destruct (@wrong_answer_fails_on_stored_non_array Reference.runtime
              [Samples.apfel_card] w Samples.apfel_card (jsq "{}") (JObj [])
              eq_refl eq_refl Hinput eq_refl Hwrong eq_refl Hne Hparse
              (fun items H => eq_ind (JObj []) (fun v => match v with
                                                         | JObj _ => True
                                                         | _ => False
                                                         end) I _ H))
    as (H1 & H2 & _).
  split; [exact H1|exact H2].
Defined.

(** A wrong answer with a card already stored: the memo entry of the store
    is still the one it was. *)
Lemma submit_touches_only_quiz_and_wrong_cards_witness :
  let w := typing (js "Birne") MoreSamples.world_with_wrong_card in
  STORAGE_KEY_MEMOS <> STORAGE_KEY_WRONG_CARDS
  /\ getItem STORAGE_KEY_MEMOS
       (localStorage
          (snd (@handleSubmit Reference.runtime [Samples.apfel_card]
                  (quiz w) w)))
     = Some (jsq "{'1000':'der Apfel'}").
Proof.
  intros w.
  assert (Hk : STORAGE_KEY_MEMOS <> STORAGE_KEY_WRONG_CARDS)
    by (intro H; vm_compute in H; discriminate H).
  split; [exact Hk|].
  destruct (@submit_touches_only_quiz_and_wrong_cards Reference.runtime
              [Samples.apfel_card] (quiz w) w)
    as (_ & _ & _ & _ & _ & Hother & _).
  exact (Hother STORAGE_KEY_MEMOS Hk).
Defined.
